(** * Word-wrapping and line-truncating streams (lib/argp-fmtstream.c)

    A shallow embedding of the buffer engine of [argp-fmtstream.c]:
    [__argp_make_fmtstream], [line_at_point], [__argp_fmtstream_update],
    [__argp_fmtstream_ensure], [__argp_fmtstream_printf] and
    [__argp_fmtstream_free], followed by the properties of the
    specification that were checked against them.

    Conventions of the embedding.
    - [size_t] and [ssize_t] are 64 bits wide and [int] is 32 bits
      wide; every arithmetic expression of the source is written with
      its wrap-around in the type the source computes it in
      ([Mach.wrap] for unsigned results, [Mach.sgn] for signed ones,
      [Mach.to_int] for [int], whose overflow wraps as on the
      two's-complement machines the program is compiled for).
    - A [char *] into the stream's buffer is kept as its offset from
      [fs->buf].  The address space is flat, so pointer arithmetic is
      arithmetic modulo 2^64 on offsets ([Mach.ptr]); pointers compare
      by their offsets.
    - The buffer is the whole allocation [buf, end): a list of
      [end - buf] bytes, including the bytes beyond [p] that the
      program has not written yet.  An access outside the allocation
      stops the run with [OutOfBounds].  The behaviour of the compiled
      program is undefined from there on, and it may well go on:
      [OutOfBounds] is neither a return nor the end of a loop.
    - Loops that the source does not bound take fuel; a run that
      exhausts it stops with [OutOfFuel].
    - The sink is written through [fwrite_unlocked] and
      [putc_unlocked], the branch compiled outside the C library; the
      break classifier is [ulc_width_linebreaks] of that branch, which
      the stream calls and does not define. *)

From Stdlib Require Import ZArith Ascii String List Bool Lia.
Import ListNotations.
Open Scope Z_scope.

(** ** Machine integers *)

Module Mach.

Definition size_mod : Z := 2 ^ 64.
Definition half_mod : Z := 2 ^ 63.

(** Value of an expression of type [size_t]. *)
Definition wrap (x : Z) : Z := x mod size_mod.

(** Value of an expression of type [ssize_t] or [ptrdiff_t]. *)
Definition sgn (x : Z) : Z := (x + half_mod) mod size_mod - half_mod.

(** Offset reached by pointer arithmetic that yields [buf + x]. *)
Definition ptr (x : Z) : Z := sgn x.

(** Value of an expression converted to [int]. *)
Definition to_int (x : Z) : Z := (x + 2 ^ 31) mod 2 ^ 32 - 2 ^ 31.

End Mach.

(** ** Outcomes of a run *)

Inductive res (A : Type) : Type :=
| Ret (a : A)
| OutOfBounds
| OutOfFuel.

Arguments Ret {A} a.
Arguments OutOfBounds {A}.
Arguments OutOfFuel {A}.

Definition bind {A B : Type} (m : res A) (k : A -> res B) : res B :=
  match m with
  | Ret a => k a
  | OutOfBounds => OutOfBounds
  | OutOfFuel => OutOfFuel
  end.

Notation "x <- m ;; k" := (bind m (fun x => k))
  (at level 61, m at next level, right associativity).

(** ** Bytes and the buffer *)

Definition byte : Type := ascii.

Definition NL : byte := "010"%char.
Definition SP : byte := " "%char.
Definition NUL : byte := "000"%char.
Definition HYPHEN : byte := "-"%char.

Definition bytes_of (s : string) : list byte := list_ascii_of_string s.

Module Mem.

Definition blen (b : list byte) : Z := Z.of_nat (length b).

(** The [n] bytes at [i, i + n) lie inside the allocation. *)
Definition in_range (b : list byte) (i n : Z) : bool :=
  (0 <=? i) && (i + n <=? blen b).

Definition slice (b : list byte) (i n : Z) : list byte :=
  firstn (Z.to_nat n) (skipn (Z.to_nat i) b).

(** Overwrite the bytes at [i, i + length s) by [s]. *)
Definition splice (b : list byte) (i : Z) (s : list byte) : list byte :=
  firstn (Z.to_nat i) b ++ s ++ skipn (Z.to_nat i + length s) b.

(** The byte at offset [i]. *)
Definition get (b : list byte) (i : Z) : byte := nth (Z.to_nat i) b NUL.

Definition store (b : list byte) (i : Z) (c : byte) : res (list byte) :=
  if in_range b i 1 then Ret (splice b i [c]) else OutOfBounds.

(** [memcpy (buf + dst, s, strlen s)] for a source outside the buffer. *)
Definition memcpy (b : list byte) (dst : Z) (s : list byte) : res (list byte) :=
  match s with
  | [] => Ret b
  | _ => if in_range b dst (blen s) then Ret (splice b dst s) else OutOfBounds
  end.

(** [memmove (buf + dst, buf + src, n)]. *)
Definition memmove (b : list byte) (dst src n : Z) : res (list byte) :=
  if n =? 0 then Ret b
  else if in_range b src n && in_range b dst n
       then Ret (splice b dst (slice b src n))
       else OutOfBounds.

Fixpoint index_of (c : byte) (l : list byte) : option nat :=
  match l with
  | [] => None
  | x :: l' => if Ascii.eqb x c then Some O
               else match index_of c l' with
                    | Some k => Some (S k)
                    | None => None
                    end
  end.

(** The bytes [memchr (buf + start, c, n)] can look at before it runs
    off the allocation. *)
Definition window (b : list byte) (start n : Z) : list byte :=
  slice b start (Z.min n (blen b - start)).

(** [memchr (buf + start, c, n)]: the offset of the first [c] among the
    [n] bytes from [start], [None] for a null result.  The search stops
    at the first match; without one it reads all [n] bytes. *)
Definition memchr (b : list byte) (start : Z) (c : byte) (n : Z)
  : res (option Z) :=
  if n =? 0 then Ret None
  else if (start <? 0) || (blen b <=? start) then OutOfBounds
  else match index_of c (window b start n) with
       | Some k => Ret (Some (start + Z.of_nat k))
       | None => if start + n <=? blen b then Ret None else OutOfBounds
       end.

(** Number of bytes the same search examines, whether or not they lie
    inside the allocation: [k + 1] when the match is the [k]-th byte,
    all [n] otherwise. *)
Definition memchr_span (b : list byte) (start : Z) (c : byte) (n : Z) : Z :=
  if n =? 0 then 0
  else if (start <? 0) || (blen b <=? start) then n
  else match index_of c (window b start n) with
       | Some k => Z.of_nat k + 1
       | None => n
       end.

End Mem.

(** ** The world outside the stream *)

(** Modelled from the spec: the labels of the break classifier, whose
    header (unilbrk.h) is not part of the sources: no break, possible
    break, hyphenation break and mandatory break. *)
Inductive brk : Type :=
| UC_BREAK_UNDEFINED
| UC_BREAK_POSSIBLE
| UC_BREAK_HYPHENATION
| UC_BREAK_MANDATORY.

(** What the stream calls and does not define.
    - [linebreaks span width start_column] stands for
      [ulc_width_linebreaks]: the labels it writes for the bytes of
      [span] and the column it returns.
    - [malloc_ok n] tells whether [malloc (n)] of the scratch array
      succeeds.
    - [fwrite_ret data] is the count the sink reports for a write of
      [data]; the sink takes that prefix of [data].
    - [realloc_tail n] is the outcome of [realloc (fs->buf, n)]: [None]
      for a null result, otherwise the contents of the fresh part.

    An [env] is the world as one call of an exported function finds
    it.  Nothing ties the world of a call to the world of the next: an
    allocation that fails in one call may succeed in the following
    one, so the notion of two successive rewrite passes
    ([update_twice]) takes an [env] for each. *)
Record env : Type := {
  linebreaks : list byte -> Z -> Z -> list brk * Z;
  malloc_ok : Z -> bool;
  fwrite_ret : list byte -> Z;
  realloc_tail : Z -> option (nat -> byte)
}.

(** ** The stream *)

(** Modelled from the spec: [struct argp_fmtstream], whose declaration
    (argp-fmtstream.h) is not part of the sources.  The fields are
    those the source reads and writes: the margins [lmargin] and
    [rmargin] are [size_t], [wmargin] is [ssize_t] with -1 for
    truncation, [point_offs] is [size_t], [point_col] is [ssize_t]
    with -1 for the invalid column.  [stream] is what the sink has
    received, [buf] the allocation, [p] the offset of [fs->p];
    [fs->end] is [buf + length buf]. *)
Record fmtstream : Type := {
  stream : list byte;
  lmargin : Z;
  rmargin : Z;
  wmargin : Z;
  point_offs : Z;
  point_col : Z;
  buf : list byte;
  p : Z
}.

Definition set_stream (fs : fmtstream) (s : list byte) : fmtstream :=
  {| stream := s; lmargin := lmargin fs; rmargin := rmargin fs;
     wmargin := wmargin fs; point_offs := point_offs fs;
     point_col := point_col fs; buf := buf fs; p := p fs |}.

Definition set_point_offs (fs : fmtstream) (o : Z) : fmtstream :=
  {| stream := stream fs; lmargin := lmargin fs; rmargin := rmargin fs;
     wmargin := wmargin fs; point_offs := o;
     point_col := point_col fs; buf := buf fs; p := p fs |}.

Definition set_point_col (fs : fmtstream) (c : Z) : fmtstream :=
  {| stream := stream fs; lmargin := lmargin fs; rmargin := rmargin fs;
     wmargin := wmargin fs; point_offs := point_offs fs;
     point_col := c; buf := buf fs; p := p fs |}.

Definition set_buf (fs : fmtstream) (b : list byte) : fmtstream :=
  {| stream := stream fs; lmargin := lmargin fs; rmargin := rmargin fs;
     wmargin := wmargin fs; point_offs := point_offs fs;
     point_col := point_col fs; buf := b; p := p fs |}.

Definition set_p (fs : fmtstream) (q : Z) : fmtstream :=
  {| stream := stream fs; lmargin := lmargin fs; rmargin := rmargin fs;
     wmargin := wmargin fs; point_offs := point_offs fs;
     point_col := point_col fs; buf := buf fs; p := q |}.

(** Offset of [fs->end]. *)
Definition cap (fs : fmtstream) : Z := Mem.blen (buf fs).

Definition INIT_BUF_SIZE : Z := 200.
Definition PRINTF_SIZE_GUESS : Z := 150.

(** ** The sink *)

(** Bytes of [data] the sink takes. *)
Definition accepted (E : env) (data : list byte) : Z :=
  Z.max 0 (Z.min (fwrite_ret E data) (Mem.blen data)).

(** The prefix of [data] that reaches the sink. *)
Definition taken (E : env) (data : list byte) : list byte :=
  firstn (Z.to_nat (accepted E data)) data.

(** [fwrite_unlocked (fs->buf + start, 1, n, fs->stream)] and its
    return value. *)
Definition fwrite_unlocked (E : env) (fs : fmtstream) (start n : Z)
  : res (Z * fmtstream) :=
  if n =? 0 then Ret (0, fs)
  else if Mem.in_range (buf fs) start n then
    let data := Mem.slice (buf fs) start n in
    Ret (accepted E data, set_stream fs (stream fs ++ taken E data))
  else OutOfBounds.

(** [putc_unlocked (c, fs->stream)]. *)
Definition putc_unlocked (E : env) (fs : fmtstream) (c : byte) : fmtstream :=
  set_stream fs (stream fs ++ taken E [c]).

(** ** [__argp_make_fmtstream]

    [heap] is the outcome of the two allocations: [None] when one of
    them fails, otherwise the contents [malloc] left in the
    [INIT_BUF_SIZE] bytes of the buffer. *)
Definition __argp_make_fmtstream (heap : option (nat -> byte))
    (sink : list byte) (lm rm wm : Z) : option fmtstream :=
  match heap with
  | None => None
  | Some h =>
      Some {| stream := sink;
              lmargin := lm; rmargin := rm; wmargin := wm;
              point_col := 0; point_offs := 0;
              buf := map h (seq 0 (Z.to_nat INIT_BUF_SIZE));
              p := 0 |}
  end.

(** The stream a successful call returns on an empty sink. *)
Definition fresh_stream (h : nat -> byte) (lm rm wm : Z) : fmtstream :=
  {| stream := [];
     lmargin := lm; rmargin := rm; wmargin := wm;
     point_col := 0; point_offs := 0;
     buf := map h (seq 0 (Z.to_nat INIT_BUF_SIZE));
     p := 0 |}.

(** ** [line_at_point] *)

(** One turn of the loop that outputs the first line to free space.
    [queue] is the local of [line_at_point], set on entry and not
    updated by the turns.  When no terminator is found the turn stores
    one at [queue - 1]; with [queue] at the start of the buffer that
    store falls before the allocation and the run stops here with
    [OutOfBounds], whereas the compiled program writes [buf[-1]],
    lowers [p] by [nl + 1 - buf = 0] and takes the same turn again. *)
Definition reclaim_step (E : env) (queue : Z) (fs : fmtstream)
  : res fmtstream :=
  found <- Mem.memchr (buf fs) 0 NL (point_offs fs) ;;
  nlb <- match found with
         | Some nl => Ret (nl, buf fs)
         | None =>
             (* Line longer than buffer: truncate. *)
             let nl := Mach.ptr (queue - 1) in
             b <- Mem.store (buf fs) nl NL ;; Ret (nl, b)
         end ;;
  let nl := fst nlb in
  let fs1 := set_buf fs (snd nlb) in
  wfs <- (if nl >? 0 then fwrite_unlocked E fs1 0 (Mach.wrap nl)
          else Ret (0, fs1)) ;;
  let fs2 := putc_unlocked E (snd wfs) NL in
  b <- Mem.memmove (buf fs2) 0 (Mach.ptr (nl + 1)) (Mach.wrap (nl + 1)) ;;
  Ret (set_point_offs
         (set_p (set_buf fs2 b) (Mach.ptr (p fs2 - (nl + 1))))
         (Mach.wrap (point_offs fs2 - (nl + 1)))).

(** [while (fs->p + space_needed > fs->end)]. *)
Fixpoint reclaim (E : env) (fuel : nat) (queue space_needed : Z)
    (fs : fmtstream) : res fmtstream :=
  if Mach.ptr (p fs + space_needed) >? cap fs then
    match fuel with
    | O => OutOfFuel
    | S fuel' =>
        fs' <- reclaim_step E queue fs ;;
        reclaim E fuel' queue space_needed fs'
    end
  else Ret fs.

(** [for (i = 0; i < fs->lmargin && fs->point_col != -1; i++)
      fs->buf[fs->point_offs++] = ' ';] with [n] turns left. *)
Fixpoint margin_loop (n : nat) (fs : fmtstream) : res fmtstream :=
  match n with
  | O => Ret fs
  | S n' =>
      if point_col fs =? -1 then Ret fs
      else
        b <- Mem.store (buf fs) (Mach.ptr (point_offs fs)) SP ;;
        margin_loop n'
          (set_point_offs (set_buf fs b) (Mach.wrap (point_offs fs + 1)))
  end.

(** The length the source takes of a suffix: [strlen], or nothing for
    a null suffix. *)
Definition suffix_len (suffix : option (list byte)) : Z :=
  match suffix with
  | Some s => Mem.blen s
  | None => 0
  end.

Definition line_at_point (E : env) (fuel : nat) (fs : fmtstream)
    (suffix : option (list byte)) : res fmtstream :=
  let space_needed := Mach.wrap (Mach.wrap (wmargin fs) + suffix_len suffix) in
  let queue := Mach.ptr (point_offs fs) in
  fs1 <- reclaim E fuel queue space_needed fs ;;
  b <- Mem.memmove (buf fs1) (Mach.ptr (queue + space_needed)) queue
         (Mach.wrap (p fs1 - queue)) ;;
  fs2 <- match suffix with
         | Some s =>
             b' <- Mem.memcpy b queue s ;;
             Ret (set_point_offs (set_buf fs1 b')
                    (Mach.wrap (point_offs fs1 + Mem.blen s)))
         | None => Ret (set_buf fs1 b)
         end ;;
  fs3 <- margin_loop (Z.to_nat (lmargin fs2)) fs2 ;;
  Ret (set_point_col fs3 (Mach.sgn (lmargin fs3))).

(** ** [__argp_fmtstream_update] *)

(** Length of the first search of the truncating loop:
    [fs->rmargin - fs->point_col]. *)
Definition search_limit (fs : fmtstream) : Z :=
  Mach.wrap (rmargin fs - point_col fs).

(** Start and length of the second search of the truncating loop, in
    the state whose [point_offs] has been advanced:
    [memchr (fs->buf + fs->point_offs + fs->rmargin - fs->point_col,
             '\n', fs->p - fs->buf - fs->point_offs)]. *)
Definition second_search_start (fs : fmtstream) : Z :=
  Mach.ptr (point_offs fs + rmargin fs - point_col fs).

Definition second_search_len (fs : fmtstream) : Z :=
  Mach.wrap (p fs - point_offs fs).

(** One turn of [while (fs->buf + fs->point_offs < fs->p)] when
    [fs->wmargin == -1].  [queue] is the local of the rewrite pass,
    set on entry; the boolean tells whether the loop goes on
    ([false] for the [return] at the last line). *)
Definition truncate_step (E : env) (fuel : nat) (queue : Z) (fs : fmtstream)
  : res (bool * fmtstream) :=
  found <- Mem.memchr (buf fs) (Mach.ptr (point_offs fs)) NL (search_limit fs) ;;
  match found with
  | Some nl =>
      fs' <- line_at_point E fuel
               (set_point_offs fs (Mach.wrap (nl - queue))) None ;;
      Ret (true, fs')
  | None =>
      (* Truncate until end of line. *)
      let fs1 := set_point_offs fs (Mach.wrap (point_offs fs + search_limit fs)) in
      found2 <- Mem.memchr (buf fs1) (second_search_start fs1) NL
                  (second_search_len fs1) ;;
      b <- Mem.store (buf fs1) (Mach.ptr (point_offs fs1)) NL ;;
      let fs2 := set_point_offs (set_buf fs1 b) (Mach.wrap (point_offs fs1 + 1)) in
      match found2 with
      | None =>
          (* This is the last line. *)
          fs' <- line_at_point E fuel
                   (set_p fs2 (Mach.ptr (point_offs fs2))) None ;;
          Ret (false, fs')
      | Some nl =>
          b' <- Mem.memmove (buf fs2) (Mach.ptr (point_offs fs2))
                  (Mach.ptr (nl + 1)) (Mach.wrap (nl + 1 - point_offs fs2)) ;;
          fs' <- line_at_point E fuel (set_buf fs2 b') None ;;
          Ret (true, fs')
      end
  end.

Fixpoint truncate_loop (E : env) (fuel : nat) (n : nat) (queue : Z)
    (fs : fmtstream) : res fmtstream :=
  if Mach.ptr (point_offs fs) <? p fs then
    match n with
    | O => OutOfFuel
    | S n' =>
        r <- truncate_step E fuel queue fs ;;
        if fst r then truncate_loop E fuel n' queue (snd r) else Ret (snd r)
    end
  else Ret fs.

(** One turn of [for (i = 0; i < proc_len; i++)] on the label
    [lns[i]]. *)
Definition wrap_step (E : env) (fuel : nat) (l : brk) (fs : fmtstream)
  : res fmtstream :=
  match l with
  | UC_BREAK_HYPHENATION => line_at_point E fuel fs (Some [HYPHEN; NL])
  | UC_BREAK_POSSIBLE => line_at_point E fuel fs (Some [NL])
  | UC_BREAK_MANDATORY =>
      line_at_point E fuel
        (set_point_offs fs (Mach.wrap (point_offs fs + 1))) None
  | UC_BREAK_UNDEFINED =>
      Ret (set_point_offs fs (Mach.wrap (point_offs fs + 1)))
  end.

Fixpoint wrap_loop (E : env) (fuel : nat) (lns : list brk) (fs : fmtstream)
  : res fmtstream :=
  match lns with
  | [] => Ret fs
  | l :: lns' => fs' <- wrap_step E fuel l fs ;; wrap_loop E fuel lns' fs'
  end.

(** The scratch array [lns[0 .. proc_len)] after the classifier has
    run: it labels every byte of the span, and a byte it has nothing
    to say about is [UC_BREAK_UNDEFINED]. *)
Definition labels (ls : list brk) (proc_len : Z) : list brk :=
  map (fun i => nth i ls UC_BREAK_UNDEFINED) (seq 0 (Z.to_nat proc_len)).

Definition __argp_fmtstream_update (E : env) (fuel : nat) (fs : fmtstream)
  : res fmtstream :=
  let queue := Mach.ptr (point_offs fs) in
  let proc_len := Mach.wrap (p fs - queue) in
  if queue >=? p fs then Ret fs
  else if wmargin fs =? -1 then truncate_loop E fuel fuel queue fs
  else if negb (malloc_ok E proc_len) then Ret fs
  else if negb (Mem.in_range (buf fs) queue proc_len) then OutOfBounds
  else
    let r := linebreaks E (Mem.slice (buf fs) queue proc_len)
               (Mach.to_int (Mach.wrap (rmargin fs - wmargin fs)))
               (Mach.to_int (if point_col fs =? -1 then 0 else point_col fs)) in
    fs' <- wrap_loop E fuel (labels (fst r) proc_len) fs ;;
    Ret (set_point_col fs' (Mach.to_int (snd r))).

(** ** [__argp_fmtstream_ensure] *)

(** The three ways the call ends: 1, 0 after a short write, 0 with
    [errno] set to [ENOMEM]. *)
Inductive ensure_result : Type :=
| EnsureOk
| EnsureShortWrite
| EnsureNoMem.

Definition ensure_ret (r : ensure_result) : Z :=
  match r with
  | EnsureOk => 1
  | _ => 0
  end.

Definition __argp_fmtstream_ensure (E : env) (fuel : nat) (fs : fmtstream)
    (amount : Z) : res (ensure_result * fmtstream) :=
  if Mach.wrap (cap fs - p fs) <? amount then
    (* Flush FS's buffer. *)
    fs1 <- __argp_fmtstream_update E fuel fs ;;
    wfs <- fwrite_unlocked E fs1 0 (Mach.wrap (p fs1)) ;;
    let wrote := Mach.sgn (fst wfs) in
    let fs2 := snd wfs in
    if wrote =? p fs2 then
      let fs3 := set_point_offs (set_p fs2 0) 0 in
      if Mach.wrap (cap fs3) <? amount then
        (* Gotta grow the buffer. *)
        let old_size := Mach.wrap (cap fs3) in
        let new_size := Mach.wrap (old_size + amount) in
        if new_size <? old_size then Ret (EnsureNoMem, fs3)
        else match realloc_tail E new_size with
             | None => Ret (EnsureNoMem, fs3)
             | Some h =>
                 let n := Z.to_nat new_size in
                 let b := firstn n (buf fs3)
                          ++ map h (seq (length (buf fs3)) (n - length (buf fs3))) in
                 Ret (EnsureOk, set_p (set_buf fs3 b) 0)
             end
      else Ret (EnsureOk, fs3)
    else
      let fs3 := set_point_offs (set_p fs2 (Mach.ptr (p fs2 - wrote)))
                   (Mach.wrap (point_offs fs2 - wrote)) in
      b <- Mem.memmove (buf fs3) 0 (Mach.ptr wrote) (Mach.wrap (p fs3)) ;;
      Ret (EnsureShortWrite, set_buf fs3 b)
  else Ret (EnsureOk, fs).

(** ** [__argp_fmtstream_printf]

    [s] is the text the format and its arguments produce. *)

(** [__vsnprintf (fs->p, avail, fmt, args)]: at most [avail - 1]
    bytes of [s] and a terminating null byte. *)
Definition vsnprintf (fs : fmtstream) (avail : Z) (s : list byte)
  : res fmtstream :=
  if avail =? 0 then Ret fs
  else b <- Mem.memcpy (buf fs) (p fs)
              (firstn (Z.to_nat (avail - 1)) s ++ [NUL]) ;;
       Ret (set_buf fs b).

(** [size_guess = out + 1]: the sum is computed in [int] and converted
    to [size_t] by the assignment. *)
Definition next_guess (out : Z) : Z := Mach.wrap (Mach.to_int (out + 1)).

Fixpoint printf_loop (E : env) (fuel : nat) (n : nat) (size_guess : Z)
    (fs : fmtstream) (s : list byte) : res (Z * fmtstream) :=
  match n with
  | O => OutOfFuel
  | S n' =>
      r <- __argp_fmtstream_ensure E fuel fs size_guess ;;
      match fst r with
      | EnsureOk =>
          let fs1 := snd r in
          let avail := Mach.wrap (cap fs1 - p fs1) in
          let out := Mach.to_int (Mem.blen s) in
          fs2 <- vsnprintf fs1 avail s ;;
          if Mach.wrap out >=? avail
          then printf_loop E fuel n' (next_guess out) fs2 s
          else Ret (out, set_p fs2 (Mach.ptr (p fs2 + out)))
      | _ => Ret (-1, snd r)
      end
  end.

Definition __argp_fmtstream_printf (E : env) (fuel : nat) (fs : fmtstream)
    (s : list byte) : res (Z * fmtstream) :=
  printf_loop E fuel fuel PRINTF_SIZE_GUESS fs s.

(** ** [__argp_fmtstream_free]

    The result is what the sink holds when the stream is gone. *)
Definition __argp_fmtstream_free (E : env) (fuel : nat) (fs : fmtstream)
  : res (list byte) :=
  fs1 <- __argp_fmtstream_update E fuel fs ;;
  if p fs1 >? 0 then
    wfs <- fwrite_unlocked E fs1 0 (Mach.wrap (p fs1)) ;;
    Ret (stream (snd wfs))
  else Ret (stream fs1).

(** ** Notions of the statements *)

(** The pending bytes [buf, p). *)
Definition pending (fs : fmtstream) : list byte :=
  Mem.slice (buf fs) 0 (p fs).

(** The ordering of the cursors: [0 <= point_offs <= p <= end]. *)
Definition cursors_ordered (fs : fmtstream) : Prop :=
  0 <= point_offs fs /\ point_offs fs <= p fs /\ p fs <= cap fs.

(** Ordered cursors in an allocation and with a wrap margin of
    sizes far below the width of [size_t]. *)
Definition sane (fs : fmtstream) : Prop :=
  cursors_ordered fs /\ cap fs < 2 ^ 60 /\ - 2 ^ 60 <= wmargin fs < 2 ^ 60.

(** The padding the splicer writes: [lmargin] blanks, none when
    [point_col] is the sentinel. *)
Definition padding (fs : fmtstream) : Z :=
  if point_col fs =? -1 then 0 else lmargin fs.

(** The size of the allocation and the margins are the same in both
    states. *)
Definition same_frame (fs fs' : fmtstream) : Prop :=
  cap fs' = cap fs /\ lmargin fs' = lmargin fs /\
  rmargin fs' = rmargin fs /\ wmargin fs' = wmargin fs.

(** The offsets a search examines, in order. *)
Definition examined (b : list byte) (start : Z) (c : byte) (n : Z) : list Z :=
  map (fun i => start + Z.of_nat i)
      (seq 0 (Z.to_nat (Mem.memchr_span b start c n))).

(** How far the point is ahead of [p]: [fs->buf + fs->point_offs - fs->p]. *)
Definition point_ahead (fs : fmtstream) : Z :=
  Mach.ptr (point_offs fs) - p fs.

(** The cursors stay in the range in which the arithmetic of the
    splicer does not wrap. *)
Definition in_bounds (fs : fmtstream) : Prop :=
  cap fs < 2 ^ 60 /\ - 2 ^ 60 <= wmargin fs < 2 ^ 60 /\
  - 2 ^ 62 < p fs <= 2 ^ 60 /\ - 2 ^ 60 <= point_ahead fs /\
  0 <= point_offs fs.

(** The rewrite pass called twice in succession with no append in
    between, the first call in the world [E1] and the second in the
    world [E2]. *)
Definition update_twice (E1 E2 : env) (fuel1 fuel2 : nat) (fs : fmtstream)
  : res fmtstream :=
  fs1 <- __argp_fmtstream_update E1 fuel1 fs ;;
  __argp_fmtstream_update E2 fuel2 fs1.

(** The rewrite pass on [fs] in the world [E] does not give up for
    lack of memory: the scratch array, which it allocates in wrap mode
    when bytes are left to process, is granted. *)
Definition scratch_granted (E : env) (fs : fmtstream) : Prop :=
  Mach.ptr (point_offs fs) < p fs -> wmargin fs <> -1 ->
  malloc_ok E (Mach.wrap (p fs - Mach.ptr (point_offs fs))) = true.

(** Create a stream on an empty sink and append [s]. *)
Definition appended (E : env) (fuel : nat) (heap : nat -> byte)
    (lm rm wm : Z) (s : list byte) : res fmtstream :=
  match __argp_make_fmtstream (Some heap) [] lm rm wm with
  | None => OutOfBounds
  | Some fs => r <- __argp_fmtstream_printf E fuel fs s ;; Ret (snd r)
  end.

(** Create a stream on an empty sink, append [s], destroy the stream:
    what the sink has received. *)
Definition session (E : env) (fuel : nat) (heap : nat -> byte)
    (lm rm wm : Z) (s : list byte) : res (list byte) :=
  fs <- appended E fuel heap lm rm wm s ;;
  __argp_fmtstream_free E fuel fs.

(** ** Worlds, allocations and streams of the examples *)

(** A sink that takes every byte. *)
Definition full_sink (data : list byte) : Z := Mem.blen data.

(** A classifier of the examples that labels every line terminator
    mandatory and every blank a possible break, and reports column 0.
    It puts the label of a possible break on the blank itself, as
    [uwl_shim] does ([p[last_option] = UC_BREAK_POSSIBLE]); the
    classifier of libunistring puts it on the byte after the blank
    and returns the column it has reached. *)
Definition blank_breaks (span : list byte) (width start : Z) : list brk * Z :=
  (map (fun c => if Ascii.eqb c NL then UC_BREAK_MANDATORY
                 else if Ascii.eqb c SP then UC_BREAK_POSSIBLE
                 else UC_BREAK_UNDEFINED) span, 0).

Definition plain_env : env :=
  {| linebreaks := blank_breaks;
     malloc_ok := fun _ => true;
     fwrite_ret := full_sink;
     realloc_tail := fun _ => Some (fun _ => NUL) |}.

(** A world whose sink takes two bytes of every write. *)
Definition short_env : env :=
  {| linebreaks := blank_breaks;
     malloc_ok := fun _ => true;
     fwrite_ret := fun _ => 2;
     realloc_tail := fun _ => Some (fun _ => NUL) |}.

(** A world without scratch memory whose sink takes two bytes of
    every write. *)
Definition starved_env : env :=
  {| linebreaks := blank_breaks;
     malloc_ok := fun _ => false;
     fwrite_ret := fun _ => 2;
     realloc_tail := fun _ => Some (fun _ => NUL) |}.

(** A fresh allocation filled with null bytes. *)
Definition zero_heap : nat -> byte := fun _ => NUL.

(** A fresh allocation that holds line terminators left by an earlier
    owner at offsets 10, 12 and 14, and ['x'] elsewhere. *)
Definition stale_heap : nat -> byte :=
  fun i => if (Nat.eqb i 10 || Nat.eqb i 12 || Nat.eqb i 14)%bool
           then NL else "x"%char.

(** The stream of the truncating session before it is destroyed, on
    an allocation of null bytes. *)
Definition truncate_demo : res fmtstream :=
  appended plain_env 20 zero_heap 0 5 (-1) (bytes_of "abcdefgh" ++ [NL]).

(** A stream of eight bytes that holds two processed lines. *)
Definition two_lines : fmtstream :=
  {| stream := []; lmargin := 0; rmargin := 10; wmargin := 0;
     point_offs := 6; point_col := 0;
     buf := bytes_of "ab" ++ [NL] ++ bytes_of "cd" ++ [NL; NUL; NUL];
     p := 6 |}.

(** A stream of eight bytes whose column is the sentinel. *)
Definition sentinel_state : fmtstream :=
  {| stream := []; lmargin := 2; rmargin := 10; wmargin := 2;
     point_offs := 2; point_col := -1;
     buf := bytes_of "abcd" ++ repeat NUL 4;
     p := 4 |}.

(** The same stream with a valid column. *)
Definition roomy_state : fmtstream := set_point_col sentinel_state 0.

(** A truncating stream of eight bytes with no left margin. *)
Definition truncating_state : fmtstream :=
  {| stream := []; lmargin := 0; rmargin := 10; wmargin := -1;
     point_offs := 2; point_col := 0;
     buf := bytes_of "abcd" ++ repeat NUL 4;
     p := 4 |}.

(** A full buffer of eight bytes with two terminators before the
    point. *)
Definition crowded_state : fmtstream :=
  {| stream := []; lmargin := 0; rmargin := 10; wmargin := 0;
     point_offs := 4; point_col := 0;
     buf := bytes_of "a" ++ [NL] ++ bytes_of "b" ++ [NL] ++ bytes_of "cdef";
     p := 8 |}.

(** A full buffer of eight bytes with one terminator before the
    point. *)
Definition lone_terminator_state : fmtstream :=
  {| stream := []; lmargin := 0; rmargin := 10; wmargin := 2;
     point_offs := 4; point_col := 0;
     buf := bytes_of "a" ++ [NL] ++ bytes_of "bcdefg";
     p := 8 |}.

(** A full buffer of eight bytes that holds no terminator. *)
Definition unbroken_state : fmtstream :=
  {| stream := []; lmargin := 0; rmargin := 10; wmargin := 0;
     point_offs := 4; point_col := 0;
     buf := bytes_of "abcdefgh";
     p := 8 |}.

(** ** Notions of the further properties *)

(** The call of the classifier by the rewrite pass on [fs]: the span
    [queue, p), the width [rmargin - wmargin] and the starting
    column. *)
Definition classifier_call (E : env) (fs : fmtstream) : list brk * Z :=
  linebreaks E
    (Mem.slice (buf fs) (Mach.ptr (point_offs fs))
       (Mach.wrap (p fs - Mach.ptr (point_offs fs))))
    (Mach.to_int (Mach.wrap (rmargin fs - wmargin fs)))
    (Mach.to_int (if point_col fs =? -1 then 0 else point_col fs)).

(** The label of the [i]-th byte of the span. *)
Definition label_at (ls : list brk) (i : nat) : brk :=
  nth i ls UC_BREAK_UNDEFINED.

(** The state a rewrite pass leaves when it only moves the point to
    [p] and stores the column [col]. *)
Definition passed (fs : fmtstream) (col : Z) : fmtstream :=
  set_point_col (set_point_offs fs (p fs)) col.

(** The buffer, [p], the sink and the margins are the same in both
    states. *)
Definition same_text (fs fs' : fmtstream) : Prop :=
  buf fs' = buf fs /\ p fs' = p fs /\ stream fs' = stream fs /\
  lmargin fs' = lmargin fs /\ rmargin fs' = rmargin fs /\
  wmargin fs' = wmargin fs.

(** The sink of [E] takes every byte it is offered. *)
Definition sink_takes_all (E : env) : Prop :=
  forall data, Mem.blen data <= fwrite_ret E data.

(** The pending bytes of a truncating stream without left margin end
    with a line whose terminator, at offset [k], is the first one from
    the point on and lies within the right margin. *)
Definition line_within_margin (k : Z) (fs : fmtstream) : Prop :=
  wmargin fs = -1 /\ lmargin fs = 0 /\
  0 <= point_offs fs <= k /\ 1 <= k /\
  0 <= point_col fs /\
  k - point_offs fs < rmargin fs - point_col fs /\ rmargin fs < 2 ^ 64 /\
  p fs = k + 1 /\ p fs <= cap fs /\ cap fs < 2 ^ 62 /\
  Mem.get (buf fs) k = NL /\
  forall j, point_offs fs <= j < k -> Mem.get (buf fs) j <> NL.

(** A classifier that finds no break and counts one column a byte. *)
Definition no_breaks (span : list byte) (width start : Z) : list brk * Z :=
  (map (fun _ => UC_BREAK_UNDEFINED) span, start + Mem.blen span).

(** A classifier that labels the line terminators mandatory and
    nothing else. *)
Definition newline_breaks (span : list byte) (width start : Z)
  : list brk * Z :=
  (map (fun c => if Ascii.eqb c NL then UC_BREAK_MANDATORY
                 else UC_BREAK_UNDEFINED) span, 0).

Definition no_break_env : env :=
  {| linebreaks := no_breaks;
     malloc_ok := fun _ => true;
     fwrite_ret := full_sink;
     realloc_tail := fun _ => Some (fun _ => NUL) |}.

Definition newline_env : env :=
  {| linebreaks := newline_breaks;
     malloc_ok := fun _ => true;
     fwrite_ret := full_sink;
     realloc_tail := fun _ => Some (fun _ => NUL) |}.

(** A world in which the buffer cannot grow. *)
Definition no_memory_env : env :=
  {| linebreaks := blank_breaks;
     malloc_ok := fun _ => true;
     fwrite_ret := full_sink;
     realloc_tail := fun _ => None |}.

(** A stream of sixteen bytes with six pending, none processed, and
    margins of three columns. *)
Definition unprocessed_state : fmtstream :=
  {| stream := []; lmargin := 3; rmargin := 10; wmargin := 3;
     point_offs := 0; point_col := 0;
     buf := bytes_of "ab" ++ [NL] ++ bytes_of "cd" ++ [NL] ++ repeat NUL 10;
     p := 6 |}.

(** The same stream without margins. *)
Definition marginless_state : fmtstream :=
  {| stream := []; lmargin := 0; rmargin := 10; wmargin := 0;
     point_offs := 0; point_col := 0;
     buf := bytes_of "ab" ++ [NL] ++ bytes_of "cd" ++ [NL] ++ repeat NUL 10;
     p := 6 |}.

(** A truncating stream of sixteen bytes with a pending line of eight
    bytes, a right margin of five columns and a left margin of two. *)
Definition overlong_state : fmtstream :=
  {| stream := []; lmargin := 2; rmargin := 5; wmargin := -1;
     point_offs := 0; point_col := 0;
     buf := bytes_of "abcdefgh" ++ repeat NUL 8;
     p := 8 |}.

(** A text of 250 bytes. *)
Definition long_text : list byte := repeat "z"%char 250.

(** * Properties *)

Ltac Zify.zify_post_hook ::= Z.to_euclidean_division_equations.

(** ** Machine arithmetic *)

Section MachFacts.

Lemma wrap_small (x : Z) : 0 <= x < 2 ^ 64 -> Mach.wrap x = x.
Proof. unfold Mach.wrap, Mach.size_mod. intros H. apply Z.mod_small. lia. Qed.

Lemma wrap_range (x : Z) : 0 <= Mach.wrap x < 2 ^ 64.
Proof. unfold Mach.wrap, Mach.size_mod. lia. Qed.

Lemma ptr_small (x : Z) : - 2 ^ 63 <= x < 2 ^ 63 -> Mach.ptr x = x.
Proof.
  unfold Mach.ptr, Mach.sgn, Mach.size_mod, Mach.half_mod. intros H. lia.
Qed.

Lemma ptr_range (x : Z) : - 2 ^ 63 <= Mach.ptr x < 2 ^ 63.
Proof. unfold Mach.ptr, Mach.sgn, Mach.size_mod, Mach.half_mod. lia. Qed.

Lemma ptr_wrap (x : Z) : Mach.ptr (Mach.wrap x) = Mach.ptr x.
Proof.
  unfold Mach.ptr, Mach.sgn, Mach.wrap, Mach.size_mod, Mach.half_mod. lia.
Qed.

Lemma ptr_wrap_sum (x y : Z) :
  Mach.ptr (x + Mach.wrap y) = Mach.ptr (x + y).
Proof.
  unfold Mach.ptr, Mach.sgn, Mach.wrap, Mach.size_mod, Mach.half_mod. lia.
Qed.

Lemma wrap_wrap_sum (x y : Z) :
  Mach.wrap (Mach.wrap x + y) = Mach.wrap (x + y).
Proof. unfold Mach.wrap, Mach.size_mod. lia. Qed.

Lemma wrap_ptr_diff (x y : Z) :
  Mach.wrap (x - Mach.ptr y) = Mach.wrap (x - y).
Proof.
  unfold Mach.ptr, Mach.sgn, Mach.wrap, Mach.size_mod, Mach.half_mod. lia.
Qed.

End MachFacts.

(** ** The buffer primitives *)

Section MemFacts.

Lemma blen_nonneg (b : list byte) : 0 <= Mem.blen b.
Proof. unfold Mem.blen. lia. Qed.

Lemma in_range_true (b : list byte) (i n : Z) :
  Mem.in_range b i n = true <-> 0 <= i /\ i + n <= Mem.blen b.
Proof. unfold Mem.in_range. rewrite andb_true_iff. lia. Qed.

Lemma splice_length (b s : list byte) (i : Z) :
  0 <= i -> i + Mem.blen s <= Mem.blen b ->
  length (Mem.splice b i s) = length b.
Proof.
  unfold Mem.splice, Mem.blen. intros Hi Hs.
  rewrite !length_app, length_firstn, length_skipn. lia.
Qed.

Lemma splice_blen (b s : list byte) (i : Z) :
  0 <= i -> i + Mem.blen s <= Mem.blen b ->
  Mem.blen (Mem.splice b i s) = Mem.blen b.
Proof.
  intros Hi Hs. unfold Mem.blen. now rewrite splice_length.
Qed.

Lemma slice_length (b : list byte) (i n : Z) :
  0 <= i -> 0 <= n -> i + n <= Mem.blen b ->
  Mem.blen (Mem.slice b i n) = n.
Proof.
  unfold Mem.slice, Mem.blen. intros Hi Hn Hb.
  rewrite length_firstn, length_skipn. lia.
Qed.

(** A spliced buffer read byte by byte. *)
Lemma get_splice (b s : list byte) (i j : Z) :
  0 <= i -> i + Mem.blen s <= Mem.blen b -> 0 <= j ->
  Mem.get (Mem.splice b i s) j =
  if (i <=? j) && (j <? i + Mem.blen s) then Mem.get s (j - i)
  else Mem.get b j.
Proof.
  unfold Mem.get, Mem.splice, Mem.blen. intros Hi Hs Hj.
  destruct (i <=? j) eqn:Hij; simpl.
  - destruct (j <? i + Z.of_nat (length s)) eqn:Hjs.
    + rewrite app_nth2 by (rewrite length_firstn; lia).
      rewrite length_firstn.
      rewrite app_nth1 by lia.
      f_equal. lia.
    + rewrite app_nth2 by (rewrite length_firstn; lia).
      rewrite length_firstn.
      rewrite app_nth2 by lia.
      rewrite nth_skipn. f_equal. lia.
  - rewrite app_nth1 by (rewrite length_firstn; lia).
    rewrite nth_firstn.
    destruct (Nat.ltb_spec (Z.to_nat j) (Z.to_nat i)); [reflexivity | lia].
Qed.

Lemma get_slice (b : list byte) (i n j : Z) :
  0 <= i -> 0 <= j < n ->
  Mem.get (Mem.slice b i n) j = Mem.get b (i + j).
Proof.
  unfold Mem.get, Mem.slice. intros Hi Hj.
  rewrite nth_firstn.
  destruct (Nat.ltb_spec (Z.to_nat j) (Z.to_nat n)); [| lia].
  rewrite nth_skipn. f_equal. lia.
Qed.

Lemma store_inv (b b' : list byte) (i : Z) (c : byte) :
  Mem.store b i c = Ret b' ->
  0 <= i < Mem.blen b /\ b' = Mem.splice b i [c] /\ Mem.blen b' = Mem.blen b.
Proof.
  unfold Mem.store. destruct (Mem.in_range b i 1) eqn:Hr; [| discriminate].
  apply in_range_true in Hr. intros [= <-].
  repeat split; try lia. apply splice_blen; unfold Mem.blen in *; simpl; lia.
Qed.

Lemma memcpy_blen (b b' s : list byte) (i : Z) :
  Mem.memcpy b i s = Ret b' -> Mem.blen b' = Mem.blen b.
Proof.
  unfold Mem.memcpy. destruct s as [| c s]; [now intros [= <-] |].
  destruct (Mem.in_range b i (Mem.blen (c :: s))) eqn:Hr; [| discriminate].
  apply in_range_true in Hr. intros [= <-]. apply splice_blen; lia.
Qed.

Lemma memmove_blen (b b' : list byte) (dst src n : Z) :
  0 <= n -> Mem.memmove b dst src n = Ret b' -> Mem.blen b' = Mem.blen b.
Proof.
  unfold Mem.memmove. intros Hn.
  destruct (n =? 0); [now intros [= <-] |].
  destruct (Mem.in_range b src n && Mem.in_range b dst n) eqn:Hr;
    [| discriminate].
  apply andb_true_iff in Hr. destruct Hr as [Hs Hd].
  apply in_range_true in Hs. apply in_range_true in Hd.
  intros [= <-]. apply splice_blen; [lia |].
  rewrite slice_length; lia.
Qed.

(** [index_of] finds the first occurrence. *)
Lemma index_of_some (c : byte) (l : list byte) (k : nat) :
  Mem.index_of c l = Some k ->
  (k < length l)%nat /\ nth k l NUL = c /\
  forall j, (j < k)%nat -> nth j l NUL <> c.
Proof.
  revert k. induction l as [| x l IH]; simpl; intros k; [discriminate |].
  destruct (Ascii.eqb x c) eqn:Hx.
  - intros [= <-]. apply Ascii.eqb_eq in Hx. repeat split; [lia | assumption |].
    intros j Hj. lia.
  - destruct (Mem.index_of c l) as [k' |]; [| discriminate].
    intros [= <-]. destruct (IH k' eq_refl) as (Hk & Hn & Hf).
    repeat split; [lia | assumption |].
    intros [| j] Hj.
    + apply Ascii.eqb_neq in Hx. assumption.
    + apply Hf. lia.
Qed.

Lemma index_of_none (c : byte) (l : list byte) :
  Mem.index_of c l = None ->
  forall j, (j < length l)%nat -> nth j l NUL <> c.
Proof.
  induction l as [| x l IH]; simpl; intros H j Hj; [lia |].
  destruct (Ascii.eqb x c) eqn:Hx; [discriminate |].
  destruct (Mem.index_of c l); [discriminate |].
  destruct j as [| j].
  - now apply Ascii.eqb_neq in Hx.
  - apply IH; [reflexivity | lia].
Qed.

Lemma index_of_first (c : byte) (l : list byte) (k : nat) :
  (k < length l)%nat -> nth k l NUL = c ->
  (forall j, (j < k)%nat -> nth j l NUL <> c) ->
  Mem.index_of c l = Some k.
Proof.
  intros Hk Hn Hf.
  destruct (Mem.index_of c l) as [k' |] eqn:Hi.
  - destruct (index_of_some _ _ _ Hi) as (Hk' & Hn' & Hf').
    destruct (Nat.lt_trichotomy k k') as [Hlt | [-> | Hgt]];
      [| reflexivity |].
    + exfalso. exact (Hf' k Hlt Hn).
    + exfalso. exact (Hf k' Hgt Hn').
  - exfalso. exact (index_of_none _ _ Hi k Hk Hn).
Qed.

(** A successful search returns the first match inside its span. *)
Lemma memchr_found (b : list byte) (start n k : Z) (c : byte) :
  0 <= n ->
  Mem.memchr b start c n = Ret (Some k) ->
  start <= k < start + n /\ 0 <= start /\ k < Mem.blen b /\
  Mem.get b k = c /\
  forall j, start <= j < k -> Mem.get b j <> c.
Proof.
  unfold Mem.memchr. intros Hn.
  destruct (n =? 0) eqn:Hn0; [discriminate |].
  destruct ((start <? 0) || (Mem.blen b <=? start)) eqn:Hs; [discriminate |].
  apply orb_false_iff in Hs. destruct Hs as [Hs1 Hs2].
  destruct (Mem.index_of c (Mem.window b start n)) as [i |] eqn:Hi.
  - intros [= <-]. destruct (index_of_some _ _ _ Hi) as (Hk & Hg & Hf).
    unfold Mem.window in *.
    assert (Hlen : Z.of_nat (length (Mem.slice b start (Z.min n (Mem.blen b - start))))
                   = Z.min n (Mem.blen b - start)).
    { apply slice_length; lia. }
    repeat split; try lia.
    + rewrite <- Hg. rewrite <- (Nat2Z.id i) at 2.
      change (Mem.get b (start + Z.of_nat i) =
              Mem.get (Mem.slice b start (Z.min n (Mem.blen b - start))) (Z.of_nat i)).
      rewrite get_slice; [reflexivity | lia | lia].
    + intros j Hj Hc. apply (Hf (Z.to_nat (j - start))); [lia |].
      rewrite <- Hc.
      change (Mem.get (Mem.slice b start (Z.min n (Mem.blen b - start))) (j - start)
              = Mem.get b j).
      rewrite get_slice; [f_equal; lia | lia | lia].
  - destruct (start + n <=? Mem.blen b); discriminate.
Qed.

(** A search that looks at a first match at [k] returns it. *)
Lemma memchr_first (b : list byte) (start n k : Z) (c : byte) :
  0 <= start -> start <= k < start + n -> k < Mem.blen b ->
  Mem.get b k = c ->
  (forall j, start <= j < k -> Mem.get b j <> c) ->
  Mem.memchr b start c n = Ret (Some k).
Proof.
  intros Hs Hk Hb Hg Hf. unfold Mem.memchr.
  destruct (n =? 0) eqn:Hn0; [lia |].
  destruct ((start <? 0) || (Mem.blen b <=? start)) eqn:Hs'.
  { apply orb_true_iff in Hs'. lia. }
  unfold Mem.window.
  assert (Hlen : Z.of_nat (length (Mem.slice b start (Z.min n (Mem.blen b - start))))
                 = Z.min n (Mem.blen b - start)).
  { apply slice_length; lia. }
  rewrite (index_of_first c _ (Z.to_nat (k - start))).
  - do 2 f_equal. lia.
  - lia.
  - rewrite <- Hg.
    change (Mem.get (Mem.slice b start (Z.min n (Mem.blen b - start))) (k - start)
            = Mem.get b k).
    rewrite get_slice; [f_equal; lia | lia | lia].
  - intros j Hj Hc. apply (Hf (start + Z.of_nat j)); [lia |].
    rewrite <- Hc.
    rewrite <- (Nat2Z.id j) at 2.
    change (Mem.get b (start + Z.of_nat j) =
            Mem.get (Mem.slice b start (Z.min n (Mem.blen b - start))) (Z.of_nat j)).
    rewrite get_slice; [reflexivity | lia | lia].
Qed.

(** A search over a span without a match, inside the allocation,
    returns null. *)
Lemma memchr_absent (b : list byte) (start n : Z) (c : byte) :
  0 <= start -> 0 <= n -> start + n <= Mem.blen b ->
  (forall j, start <= j < start + n -> Mem.get b j <> c) ->
  Mem.memchr b start c n = Ret None.
Proof.
  intros Hs Hn Hb Hf. unfold Mem.memchr.
  destruct (n =? 0) eqn:Hn0; [reflexivity |].
  destruct ((start <? 0) || (Mem.blen b <=? start)) eqn:Hs'.
  { apply orb_true_iff in Hs'. lia. }
  unfold Mem.window.
  assert (Hlen : Z.of_nat (length (Mem.slice b start (Z.min n (Mem.blen b - start))))
                 = Z.min n (Mem.blen b - start)).
  { apply slice_length; lia. }
  destruct (Mem.index_of c _) as [i |] eqn:Hi.
  - exfalso. destruct (index_of_some _ _ _ Hi) as (Hk & Hg & _).
    apply (Hf (start + Z.of_nat i)); [lia |].
    rewrite <- Hg. rewrite <- (Nat2Z.id i) at 2.
    change (Mem.get b (start + Z.of_nat i) =
            Mem.get (Mem.slice b start (Z.min n (Mem.blen b - start))) (Z.of_nat i)).
    rewrite get_slice; [reflexivity | lia | lia].
  - destruct (start + n <=? Mem.blen b) eqn:Hle; [reflexivity | lia].
Qed.

(** [memchr_span] counts the bytes [memchr] examines. *)
Lemma memchr_span_found (b : list byte) (start n k : Z) (c : byte) :
  Mem.memchr b start c n = Ret (Some k) ->
  Mem.memchr_span b start c n = k - start + 1.
Proof.
  unfold Mem.memchr, Mem.memchr_span.
  destruct (n =? 0); [discriminate |].
  destruct ((start <? 0) || (Mem.blen b <=? start)); [discriminate |].
  destruct (Mem.index_of c (Mem.window b start n)) as [i |].
  - intros [= <-]. lia.
  - destruct (start + n <=? Mem.blen b); discriminate.
Qed.

Lemma memchr_span_absent (b : list byte) (start n : Z) (c : byte) :
  Mem.memchr b start c n = Ret None ->
  Mem.memchr_span b start c n = n.
Proof.
  unfold Mem.memchr, Mem.memchr_span.
  destruct (n =? 0) eqn:Hn; [intros _; lia |].
  destruct ((start <? 0) || (Mem.blen b <=? start)); [discriminate |].
  destruct (Mem.index_of c (Mem.window b start n)) as [i |];
    [discriminate | reflexivity].
Qed.

(** A search examines every byte up to its first match. *)
Lemma examined_In (b : list byte) (start n j : Z) (c : byte) :
  0 <= start <= j -> j < start + n ->
  (forall i, start <= i < j -> Mem.get b i <> c) ->
  In j (examined b start c n).
Proof.
  intros Hs Hj Hno. unfold examined.
  apply in_map_iff. exists (Z.to_nat (j - start)). split; [lia |].
  apply in_seq.
  assert (Hspan : j - start < Mem.memchr_span b start c n).
  { unfold Mem.memchr_span.
    destruct (n =? 0) eqn:Hn0; [lia |].
    destruct ((start <? 0) || (Mem.blen b <=? start)) eqn:Hout; [lia |].
    apply orb_false_iff in Hout.
    destruct (Mem.index_of c (Mem.window b start n)) as [k |] eqn:Hi; [| lia].
    destruct (Z_lt_le_dec (Z.of_nat k) (j - start)) as [Hlt | Hge]; [| lia].
    exfalso. destruct (index_of_some _ _ _ Hi) as (Hk & Hg & _).
    apply (Hno (start + Z.of_nat k)); [lia |].
    rewrite <- Hg. rewrite <- (Nat2Z.id k) at 2. unfold Mem.window.
    change (Mem.get b (start + Z.of_nat k) =
            Mem.get (Mem.slice b start (Z.min n (Mem.blen b - start)))
              (Z.of_nat k)).
    assert (Hlen : Z.of_nat (length (Mem.window b start n))
                   = Z.min n (Mem.blen b - start)).
    { apply slice_length; lia. }
    rewrite get_slice; [reflexivity | lia | lia]. }
  lia.
Qed.

End MemFacts.

(** ** Runs that return *)

Lemma bind_ret_inv {A B : Type} (m : res A) (k : A -> res B) (y : B) :
  bind m k = Ret y -> exists a, m = Ret a /\ k a = Ret y.
Proof. destruct m; simpl; intros H; [eauto | discriminate | discriminate]. Qed.

Ltac bind_inv H :=
  let a := fresh "a" in
  let Ha := fresh "Ha" in
  apply bind_ret_inv in H; destruct H as (a & Ha & H).

(** ** What no operation of the rewrite pass changes: the size of the
    allocation and the margins *)

Ltac frame_solve :=
  unfold same_frame, cap in *; simpl in *; intuition congruence.

Lemma same_frame_refl (fs : fmtstream) : same_frame fs fs.
Proof. unfold same_frame. auto. Qed.

Lemma same_frame_trans (a b c : fmtstream) :
  same_frame a b -> same_frame b c -> same_frame a c.
Proof. unfold same_frame. intuition congruence. Qed.

Section Frame.

Variable E : env.

Lemma fwrite_frame (fs fs' : fmtstream) (start n w : Z) :
  fwrite_unlocked E fs start n = Ret (w, fs') ->
  buf fs' = buf fs /\ p fs' = p fs /\ point_offs fs' = point_offs fs /\
  point_col fs' = point_col fs /\ same_frame fs fs'.
Proof.
  unfold fwrite_unlocked, same_frame, cap.
  destruct (n =? 0); [intros [= <- <-]; auto 10 |].
  destruct (Mem.in_range (buf fs) start n); [| discriminate].
  intros [= <- <-]. simpl. auto 10.
Qed.

Lemma reclaim_step_frame (queue : Z) (fs fs' : fmtstream) :
  reclaim_step E queue fs = Ret fs' ->
  same_frame fs fs' /\ point_col fs' = point_col fs.
Proof.
  unfold reclaim_step. intros H.
  bind_inv H. bind_inv H. destruct a0 as [nl b1]. simpl in H.
  bind_inv H. destruct a0 as [w fs1]. simpl in H.
  bind_inv H. injection H as <-.
  assert (Hb1 : Mem.blen b1 = Mem.blen (buf fs)).
  { destruct a as [k |].
    - now injection Ha0 as <- <-.
    - bind_inv Ha0. injection Ha0 as <- <-.
      now apply store_inv in Ha3. }
  assert (Hfs1 : buf fs1 = b1 /\ lmargin fs1 = lmargin fs /\
                 rmargin fs1 = rmargin fs /\ wmargin fs1 = wmargin fs /\
                 point_col fs1 = point_col fs).
  { destruct (nl >? 0).
    - apply fwrite_frame in Ha1. unfold same_frame in Ha1. simpl in Ha1.
      intuition congruence.
    - injection Ha1 as <- <-. simpl. auto. }
  apply memmove_blen in Ha2; [| apply wrap_range].
  unfold same_frame, cap. simpl in *. intuition congruence.
Qed.

Lemma reclaim_frame (fuel : nat) (queue sn : Z) (fs fs' : fmtstream) :
  reclaim E fuel queue sn fs = Ret fs' ->
  same_frame fs fs' /\ point_col fs' = point_col fs.
Proof.
  revert fs. induction fuel as [| fuel IH]; simpl; intros fs H.
  - destruct (Mach.ptr (p fs + sn) >? cap fs); [discriminate |].
    injection H as <-. split; [apply same_frame_refl | reflexivity].
  - destruct (Mach.ptr (p fs + sn) >? cap fs).
    + bind_inv H. apply reclaim_step_frame in Ha. apply IH in H.
      destruct Ha, H. split; [eapply same_frame_trans; eauto | congruence].
    + injection H as <-. split; [apply same_frame_refl | reflexivity].
Qed.

Lemma margin_loop_frame (n : nat) (fs fs' : fmtstream) :
  margin_loop n fs = Ret fs' ->
  same_frame fs fs' /\ p fs' = p fs /\ stream fs' = stream fs.
Proof.
  revert fs. induction n as [| n IH]; simpl; intros fs H.
  - injection H as <-. auto using same_frame_refl.
  - destruct (point_col fs =? -1).
    + injection H as <-. auto using same_frame_refl.
    + bind_inv H. apply store_inv in Ha. apply IH in H.
      unfold same_frame, cap in *. simpl in *. intuition congruence.
Qed.

Lemma line_at_point_frame (fuel : nat) (fs fs' : fmtstream)
    (suffix : option (list byte)) :
  line_at_point E fuel fs suffix = Ret fs' -> same_frame fs fs'.
Proof.
  unfold line_at_point. intros H.
  bind_inv H. bind_inv H. bind_inv H. bind_inv H. injection H as <-.
  apply reclaim_frame in Ha. destruct Ha as [Ha _].
  apply memmove_blen in Ha0; [| apply wrap_range].
  apply margin_loop_frame in Ha2. destruct Ha2 as [Ha2 _].
  assert (H1 : same_frame a a1).
  { destruct suffix as [s |].
    - bind_inv Ha1. injection Ha1 as <-. apply memcpy_blen in Ha3.
      unfold same_frame, cap. simpl. intuition congruence.
    - injection Ha1 as <-. unfold same_frame, cap. simpl. auto. }
  eapply same_frame_trans; [exact Ha |].
  eapply same_frame_trans; [exact H1 |].
  unfold same_frame, cap in *. simpl. exact Ha2.
Qed.

(** With room after [p] the splicer returns with [p] where it was. *)
Lemma line_at_point_keeps_p (fuel : nat) (fs fs' : fmtstream)
    (suffix : option (list byte)) :
  Mach.ptr (p fs + Mach.wrap (Mach.wrap (wmargin fs) + suffix_len suffix))
    <= cap fs ->
  line_at_point E fuel fs suffix = Ret fs' -> p fs' = p fs.
Proof.
  unfold line_at_point. intros Hroom H.
  assert (Hrec : forall q,
            reclaim E fuel q
              (Mach.wrap (Mach.wrap (wmargin fs) + suffix_len suffix)) fs
            = Ret fs).
  { intros q. destruct fuel; simpl;
      destruct (Mach.ptr (p fs + _) >? cap fs) eqn:Hc; (lia || reflexivity). }
  rewrite Hrec in H. simpl in H.
  bind_inv H. bind_inv H. bind_inv H. injection H as <-. simpl.
  apply margin_loop_frame in Ha1. destruct Ha1 as (_ & -> & _).
  destruct suffix as [s |].
  - bind_inv Ha0. injection Ha0 as <-. reflexivity.
  - injection Ha0 as <-. reflexivity.
Qed.

Lemma truncate_step_frame (fuel : nat) (queue : Z) (fs fs' : fmtstream)
    (go : bool) :
  truncate_step E fuel queue fs = Ret (go, fs') -> same_frame fs fs'.
Proof.
  unfold truncate_step. intros H. bind_inv H.
  destruct a as [nl |].
  - bind_inv H. injection H as _ <-.
    apply line_at_point_frame in Ha0. exact Ha0.
  - bind_inv H. bind_inv H. apply store_inv in Ha1.
    destruct Ha1 as (_ & _ & Hb).
    destruct a as [nl |].
    + bind_inv H. bind_inv H. injection H as _ <-.
      apply memmove_blen in Ha1; [| apply wrap_range].
      apply line_at_point_frame in Ha2.
      unfold same_frame, cap in *. simpl in *. intuition congruence.
    + bind_inv H. injection H as _ <-.
      apply line_at_point_frame in Ha1.
      unfold same_frame, cap in *. simpl in *. intuition congruence.
Qed.

Lemma truncate_loop_frame (fuel n : nat) (queue : Z) (fs fs' : fmtstream) :
  truncate_loop E fuel n queue fs = Ret fs' -> same_frame fs fs'.
Proof.
  revert fs. induction n as [| n IH]; simpl; intros fs H.
  - destruct (Mach.ptr (point_offs fs) <? p fs); [discriminate |].
    injection H as <-. apply same_frame_refl.
  - destruct (Mach.ptr (point_offs fs) <? p fs).
    + bind_inv H. destruct a as [go fs1]. simpl in H.
      apply truncate_step_frame in Ha.
      destruct go.
      * apply IH in H. eapply same_frame_trans; eauto.
      * injection H as <-. exact Ha.
    + injection H as <-. apply same_frame_refl.
Qed.

Lemma wrap_step_frame (fuel : nat) (l : brk) (fs fs' : fmtstream) :
  wrap_step E fuel l fs = Ret fs' -> same_frame fs fs'.
Proof.
  destruct l; simpl; intros H.
  - injection H as <-. unfold same_frame, cap. simpl. auto.
  - apply line_at_point_frame in H. exact H.
  - apply line_at_point_frame in H. exact H.
  - apply line_at_point_frame in H. exact H.
Qed.

Lemma wrap_loop_frame (fuel : nat) (lns : list brk) (fs fs' : fmtstream) :
  wrap_loop E fuel lns fs = Ret fs' -> same_frame fs fs'.
Proof.
  revert fs. induction lns as [| l lns IH]; simpl; intros fs H.
  - injection H as <-. apply same_frame_refl.
  - bind_inv H. apply wrap_step_frame in Ha. apply IH in H.
    eapply same_frame_trans; eauto.
Qed.

Lemma update_frame (fuel : nat) (fs fs' : fmtstream) :
  __argp_fmtstream_update E fuel fs = Ret fs' -> same_frame fs fs'.
Proof.
  unfold __argp_fmtstream_update. intros H.
  destruct (Mach.ptr (point_offs fs) >=? p fs).
  { injection H as <-. apply same_frame_refl. }
  destruct (wmargin fs =? -1).
  { eapply truncate_loop_frame; eauto. }
  destruct (negb (malloc_ok E _)).
  { injection H as <-. apply same_frame_refl. }
  destruct (negb (Mem.in_range _ _ _)); [discriminate |].
  bind_inv H. injection H as <-. apply wrap_loop_frame in Ha.
  unfold same_frame, cap in *. simpl. exact Ha.
Qed.

End Frame.

(** ** Creation *)

Lemma make_fmtstream_fresh (h : nat -> byte) (lm rm wm : Z) :
  __argp_make_fmtstream (Some h) [] lm rm wm = Some (fresh_stream h lm rm wm).
Proof. reflexivity. Qed.

Lemma fresh_stream_ordered (h : nat -> byte) (lm rm wm : Z) :
  cursors_ordered (fresh_stream h lm rm wm).
Proof. unfold cursors_ordered, cap, Mem.blen. simpl. lia. Qed.

(** ** The capacity manager *)

Section Ensure.

Variable E : env.

Lemma slice_prefix (b : list byte) (w n : Z) :
  0 <= w <= n -> firstn (Z.to_nat w) (Mem.slice b 0 n) = Mem.slice b 0 w.
Proof.
  intros H. unfold Mem.slice. rewrite firstn_firstn. f_equal. lia.
Qed.

Lemma accepted_range (data : list byte) :
  0 <= accepted E data <= Mem.blen data.
Proof. unfold accepted, Mem.blen. lia. Qed.

(** What a call of [__argp_fmtstream_ensure] that returns has done to
    the free space and to the size of the buffer. *)
Lemma ensure_outcome (fuel : nat) (fs fs' : fmtstream) (amount : Z)
    (r : ensure_result) :
  0 <= amount < 2 ^ 64 ->
  0 <= p fs <= cap fs ->
  cap fs < 2 ^ 64 ->
  __argp_fmtstream_ensure E fuel fs amount = Ret (r, fs') ->
  (r = EnsureOk -> amount <= cap fs' - p fs') /\
  (amount <= cap fs -> cap fs' = cap fs).
Proof.
  intros Ham Hp Hcap. unfold __argp_fmtstream_ensure.
  destruct (Mach.wrap (cap fs - p fs) <? amount) eqn:Hflush.
  2: { intros [= <- <-]. rewrite wrap_small in Hflush by lia.
       split; intros; lia. }
  intros H. bind_inv H. rename a into fs1. bind_inv H.
  destruct a as [w fs2]. simpl in H.
  apply update_frame in Ha. apply fwrite_frame in Ha0.
  assert (Hc2 : cap fs2 = cap fs) by frame_solve.
  destruct (Mach.sgn w =? p fs2).
  - assert (Hc3 : cap (set_point_offs (set_p fs2 0) 0) = cap fs) by exact Hc2.
    rewrite (wrap_small (cap _)) in H by (rewrite Hc3; lia).
    rewrite Hc3 in H.
    destruct (cap fs <? amount) eqn:Hgrow.
    + assert (Hov : (Mach.wrap (cap fs + amount) <? cap fs) =
                    (2 ^ 64 <=? cap fs + amount)).
      { unfold Mach.wrap, Mach.size_mod.
        destruct (2 ^ 64 <=? cap fs + amount) eqn:Ho; lia. }
      rewrite Hov in H.
      destruct (2 ^ 64 <=? cap fs + amount) eqn:Ho.
      * injection H as <- <-. split; [discriminate | intros; lia].
      * rewrite (wrap_small (cap fs + amount)) in H by lia.
        destruct (realloc_tail E (cap fs + amount)) as [h |].
        -- injection H as <- <-.
           assert (Hnew : cap (set_p (set_buf (set_point_offs (set_p fs2 0) 0)
                     (firstn (Z.to_nat (cap fs + amount)) (buf fs2) ++
                      map h (seq (length (buf fs2))
                        (Z.to_nat (cap fs + amount) - length (buf fs2))))) 0)
                     = cap fs + amount).
           { unfold cap, Mem.blen in *. simpl.
             rewrite length_app, length_firstn, length_map, length_seq. lia. }
           split; intros; [rewrite Hnew; simpl; lia | lia].
        -- injection H as <- <-. split; [discriminate | intros; lia].
    + injection H as <- <-. split; intros; [| exact Hc3].
      rewrite Hc3. simpl. lia.
  - bind_inv H. injection H as <- <-.
    apply memmove_blen in Ha1; [| apply wrap_range].
    split; [discriminate |]. intros _.
    unfold cap in *. simpl in *. congruence.
Qed.

(** The flush of a buffer the sink takes whole. *)
Lemma fwrite_whole (fs1 : fmtstream) :
  0 <= p fs1 <= cap fs1 -> cap fs1 < 2 ^ 64 ->
  accepted E (pending fs1) = p fs1 ->
  exists fs2,
    fwrite_unlocked E fs1 0 (Mach.wrap (p fs1)) = Ret (p fs1, fs2) /\
    buf fs2 = buf fs1 /\ p fs2 = p fs1.
Proof.
  intros Hp Hcap Hall.
  unfold fwrite_unlocked. rewrite (wrap_small (p fs1)) by lia.
  destruct (p fs1 =? 0) eqn:Hp0.
  - assert (Hz : p fs1 = 0) by lia. exists fs1. rewrite Hz. auto.
  - assert (Hin : Mem.in_range (buf fs1) 0 (p fs1) = true).
    { apply in_range_true. unfold cap in Hp. lia. }
    rewrite Hin. fold (pending fs1). rewrite Hall.
    eexists. split; [reflexivity |]. simpl. auto.
Qed.

(** C6.  Whenever [__argp_fmtstream_ensure (fs, amount)] returns 1, at
    least [amount] bytes are free between [p] and [end], and a buffer
    that is large enough keeps its size.  When the buffer is smaller
    than [amount], the rewrite pass of the flush returns and the sink
    takes all the pending bytes, the call ends with [ENOMEM] if
    [old_size + amount] overflows [size_t] or [realloc] fails, and
    otherwise returns 1 with a buffer of exactly [old_size + amount]
    bytes. *)
Theorem ensure_makes_room (fuel : nat) (fs : fmtstream) (amount : Z) :
  0 <= amount < 2 ^ 64 ->
  0 <= p fs <= cap fs ->
  cap fs < 2 ^ 64 ->
  (forall r fs',
     __argp_fmtstream_ensure E fuel fs amount = Ret (r, fs') ->
     (r = EnsureOk -> amount <= cap fs' - p fs') /\
     (amount <= cap fs -> cap fs' = cap fs)) /\
  (forall fs1,
     cap fs < amount ->
     __argp_fmtstream_update E fuel fs = Ret fs1 ->
     0 <= p fs1 <= cap fs1 ->
     p fs1 < 2 ^ 63 ->
     accepted E (pending fs1) = p fs1 ->
     exists r fs',
       __argp_fmtstream_ensure E fuel fs amount = Ret (r, fs') /\
       if 2 ^ 64 <=? cap fs + amount
       then r = EnsureNoMem /\ cap fs' = cap fs
       else match realloc_tail E (cap fs + amount) with
            | None => r = EnsureNoMem /\ cap fs' = cap fs
            | Some _ => r = EnsureOk /\ cap fs' = cap fs + amount /\
                        amount <= cap fs' - p fs'
            end).
Proof.
  intros Ham Hp Hcap. split.
  { intros r fs' H. eapply ensure_outcome; eauto. }
  intros fs1 Hgrow Hup Hp1 Hp63 Hall.
  pose proof (update_frame _ _ _ _ Hup) as (Hc1 & _).
  destruct (fwrite_whole fs1) as (fs2 & Hw & Hb2 & Hp2); [lia | lia | exact Hall |].
  unfold __argp_fmtstream_ensure.
  rewrite (wrap_small (cap fs - p fs)) by lia.
  destruct (cap fs - p fs <? amount) eqn:Hf; [| lia].
  rewrite Hup. simpl bind. rewrite Hw. simpl bind. cbv beta iota zeta.
  simpl fst. simpl snd.
  assert (Hsgn : Mach.sgn (p fs1) = p fs1) by (apply (ptr_small (p fs1)); lia).
  rewrite Hsgn, Hp2, Z.eqb_refl.
  assert (Hc3 : cap (set_point_offs (set_p fs2 0) 0) = cap fs).
  { unfold cap in *. simpl. now rewrite Hb2. }
  rewrite Hc3. rewrite (wrap_small (cap fs)) by lia.
  destruct (cap fs <? amount) eqn:Hg; [| lia].
  assert (Hov : (Mach.wrap (cap fs + amount) <? cap fs) =
                (2 ^ 64 <=? cap fs + amount)).
  { unfold Mach.wrap, Mach.size_mod.
    destruct (2 ^ 64 <=? cap fs + amount) eqn:Ho; lia. }
  rewrite Hov.
  destruct (2 ^ 64 <=? cap fs + amount) eqn:Ho.
  - eexists. eexists. split; [reflexivity |]. split; [reflexivity | exact Hc3].
  - rewrite (wrap_small (cap fs + amount)) by lia.
    destruct (realloc_tail E (cap fs + amount)) as [h |].
    + eexists. eexists. split; [reflexivity |].
      assert (Hnew : cap (set_p (set_buf (set_point_offs (set_p fs2 0) 0)
                (firstn (Z.to_nat (cap fs + amount)) (buf fs2) ++
                 map h (seq (length (buf fs2))
                   (Z.to_nat (cap fs + amount) - length (buf fs2))))) 0)
                = cap fs + amount).
      { unfold cap, Mem.blen in *. simpl. rewrite Hb2.
        rewrite length_app, length_firstn, length_map, length_seq. lia. }
      split; [reflexivity |]. split; [exact Hnew |].
      rewrite Hnew. simpl. lia.
    + eexists. eexists. split; [reflexivity |]. split; [reflexivity | exact Hc3].
Qed.

End Ensure.

(** The hypotheses of [ensure_makes_room] hold on a fresh stream asked
    for 300 bytes: the buffer grows from 200 to 500 bytes, and in a
    world without memory the call ends with [ENOMEM] and the buffer
    keeps its 200 bytes. *)
Lemma ensure_makes_room_witness :
  (exists fs',
     __argp_fmtstream_ensure plain_env 1 (fresh_stream zero_heap 0 79 0) 300
       = Ret (EnsureOk, fs') /\
     300 <= cap fs' - p fs' /\ cap fs' = 500) /\
  (exists fs',
     __argp_fmtstream_ensure no_memory_env 1 (fresh_stream zero_heap 0 79 0) 300
       = Ret (EnsureNoMem, fs') /\
     cap fs' = 200).
Proof.
  set (fs := fresh_stream zero_heap 0 79 0).
  split.
  - destruct (ensure_makes_room plain_env 1 fs 300) as (_ & Hgrow).
    + lia.
    + vm_compute. split; discriminate.
    + vm_compute. reflexivity.
    + destruct (Hgrow fs) as (r & fs' & Hrun & Hres).
      * vm_compute. reflexivity.
      * vm_compute. reflexivity.
      * vm_compute. split; discriminate.
      * vm_compute. reflexivity.
      * vm_compute. reflexivity.
      * change (2 ^ 64 <=? cap fs + 300) with false in Hres.
        change (realloc_tail plain_env (cap fs + 300))
          with (Some (fun _ : nat => NUL)) in Hres.
        cbv iota in Hres. destruct Hres as (-> & Hcap & Hroom).
        exists fs'. split; [exact Hrun |]. split; [exact Hroom | exact Hcap].
  - destruct (ensure_makes_room no_memory_env 1 fs 300) as (_ & Hgrow).
    + lia.
    + vm_compute. split; discriminate.
    + vm_compute. reflexivity.
    + destruct (Hgrow fs) as (r & fs' & Hrun & Hres).
      * vm_compute. reflexivity.
      * vm_compute. reflexivity.
      * vm_compute. split; discriminate.
      * vm_compute. reflexivity.
      * vm_compute. reflexivity.
      * change (2 ^ 64 <=? cap fs + 300) with false in Hres.
        change (realloc_tail no_memory_env (cap fs + 300))
          with (@None (nat -> byte)) in Hres.
        cbv iota in Hres. destruct Hres as (-> & Hcap).
        exists fs'. split; [exact Hrun |]. exact Hcap.
Defined.

Section ShortWrite.

Variable E : env.

(** X12.  A flush of [__argp_fmtstream_ensure] that is cut short, the
    sink having taken [w] of the [p] pending bytes the rewrite pass
    left.  The call returns 0, the sink holds those [w] bytes, [p] is
    lower by [w], and the bytes the sink did not take lie at the head
    of the buffer, in order.  [point_offs] is lowered by [w] as a
    [size_t]: by exactly [w] when it was at least [w], and around the
    end of the range of [size_t] when it was not. *)
Theorem ensure_short_write (fuel : nat) (fs fs1 : fmtstream) (amount w : Z) :
  Mach.wrap (cap fs - p fs) < amount ->
  __argp_fmtstream_update E fuel fs = Ret fs1 ->
  0 <= p fs1 <= cap fs1 ->
  cap fs1 < 2 ^ 63 ->
  accepted E (pending fs1) = w ->
  w < p fs1 ->
  exists fs2,
    __argp_fmtstream_ensure E fuel fs amount = Ret (EnsureShortWrite, fs2) /\
    stream fs2 = stream fs1 ++ Mem.slice (buf fs1) 0 w /\
    p fs2 = p fs1 - w /\
    point_offs fs2 = Mach.wrap (point_offs fs1 - w) /\
    (w <= point_offs fs1 < 2 ^ 64 -> point_offs fs2 = point_offs fs1 - w) /\
    (forall j, 0 <= j < p fs2 ->
               Mem.get (buf fs2) j = Mem.get (buf fs1) (w + j)) /\
    same_frame fs1 fs2.
Proof.
  intros Hflush Hup Hp Hcap Hw Hshort.
  pose proof (accepted_range E (pending fs1)) as Hacc. rewrite Hw in Hacc.
  unfold __argp_fmtstream_ensure.
  destruct (Mach.wrap (cap fs - p fs) <? amount) eqn:Hf; [| lia].
  rewrite Hup. simpl. unfold fwrite_unlocked.
  rewrite (wrap_small (p fs1)) by lia.
  destruct (p fs1 =? 0) eqn:Hp0; [lia |].
  assert (Hin : Mem.in_range (buf fs1) 0 (p fs1) = true).
  { apply in_range_true. unfold cap in Hp. lia. }
  rewrite Hin. simpl.
  change (Mem.slice (buf fs1) 0 (p fs1)) with (pending fs1).
  rewrite Hw.
  assert (Hsgn : Mach.sgn w = w) by (apply (ptr_small w); lia).
  rewrite Hsgn.
  destruct (w =? p fs1) eqn:Hwp; [lia |].
  rewrite (ptr_small (p fs1 - w)) by lia.
  rewrite (ptr_small w) by lia.
  rewrite (wrap_small (p fs1 - w)) by lia.
  unfold Mem.memmove.
  destruct (p fs1 - w =? 0) eqn:Hn0; [lia |].
  assert (Hsrc : Mem.in_range (buf fs1) w (p fs1 - w) = true).
  { apply in_range_true. unfold cap in Hp. lia. }
  assert (Hdst : Mem.in_range (buf fs1) 0 (p fs1 - w) = true).
  { apply in_range_true. unfold cap in Hp. lia. }
  simpl. rewrite Hsrc, Hdst. simpl.
  eexists. split; [reflexivity |]. simpl.
  assert (Hsl : Mem.blen (Mem.slice (buf fs1) w (p fs1 - w)) = p fs1 - w).
  { apply slice_length; unfold cap in Hp; lia. }
  repeat split.
  - unfold taken. rewrite Hw. unfold pending.
    rewrite slice_prefix by lia. reflexivity.
  - intros H. apply wrap_small. lia.
  - intros j Hj. rewrite get_splice; [| lia | unfold cap in Hp; lia | lia].
    rewrite Hsl.
    destruct ((0 <=? j) && (j <? 0 + (p fs1 - w))) eqn:Hc; [| lia].
    rewrite get_slice by lia. f_equal. lia.
  - unfold cap. simpl. apply splice_blen; [lia |].
    rewrite Hsl. unfold cap in Hp. lia.
Qed.

End ShortWrite.

(** The hypotheses of [ensure_short_write] hold on a buffer of eight
    bytes with six pending, of which the sink takes two. *)
Lemma ensure_short_write_witness :
  exists fs2,
    __argp_fmtstream_ensure short_env 1 two_lines 5
      = Ret (EnsureShortWrite, fs2) /\
    stream fs2 = bytes_of "ab" /\ p fs2 = 4 /\ point_offs fs2 = 4 /\
    pending fs2 = [NL] ++ bytes_of "cd" ++ [NL].
Proof.
  destruct (ensure_short_write short_env 1 two_lines two_lines 5 2)
    as (fs2 & Hrun & Hs & Hp & Hpo & _).
  - vm_compute. reflexivity.
  - vm_compute. reflexivity.
  - vm_compute. split; discriminate.
  - vm_compute. reflexivity.
  - vm_compute. reflexivity.
  - vm_compute. reflexivity.
  - exists fs2. split; [exact Hrun |].
    assert (Hrun' := Hrun). vm_compute in Hrun'.
    injection Hrun' as <-. vm_compute. auto.
Defined.

(** C7.  A short write after a rewrite pass that gave up.  A stream is
    created with margins 0, 79 and 0 and the six bytes ["ab\ncd\n"] are
    appended; [__argp_fmtstream_ensure] is then asked for 300 bytes in
    a world whose scratch allocation fails and whose sink takes two
    bytes.  The rewrite pass returns without processing, so
    [point_offs] is still 0 when the sink takes ["ab"]: the call
    returns 0 with [p] lowered from 6 to 4 and the four bytes the sink
    did not take at the head of the buffer, but with [point_offs]
    taken from 0 to 2^64 - 2 instead of lowered by 2.  The rewrite
    pass of a retry that is granted its scratch array then starts two
    bytes before the buffer. *)
Theorem short_write_wraps_point :
  exists fs fs2,
    appended starved_env 1 zero_heap 0 79 0
      (bytes_of "ab" ++ [NL] ++ bytes_of "cd" ++ [NL]) = Ret fs /\
    p fs = 6 /\ point_offs fs = 0 /\
    __argp_fmtstream_update starved_env 1 fs = Ret fs /\
    accepted starved_env (pending fs) = 2 /\
    __argp_fmtstream_ensure starved_env 1 fs 300
      = Ret (EnsureShortWrite, fs2) /\
    stream fs2 = bytes_of "ab" /\
    pending fs2 = [NL] ++ bytes_of "cd" ++ [NL] /\
    p fs2 = p fs - 2 /\
    point_offs fs2 = 2 ^ 64 - 2 /\
    point_offs fs2 <> point_offs fs - 2 /\
    Mach.ptr (point_offs fs2) = -2 /\
    __argp_fmtstream_ensure short_env 1 fs2 300 = OutOfBounds.
Proof.
  eexists. eexists.
  split; [vm_compute; reflexivity |].
  split; [reflexivity |]. split; [reflexivity |].
  split; [vm_compute; reflexivity |].
  split; [vm_compute; reflexivity |].
  split; [vm_compute; reflexivity |].
  split; [reflexivity |]. split; [vm_compute; reflexivity |].
  split; [reflexivity |]. split; [vm_compute; reflexivity |].
  split; [vm_compute; discriminate |].
  split; vm_compute; reflexivity.
Qed.

(** ** Runs of the truncating rewrite pass *)

(** The truncating session on any allocation that holds no line
    terminator at offsets 10 to 13: the sink receives ["abcde\n"]. *)
Lemma truncate_session_clean (heap : nat -> byte) :
  (forall i, (10 <= i < 14)%nat -> heap i <> NL) ->
  session plain_env 20 heap 0 5 (-1) (bytes_of "abcdefgh" ++ [NL])
    = Ret (bytes_of "abcde" ++ [NL]).
Proof.
  intros Hclean. unfold session.
  assert (Happ : exists fs,
     appended plain_env 20 heap 0 5 (-1) (bytes_of "abcdefgh" ++ [NL])
       = Ret fs /\
     fs = {| stream := []; lmargin := 0; rmargin := 5; wmargin := -1;
             point_offs := 0; point_col := 0;
             buf := bytes_of "abcdefgh" ++ [NL; NUL] ++ map heap (seq 10 190);
             p := 9 |}).
  { eexists. split; vm_compute; reflexivity. }
  destruct Happ as (fs & -> & Hfs). simpl bind.
  unfold __argp_fmtstream_free, __argp_fmtstream_update.
  assert (H1 : Mem.memchr (buf fs) (Mach.ptr (point_offs fs)) NL
                 (search_limit fs) = Ret None).
  { subst fs. vm_compute. reflexivity. }
  assert (H2 : Mem.memchr
                 (buf (set_point_offs fs
                         (Mach.wrap (point_offs fs + search_limit fs))))
                 (second_search_start
                    (set_point_offs fs
                       (Mach.wrap (point_offs fs + search_limit fs))))
                 NL
                 (second_search_len
                    (set_point_offs fs
                       (Mach.wrap (point_offs fs + search_limit fs))))
               = Ret None).
  { subst fs.
    change (second_search_start _) with 10.
    change (second_search_len _) with 4.
    apply memchr_absent; try lia.
    - vm_compute. discriminate.
    - intros j Hj.
      assert (Hj' : j = 10 \/ j = 11 \/ j = 12 \/ j = 13) by lia.
      destruct Hj' as [-> | [-> | [-> | ->]]];
        [apply (Hclean 10%nat) | apply (Hclean 11%nat)
         | apply (Hclean 12%nat) | apply (Hclean 13%nat)]; lia. }
  replace (Mach.ptr (point_offs fs) >=? p fs) with false
    by (subst fs; reflexivity).
  replace (wmargin fs =? -1) with true by (subst fs; reflexivity).
  change (truncate_loop plain_env 20 20 (Mach.ptr (point_offs fs)) fs)
    with (if Mach.ptr (point_offs fs) <? p fs
          then r <- truncate_step plain_env 20 (Mach.ptr (point_offs fs)) fs ;;
               if fst r
               then truncate_loop plain_env 20 19
                      (Mach.ptr (point_offs fs)) (snd r)
               else Ret (snd r)
          else Ret fs).
  replace (Mach.ptr (point_offs fs) <? p fs) with true
    by (subst fs; reflexivity).
  unfold truncate_step. rewrite H1. cbv beta iota delta [bind]. rewrite H2.
  subst fs. vm_compute. reflexivity.
Qed.

(** C1.  The session [lmargin = 0], [rmargin = 5], [wmargin = -1],
    append ["abcdefgh\n"], destroy.  The second search of the rewrite
    pass reads the four bytes at offsets 10 to 13, which the append
    never wrote.  On an allocation that holds no line terminator there
    the sink receives ["abcde\n"]; on one that holds terminators left by
    an earlier owner the sink receives nine bytes, the last three of
    them stale bytes of the allocation. *)
Theorem truncate_session_reads_stale_bytes :
  session plain_env 20 zero_heap 0 5 (-1) (bytes_of "abcdefgh" ++ [NL])
    = Ret (bytes_of "abcde" ++ [NL]) /\
  session plain_env 20 stale_heap 0 5 (-1) (bytes_of "abcdefgh" ++ [NL])
    = Ret (bytes_of "abcde" ++ [NL] ++ bytes_of "xxx").
Proof. split; vm_compute; reflexivity. Qed.

(** C10.  The searches of the truncating rewrite pass leave the
    unprocessed span, whatever the allocation held.  After ["ab"] has
    been appended ([p = 2]) the first search examines offset 2; after
    ["abcdefgh\n"] has been appended ([p = 9]) and [point_offs] has
    been advanced to 5, the second search starts at offset 10 and
    examines it.  On an allocation of null bytes the offsets examined
    are 0 to 4 and 10 to 13. *)
Theorem truncate_search_leaves_span (heap : nat -> byte) :
  (exists fs,
     appended plain_env 20 heap 0 5 (-1) (bytes_of "ab") = Ret fs /\
     point_offs fs = 0 /\ p fs = 2 /\
     In 2 (examined (buf fs) (Mach.ptr (point_offs fs)) NL (search_limit fs))) /\
  (exists fs,
     appended plain_env 20 heap 0 5 (-1) (bytes_of "abcdefgh" ++ [NL])
       = Ret fs /\
     point_offs fs = 0 /\ p fs = 9 /\
     Mem.memchr (buf fs) (Mach.ptr (point_offs fs)) NL (search_limit fs)
       = Ret None /\
     let fs1 := set_point_offs fs (Mach.wrap (point_offs fs + search_limit fs)) in
     point_offs fs1 = 5 /\
     second_search_start fs1 = 10 /\ second_search_len fs1 = 4 /\
     In 10 (examined (buf fs1) (second_search_start fs1) NL
              (second_search_len fs1))) /\
  (exists fs fs',
     appended plain_env 20 zero_heap 0 5 (-1) (bytes_of "ab") = Ret fs /\
     examined (buf fs) (Mach.ptr (point_offs fs)) NL (search_limit fs)
       = [0; 1; 2; 3; 4] /\
     appended plain_env 20 zero_heap 0 5 (-1) (bytes_of "abcdefgh" ++ [NL])
       = Ret fs' /\
     let fs1 := set_point_offs fs' (Mach.wrap (point_offs fs' + search_limit fs')) in
     examined (buf fs1) (second_search_start fs1) NL (second_search_len fs1)
       = [10; 11; 12; 13]).
Proof.
  split; [| split].
  - eexists. split; [vm_compute; reflexivity |].
    split; [reflexivity |]. split; [reflexivity |].
    apply examined_In.
    + vm_compute. split; discriminate.
    + vm_compute. reflexivity.
    + intros i Hi. change (Mach.ptr _) with 0 in Hi.
      assert (Hi' : i = 0 \/ i = 1) by lia.
      destruct Hi' as [-> | ->]; vm_compute; discriminate.
  - eexists. split; [vm_compute; reflexivity |].
    split; [reflexivity |]. split; [reflexivity |].
    split; [vm_compute; reflexivity |].
    cbv zeta. split; [reflexivity |]. split; [reflexivity |].
    split; [reflexivity |].
    apply examined_In.
    + vm_compute. split; discriminate.
    + vm_compute. reflexivity.
    + intros i Hi. change (second_search_start _) with 10 in Hi. lia.
  - eexists. eexists. split; [vm_compute; reflexivity |].
    split; [vm_compute; reflexivity |].
    split; [vm_compute; reflexivity |].
    vm_compute. reflexivity.
Qed.

(** C5.  One turn of the truncating loop on ["abcdefg\nxy\n"] with
    [rmargin = 5].  No terminator lies in the first five bytes, and
    [point_offs] advances to 5.  The second search starts at offset 10,
    not at the truncation point 5: it passes over the terminator at
    offset 7 and returns the one at offset 10.  After the turn [p] is
    still 11 and the pending bytes are ["abcde"] followed by six null
    bytes: no terminator stands at the truncation point and ["xy\n"]
    is gone.  The whole session sends those eleven bytes and a
    terminator to the sink. *)
Theorem truncate_turn_misses_terminator :
  exists fs fs',
    appended plain_env 20 zero_heap 0 5 (-1)
      (bytes_of "abcdefg" ++ [NL] ++ bytes_of "xy" ++ [NL]) = Ret fs /\
    Mem.get (buf fs) 7 = NL /\
    Mem.memchr (buf fs) (Mach.ptr (point_offs fs)) NL (search_limit fs)
      = Ret None /\
    (let fs1 := set_point_offs fs (Mach.wrap (point_offs fs + search_limit fs)) in
     point_offs fs1 = 5 /\ second_search_start fs1 = 10 /\
     Mem.memchr (buf fs1) (second_search_start fs1) NL (second_search_len fs1)
       = Ret (Some 10)) /\
    truncate_step plain_env 20 0 fs = Ret (true, fs') /\
    point_offs fs' = 6 /\ p fs' = 11 /\
    pending fs' = bytes_of "abcde" ++ repeat NUL 6 /\
    session plain_env 20 zero_heap 0 5 (-1)
      (bytes_of "abcdefg" ++ [NL] ++ bytes_of "xy" ++ [NL])
      = Ret (bytes_of "abcde" ++ repeat NUL 6 ++ [NL]).
Proof.
  eexists. eexists. split; [vm_compute; reflexivity |].
  split; [vm_compute; reflexivity |].
  split; [vm_compute; reflexivity |].
  split; [vm_compute; repeat split; reflexivity |].
  split; [vm_compute; reflexivity |].
  vm_compute. repeat split; reflexivity.
Qed.

(** C8.  The cursors are ordered after [__argp_make_fmtstream], and the
    rewrite pass breaks the ordering: with [lmargin = 2],
    [rmargin = 5], [wmargin = -1] and ["abcde"] appended, whatever the
    allocation held, the pass returns with [point_offs = 8] and
    [p = 6]. *)
Theorem rewrite_pass_breaks_ordering (heap : nat -> byte) :
  (forall lm rm wm,
     exists fs,
       __argp_make_fmtstream (Some heap) [] lm rm wm = Some fs /\
       cursors_ordered fs) /\
  exists fs fs',
    appended plain_env 20 heap 2 5 (-1) (bytes_of "abcde") = Ret fs /\
    cursors_ordered fs /\
    __argp_fmtstream_update plain_env 20 fs = Ret fs' /\
    point_offs fs' = 8 /\ p fs' = 6 /\ ~ cursors_ordered fs'.
Proof.
  split.
  - intros lm rm wm. eexists. split; [reflexivity |].
    unfold cursors_ordered, cap. simpl. unfold Mem.blen. lia.
  - eexists. eexists. split; [vm_compute; reflexivity |].
    split; [unfold cursors_ordered, cap; simpl; unfold Mem.blen; simpl;
            rewrite ?length_app, ?length_map; simpl; lia |].
    split; [vm_compute; reflexivity |].
    split; [reflexivity |]. split; [reflexivity |].
    unfold cursors_ordered. simpl. lia.
Qed.

(** ** Runs of the wrapping rewrite pass *)

(** C2.  In wrap mode the pending bytes are not the input with breaks
    and margins inserted, whatever the allocation held.  With no
    margins and ["ab cd"] appended, a possible break at the blank
    leaves ["ab\n c"]: the terminator and the blank both stand, and
    the last byte is gone.  With
    [lmargin = wmargin = 2] and ["ab\ncd"] appended, the mandatory
    break at the terminator leaves ["ab\n  "]: the two bytes after the
    terminator are gone. *)
Theorem wrap_pass_loses_bytes (heap : nat -> byte) :
  (exists fs fs',
     appended plain_env 20 heap 0 3 0 (bytes_of "ab cd") = Ret fs /\
     pending fs = bytes_of "ab cd" /\
     __argp_fmtstream_update plain_env 20 fs = Ret fs' /\
     stream fs' = [] /\
     pending fs' = bytes_of "ab" ++ [NL] ++ bytes_of " c") /\
  (exists fs fs',
     appended plain_env 20 heap 2 10 2 (bytes_of "ab" ++ [NL] ++ bytes_of "cd")
       = Ret fs /\
     pending fs = bytes_of "ab" ++ [NL] ++ bytes_of "cd" /\
     __argp_fmtstream_update plain_env 20 fs = Ret fs' /\
     stream fs' = [] /\
     pending fs' = bytes_of "ab" ++ [NL] ++ bytes_of "  ").
Proof.
  split; eexists; eexists; (split; [vm_compute; reflexivity |]);
    (split; [vm_compute; reflexivity |]);
    (split; [vm_compute; reflexivity |]);
    split; vm_compute; reflexivity.
Qed.

(** ** The buffer primitives, byte by byte *)

Section GetFacts.

Lemma get_store (b b' : list byte) (i j : Z) (c : byte) :
  Mem.store b i c = Ret b' -> 0 <= j ->
  Mem.get b' j = if j =? i then c else Mem.get b j.
Proof.
  intros H Hj. apply store_inv in H. destruct H as (Hi & -> & _).
  rewrite get_splice; [| lia | unfold Mem.blen in *; simpl; lia | lia].
  change (Mem.blen [c]) with 1.
  destruct (j =? i) eqn:Hji.
  - assert (j = i) by lia. subst j.
    destruct ((i <=? i) && (i <? i + 1)) eqn:Hc; [| lia].
    replace (i - i) with 0 by lia. reflexivity.
  - destruct ((i <=? j) && (j <? i + 1)) eqn:Hc; [lia | reflexivity].
Qed.

Lemma get_memmove (b b' : list byte) (dst src n j : Z) :
  Mem.memmove b dst src n = Ret b' -> 0 <= n -> 0 <= j ->
  Mem.get b' j =
  if (dst <=? j) && (j <? dst + n) then Mem.get b (src + (j - dst))
  else Mem.get b j.
Proof.
  unfold Mem.memmove. intros H Hn Hj.
  destruct (n =? 0) eqn:Hn0.
  - injection H as <-.
    destruct ((dst <=? j) && (j <? dst + n)) eqn:Hc; [lia | reflexivity].
  - destruct (Mem.in_range b src n && Mem.in_range b dst n) eqn:Hr;
      [| discriminate].
    apply andb_true_iff in Hr. destruct Hr as [Hs Hd].
    apply in_range_true in Hs. apply in_range_true in Hd.
    injection H as <-.
    assert (Hl : Mem.blen (Mem.slice b src n) = n) by (apply slice_length; lia).
    rewrite get_splice; [| lia | lia | lia]. rewrite Hl.
    destruct ((dst <=? j) && (j <? dst + n)) eqn:Hc; [| reflexivity].
    apply get_slice; lia.
Qed.

Lemma get_memcpy (b b' s : list byte) (dst j : Z) :
  Mem.memcpy b dst s = Ret b' -> 0 <= j ->
  Mem.get b' j =
  if (dst <=? j) && (j <? dst + Mem.blen s) then Mem.get s (j - dst)
  else Mem.get b j.
Proof.
  unfold Mem.memcpy. intros H Hj. destruct s as [| c s].
  - injection H as <-. change (Mem.blen []) with 0.
    destruct ((dst <=? j) && (j <? dst + 0)) eqn:Hc; [lia | reflexivity].
  - destruct (Mem.in_range b dst (Mem.blen (c :: s))) eqn:Hr; [| discriminate].
    apply in_range_true in Hr. injection H as <-.
    apply get_splice; lia.
Qed.

Lemma memmove_returns (b : list byte) (dst src n : Z) :
  n = 0 \/ (0 <= src /\ src + n <= Mem.blen b /\
            0 <= dst /\ dst + n <= Mem.blen b) ->
  exists b', Mem.memmove b dst src n = Ret b'.
Proof.
  unfold Mem.memmove. intros H. destruct (n =? 0) eqn:Hn0; [eauto |].
  destruct H as [H | H]; [lia |].
  assert (Hs : Mem.in_range b src n = true) by (apply in_range_true; lia).
  assert (Hd : Mem.in_range b dst n = true) by (apply in_range_true; lia).
  rewrite Hs, Hd. simpl. eauto.
Qed.

Lemma memcpy_returns (b s : list byte) (dst : Z) :
  0 <= dst -> dst + Mem.blen s <= Mem.blen b ->
  exists b', Mem.memcpy b dst s = Ret b'.
Proof.
  unfold Mem.memcpy. intros Hd Hs. destruct s as [| c s]; [eauto |].
  assert (Hr : Mem.in_range b dst (Mem.blen (c :: s)) = true)
    by (apply in_range_true; lia).
  rewrite Hr. eauto.
Qed.

Lemma store_returns (b : list byte) (i : Z) (c : byte) :
  0 <= i < Mem.blen b -> exists b', Mem.store b i c = Ret b'.
Proof.
  unfold Mem.store. intros Hi.
  assert (Hr : Mem.in_range b i 1 = true) by (apply in_range_true; lia).
  rewrite Hr. eauto.
Qed.

End GetFacts.

(** ** The line splicer with room *)

Section Splicer.

Variable E : env.

(** The padding loop writes [n] blanks from [point_offs] on and moves
    [point_offs] past them. *)
Lemma margin_loop_pads (n : nat) (fs : fmtstream) :
  point_col fs <> -1 ->
  0 <= point_offs fs ->
  point_offs fs + Z.of_nat n <= cap fs ->
  cap fs < 2 ^ 62 ->
  exists fs',
    margin_loop n fs = Ret fs' /\
    point_offs fs' = point_offs fs + Z.of_nat n /\
    (forall j, 0 <= j < Z.of_nat n ->
               Mem.get (buf fs') (point_offs fs + j) = SP) /\
    (forall j, 0 <= j -> ~ (point_offs fs <= j < point_offs fs + Z.of_nat n) ->
               Mem.get (buf fs') j = Mem.get (buf fs) j) /\
    point_col fs' = point_col fs.
Proof.
  revert fs. induction n as [| n IH]; intros fs Hcol Hpo Hfit Hcap.
  - exists fs. simpl. repeat split; intros; (lia || reflexivity).
  - simpl. destruct (point_col fs =? -1) eqn:Hc; [lia |].
    rewrite (ptr_small (point_offs fs)) by lia.
    destruct (store_returns (buf fs) (point_offs fs) SP) as [b Hb].
    { unfold cap in Hfit. lia. }
    rewrite Hb. simpl.
    rewrite (wrap_small (point_offs fs + 1)) by lia.
    pose proof (store_inv _ _ _ _ Hb) as (_ & _ & Hlen).
    destruct (IH (set_point_offs (set_buf fs b) (point_offs fs + 1)))
      as (fs' & Hrun & Hpo' & Hsp & Hrest & Hcol').
    + exact Hcol.
    + simpl. lia.
    + unfold cap in *. simpl. lia.
    + unfold cap in *. simpl. lia.
    + simpl in *. exists fs'. split; [exact Hrun |].
      split; [lia |]. split; [| split; [| exact Hcol']].
      * intros j Hj. destruct (Z.eq_dec j 0) as [-> | Hj0].
        -- rewrite Hrest by lia. rewrite (get_store _ _ _ _ _ Hb) by lia.
           destruct (point_offs fs + 0 =? point_offs fs) eqn:He; [reflexivity | lia].
        -- replace (point_offs fs + j) with (point_offs fs + 1 + (j - 1)) by lia.
           apply Hsp. lia.
      * intros j Hj Hout. rewrite Hrest by lia.
        rewrite (get_store _ _ _ _ _ Hb) by lia.
        destruct (j =? point_offs fs) eqn:He; [lia | reflexivity].
Qed.

(** C3, as amended.  With room for [wmargin] and the suffix after [p]
    and for the suffix and the padding after [point_offs], the line
    splicer leaves the bytes before [point_offs] and the sink as they
    were, writes the suffix at [point_offs] and after it the padding
    ([lmargin] blanks, none when [point_col] was the sentinel), moves
    [point_offs] past the suffix and the padding, and sets [point_col]
    to [lmargin] in every case.  The bytes that were in
    [point_offs, p) are found [wmargin + strlen suffix] bytes further
    on when the padding is no wider than [wmargin]. *)
Theorem line_at_point_with_room (fuel : nat) (fs : fmtstream)
    (suffix : option (list byte)) :
  0 <= wmargin fs ->
  0 <= point_offs fs <= p fs ->
  p fs + wmargin fs + suffix_len suffix <= cap fs ->
  point_offs fs + suffix_len suffix + padding fs <= cap fs ->
  cap fs < 2 ^ 62 ->
  0 <= lmargin fs < 2 ^ 63 ->
  exists fs',
    line_at_point E fuel fs suffix = Ret fs' /\
    (forall j, 0 <= j < point_offs fs ->
               Mem.get (buf fs') j = Mem.get (buf fs) j) /\
    (forall s j, suffix = Some s -> 0 <= j < Mem.blen s ->
                 Mem.get (buf fs') (point_offs fs + j) = Mem.get s j) /\
    (forall j, 0 <= j < padding fs ->
               Mem.get (buf fs') (point_offs fs + suffix_len suffix + j) = SP) /\
    point_offs fs' = point_offs fs + suffix_len suffix + padding fs /\
    point_col fs' = lmargin fs /\
    stream fs' = stream fs /\
    (padding fs <= wmargin fs ->
     forall j, 0 <= j < p fs - point_offs fs ->
       Mem.get (buf fs') (point_offs fs + wmargin fs + suffix_len suffix + j)
       = Mem.get (buf fs) (point_offs fs + j)) /\
    same_frame fs fs'.
Proof.
  intros Hwm Hpo Hroom Hfit Hcap Hlm.
  assert (Hsl : 0 <= suffix_len suffix).
  { destruct suffix; simpl; [apply blen_nonneg | lia]. }
  assert (Hpad : 0 <= padding fs).
  { unfold padding. destruct (point_col fs =? -1); lia. }
  unfold line_at_point.
  rewrite (wrap_small (wmargin fs)) by lia.
  rewrite (wrap_small (wmargin fs + suffix_len suffix)) by lia.
  rewrite (ptr_small (point_offs fs)) by lia.
  assert (Hrec : reclaim E fuel (point_offs fs) (wmargin fs + suffix_len suffix) fs
                 = Ret fs).
  { destruct fuel; simpl;
      rewrite (ptr_small (p fs + (wmargin fs + suffix_len suffix))) by lia;
      destruct (p fs + (wmargin fs + suffix_len suffix) >? cap fs) eqn:Hc;
      (lia || reflexivity). }
  rewrite Hrec. simpl.
  rewrite (ptr_small (point_offs fs + (wmargin fs + suffix_len suffix))) by lia.
  rewrite (wrap_small (p fs - point_offs fs)) by lia.
  destruct (memmove_returns (buf fs)
              (point_offs fs + (wmargin fs + suffix_len suffix))
              (point_offs fs) (p fs - point_offs fs)) as [b Hb].
  { right. unfold cap in *. lia. }
  rewrite Hb. simpl.
  assert (Hblen : Mem.blen b = Mem.blen (buf fs))
    by (eapply memmove_blen; [| exact Hb]; lia).
  (* the suffix *)
  assert (Hsuf : exists fs2,
    match suffix with
    | Some s => b' <- Mem.memcpy b (point_offs fs) s ;;
                Ret (set_point_offs (set_buf fs b')
                       (Mach.wrap (point_offs fs + Mem.blen s)))
    | None => Ret (set_buf fs b)
    end = Ret fs2 /\
    point_offs fs2 = point_offs fs + suffix_len suffix /\
    Mem.blen (buf fs2) = Mem.blen (buf fs) /\
    point_col fs2 = point_col fs /\ lmargin fs2 = lmargin fs /\
    rmargin fs2 = rmargin fs /\ wmargin fs2 = wmargin fs /\
    stream fs2 = stream fs /\ p fs2 = p fs /\
    (forall j, 0 <= j ->
       Mem.get (buf fs2) j =
       if (point_offs fs <=? j) && (j <? point_offs fs + suffix_len suffix)
       then match suffix with
            | Some s => Mem.get s (j - point_offs fs)
            | None => NUL
            end
       else Mem.get b j)).
  { destruct suffix as [s |]; simpl in *.
    - destruct (memcpy_returns b s (point_offs fs)) as [b' Hb'];
        [lia | unfold cap in *; lia |].
      rewrite Hb'. simpl. eexists. split; [reflexivity |]. simpl.
      rewrite (wrap_small (point_offs fs + Mem.blen s)) by lia.
      pose proof (memcpy_blen _ _ _ _ Hb').
      repeat split; try congruence.
      intros j Hj. apply (get_memcpy _ _ _ _ _ Hb' Hj).
    - eexists. split; [reflexivity |]. simpl.
      repeat split; try lia; try congruence.
      intros j Hj.
      destruct ((point_offs fs <=? j) && (j <? point_offs fs + 0)) eqn:Hc;
        [lia | reflexivity]. }
  destruct Hsuf as (fs2 & Hrun2 & Hpo2 & Hlen2 & Hcol2 & Hlm2 & Hrm2 & Hwm2
                    & Hst2 & Hp2 & Hget2).
  rewrite Hrun2. simpl.
  (* the padding *)
  assert (Hmar : exists fs3,
    margin_loop (Z.to_nat (lmargin fs2)) fs2 = Ret fs3 /\
    point_offs fs3 = point_offs fs2 + padding fs /\
    (forall j, 0 <= j < padding fs ->
               Mem.get (buf fs3) (point_offs fs2 + j) = SP) /\
    (forall j, 0 <= j -> ~ (point_offs fs2 <= j < point_offs fs2 + padding fs) ->
               Mem.get (buf fs3) j = Mem.get (buf fs2) j)).
  { unfold padding in *. destruct (point_col fs =? -1) eqn:Hc.
    - exists fs2. split.
      + destruct (Z.to_nat (lmargin fs2)); simpl; [reflexivity |].
        rewrite Hcol2, Hc. reflexivity.
      + repeat split; intros; (lia || reflexivity).
    - destruct (margin_loop_pads (Z.to_nat (lmargin fs2)) fs2)
        as (fs3 & Hrun3 & Hpo3 & Hsp3 & Hrest3 & _).
      + rewrite Hcol2. lia.
      + lia.
      + unfold cap. rewrite Hlen2. unfold cap in Hfit. lia.
      + unfold cap. rewrite Hlen2. exact Hcap.
      + exists fs3. split; [exact Hrun3 |].
        rewrite Z2Nat.id in * by lia. rewrite Hlm2 in *.
        repeat split; auto. }
  destruct Hmar as (fs3 & Hrun3 & Hpo3 & Hsp3 & Hrest3).
  rewrite Hrun3. simpl.
  pose proof (margin_loop_frame _ _ _ Hrun3) as (Hfr3 & Hp3 & Hst3).
  eexists. split; [reflexivity |]. simpl.
  assert (Hlm3 : lmargin fs3 = lmargin fs) by frame_solve.
  split; [| split; [| split; [| split; [| split; [| split; [| split]]]]]].
  - intros j Hj. rewrite Hrest3 by lia. rewrite Hget2 by lia.
    destruct ((point_offs fs <=? j) && (j <? point_offs fs + suffix_len suffix))
      eqn:Hc; [lia |].
    rewrite (get_memmove _ _ _ _ _ _ Hb) by lia.
    destruct ((point_offs fs + (wmargin fs + suffix_len suffix) <=? j) && _)
      eqn:Hc'; [lia | reflexivity].
  - intros s j -> Hj. simpl in *. rewrite Hrest3 by lia. rewrite Hget2 by lia.
    destruct ((point_offs fs <=? point_offs fs + j) &&
              (point_offs fs + j <? point_offs fs + Mem.blen s)) eqn:Hc; [| lia].
    f_equal. lia.
  - intros j Hj. rewrite <- Hpo2. apply Hsp3. exact Hj.
  - lia.
  - rewrite Hlm3. apply (ptr_small (lmargin fs)). lia.
  - congruence.
  - intros Hle j Hj. rewrite Hrest3 by lia. rewrite Hget2 by lia.
    destruct ((point_offs fs <=? point_offs fs + wmargin fs + suffix_len suffix + j)
              && _) eqn:Hc; [lia |].
    rewrite (get_memmove _ _ _ _ _ _ Hb) by lia.
    destruct ((point_offs fs + (wmargin fs + suffix_len suffix) <=?
               point_offs fs + wmargin fs + suffix_len suffix + j) && _)
      eqn:Hc'; [| lia].
    f_equal. lia.
  - unfold same_frame, cap in *. simpl in *. intuition congruence.
Qed.

End Splicer.

(** C3, counterexample.  With the sentinel in [point_col] the splicer
    writes no padding, yet it returns with [point_col = lmargin = 2],
    not with the sentinel; and [p] is where it was although a byte has
    been inserted.  In a truncating stream, where nothing is to be
    inserted, it moves the bytes of [point_offs, p) one byte back,
    over the byte before [point_offs]. *)
Lemma line_at_point_resets_sentinel :
  (exists fs',
     line_at_point plain_env 0 sentinel_state (Some [NL]) = Ret fs' /\
     point_col sentinel_state = -1 /\
     point_offs fs' = point_offs sentinel_state + 1 /\
     point_col fs' = 2 /\
     p fs' = p sentinel_state) /\
  (exists fs',
     line_at_point plain_env 0 truncating_state None = Ret fs' /\
     point_offs fs' = point_offs truncating_state /\
     pending truncating_state = bytes_of "abcd" /\
     pending fs' = bytes_of "acdd").
Proof.
  split; eexists; (split; [vm_compute; reflexivity |]); repeat split.
Qed.

(** The hypotheses of [line_at_point_with_room] hold on a buffer of
    eight bytes with four pending and the point after the second. *)
Lemma line_at_point_with_room_witness :
  exists fs',
    line_at_point plain_env 0 roomy_state (Some [NL]) = Ret fs' /\
    point_offs fs' = 5 /\ point_col fs' = 2 /\
    Mem.slice (buf fs') 0 7 = bytes_of "ab" ++ [NL] ++ bytes_of "  cd".
Proof.
  destruct (line_at_point_with_room plain_env 0 roomy_state (Some [NL]))
    as (fs' & Hrun & _ & _ & _ & Hpo & Hcol & _).
  - vm_compute. discriminate.
  - vm_compute. split; discriminate.
  - vm_compute. discriminate.
  - vm_compute. discriminate.
  - vm_compute. reflexivity.
  - vm_compute. split; [discriminate | reflexivity].
  - exists fs'. split; [exact Hrun |].
    split; [exact Hpo |]. split; [exact Hcol |].
    assert (Hrun' := Hrun). vm_compute in Hrun'. injection Hrun' as <-.
    vm_compute. reflexivity.
Defined.

(** ** The line splicer without room *)

Section Reclaim.

Variable E : env.

Lemma taken_nil : taken E [] = [].
Proof. unfold taken. apply firstn_nil. Qed.

Lemma slice_store_before (b b' : list byte) (i n : Z) (c : byte) :
  Mem.store b i c = Ret b' -> 0 <= n <= i -> Mem.slice b' 0 n = Mem.slice b 0 n.
Proof.
  intros H Hn. apply store_inv in H. destruct H as (Hi & -> & _).
  unfold Mem.slice, Mem.splice. simpl.
  rewrite firstn_app, firstn_firstn, length_firstn.
  replace (Z.to_nat n - Nat.min (Z.to_nat i) (length b))%nat with O
    by (unfold Mem.blen in Hi; lia).
  simpl. rewrite app_nil_r. f_equal. lia.
Qed.

Section Turn.

Variables (fuel : nat) (queue sn : Z) (fs : fmtstream).

Hypothesis Hlack : Mach.ptr (p fs + sn) > cap fs.
Hypothesis Hp : - 2 ^ 62 <= p fs <= 2 ^ 62.
Hypothesis Hcap : cap fs < 2 ^ 62.
Hypothesis Hpo : 0 <= point_offs fs < 2 ^ 64.

Lemma reclaim_goes_on (fs1 : fmtstream) :
  reclaim_step E queue fs = Ret fs1 ->
  reclaim E (S fuel) queue sn fs = reclaim E fuel queue sn fs1.
Proof.
  intros H1. simpl.
  destruct (Mach.ptr (p fs + sn) >? cap fs) eqn:Hc; [| lia].
  rewrite H1. reflexivity.
Qed.

(** The turn that finds a terminator before the point. *)
Lemma reclaim_turn_found (k : Z) :
  0 <= k < point_offs fs ->
  Mem.get (buf fs) k = NL ->
  (forall j, 0 <= j < k -> Mem.get (buf fs) j <> NL) ->
  2 * (k + 1) <= cap fs ->
  exists fs1,
    reclaim_step E queue fs = Ret fs1 /\
    reclaim E (S fuel) queue sn fs = reclaim E fuel queue sn fs1 /\
    stream fs1 = stream fs ++ taken E (Mem.slice (buf fs) 0 k)
                   ++ taken E [NL] /\
    p fs1 = p fs - (k + 1) /\
    point_offs fs1 = point_offs fs - (k + 1) /\
    same_frame fs fs1.
Proof.
  pose proof reclaim_goes_on as Hloop.
  intros Hk Hnl Hfirst Hfit.
  assert (Hfound : Mem.memchr (buf fs) 0 NL (point_offs fs) = Ret (Some k)).
  { apply memchr_first; try lia; [unfold cap in *; lia | assumption |].
    intros j Hj. apply Hfirst. lia. }
  assert (Hstep : exists fs1, reclaim_step E queue fs = Ret fs1 /\
     stream fs1 = stream fs ++ taken E (Mem.slice (buf fs) 0 k)
                    ++ taken E [NL] /\
     p fs1 = p fs - (k + 1) /\
     point_offs fs1 = point_offs fs - (k + 1) /\
     same_frame fs fs1).
  { unfold reclaim_step. rewrite Hfound. simpl.
    rewrite (wrap_small k) by lia.
    rewrite (ptr_small (k + 1)) by lia.
    rewrite (wrap_small (k + 1)) by lia.
    destruct (k >? 0) eqn:Hk0.
    - unfold fwrite_unlocked. simpl.
      destruct (k =? 0) eqn:Hkz; [lia |].
      assert (Hin : Mem.in_range (buf fs) 0 k = true)
        by (apply in_range_true; unfold cap in *; lia).
      rewrite Hin. simpl.
      destruct (memmove_returns (buf fs) 0 (k + 1) (k + 1)) as [b Hb].
      { right. unfold cap in *. lia. }
      rewrite Hb. simpl. eexists. split; [reflexivity |]. simpl.
      rewrite (ptr_small (p fs - (k + 1))) by lia.
      rewrite (wrap_small (point_offs fs - (k + 1))) by lia.
      rewrite <- app_assoc.
      repeat split.
      unfold cap. simpl. eapply memmove_blen; [| exact Hb]. lia.
    - assert (k = 0) by lia. subst k. simpl.
      destruct (memmove_returns (buf fs) 0 1 1) as [b Hb].
      { right. unfold cap in *. lia. }
      rewrite Hb. simpl. eexists. split; [reflexivity |]. simpl.
      rewrite (ptr_small (p fs - 1)) by lia.
      rewrite (wrap_small (point_offs fs - 1)) by lia.
      change (Mem.slice (buf fs) 0 0) with (@nil byte).
      rewrite taken_nil. simpl.
      repeat split.
      unfold cap. simpl. eapply memmove_blen; [| exact Hb]. lia. }
  destruct Hstep as (fs1 & Hrun & H1).
  exists fs1. split; [exact Hrun |]. split; [apply Hloop; exact Hrun |].
  exact H1.
Qed.

(** The turn that finds none, for any [queue]: the terminator is stored
    at [queue - 1] and both cursors are lowered by [queue],
    [point_offs] as a [size_t]. *)
Lemma reclaim_turn_forced :
  (forall j, 0 <= j < point_offs fs -> Mem.get (buf fs) j <> NL) ->
  point_offs fs <= cap fs ->
  1 <= queue ->
  2 * queue <= cap fs ->
  exists fs1,
    reclaim_step E queue fs = Ret fs1 /\
    reclaim E (S fuel) queue sn fs = reclaim E fuel queue sn fs1 /\
    stream fs1 = stream fs ++ taken E (Mem.slice (buf fs) 0 (queue - 1))
                   ++ taken E [NL] /\
    p fs1 = p fs - queue /\
    point_offs fs1 = Mach.wrap (point_offs fs - queue) /\
    same_frame fs fs1.
Proof.
  pose proof reclaim_goes_on as Hloop.
  intros Hnone Hin Hq Hfit.
  assert (Habsent : Mem.memchr (buf fs) 0 NL (point_offs fs) = Ret None).
  { apply memchr_absent; try lia; [unfold cap in *; lia |].
    intros j Hj. apply Hnone. lia. }
  assert (Hstep : exists fs1, reclaim_step E queue fs = Ret fs1 /\
     stream fs1 = stream fs ++ taken E (Mem.slice (buf fs) 0 (queue - 1))
                    ++ taken E [NL] /\
     p fs1 = p fs - queue /\
     point_offs fs1 = Mach.wrap (point_offs fs - queue) /\
     same_frame fs fs1).
  { unfold reclaim_step. rewrite Habsent. simpl.
    rewrite (ptr_small (queue - 1)) by lia.
    destruct (store_returns (buf fs) (queue - 1) NL) as [b1 Hb1].
    { unfold cap in *. lia. }
    rewrite Hb1. simpl.
    pose proof (store_inv _ _ _ _ Hb1) as (_ & _ & Hlen1).
    replace (queue - 1 + 1) with queue by lia.
    rewrite (wrap_small (queue - 1)) by lia.
    rewrite (ptr_small queue) by lia.
    rewrite (wrap_small queue) by lia.
    destruct (queue - 1 >? 0) eqn:Hq0.
    - unfold fwrite_unlocked. simpl.
      destruct (queue - 1 =? 0) eqn:Hqz; [lia |].
      assert (Hin1 : Mem.in_range b1 0 (queue - 1) = true)
        by (apply in_range_true; unfold cap in *; lia).
      rewrite Hin1. simpl.
      destruct (memmove_returns b1 0 queue queue) as [b Hb].
      { right. unfold cap in *. lia. }
      rewrite Hb. simpl. eexists. split; [reflexivity |]. simpl.
      rewrite (ptr_small (p fs - queue)) by lia.
      rewrite (slice_store_before _ _ _ _ _ Hb1) by lia.
      rewrite <- app_assoc.
      repeat split.
      unfold cap. simpl.
      rewrite <- Hlen1. eapply memmove_blen; [| exact Hb]. lia.
    - assert (queue = 1) by lia. subst queue. simpl.
      destruct (memmove_returns b1 0 1 1) as [b Hb].
      { right. unfold cap in *. lia. }
      rewrite Hb. simpl. eexists. split; [reflexivity |]. simpl.
      rewrite (ptr_small (p fs - 1)) by lia.
      change (Mem.slice (buf fs) 0 0) with (@nil byte).
      rewrite taken_nil. simpl.
      repeat split.
      unfold cap. simpl.
      rewrite <- Hlen1. eapply memmove_blen; [| exact Hb]. lia. }
  destruct Hstep as (fs1 & Hrun & Hs & Hp1 & Hpo1 & Hfr).
  exists fs1. split; [exact Hrun |]. split; [apply Hloop; exact Hrun |].
  repeat split; try assumption; apply Hfr.
Qed.

End Turn.

(** C4, as amended.  A turn of the loop that frees space, taken when
    the splicer lacks room.  If the first line terminator among the
    bytes before [point_offs] stands at offset [k], the turn sends the
    bytes [0, k) and a terminator to the sink and lowers [p] and
    [point_offs] by [k + 1], the number of bytes sent.  If there is
    none and the turn is the first, [queue] being the point at which
    the splicer was entered, the turn makes the byte just before
    [point_offs] a terminator, sends the bytes before it and a
    terminator to the sink, and lowers [p] and [point_offs] by
    [point_offs], the number of bytes sent.  In both cases the loop
    goes on from the state the turn leaves. *)
Theorem reclaim_turn (fuel : nat) (queue sn : Z) (fs : fmtstream) :
  Mach.ptr (p fs + sn) > cap fs ->
  - 2 ^ 62 <= p fs <= 2 ^ 62 ->
  cap fs < 2 ^ 62 ->
  0 <= point_offs fs < 2 ^ 64 ->
  (forall k,
     0 <= k < point_offs fs ->
     Mem.get (buf fs) k = NL ->
     (forall j, 0 <= j < k -> Mem.get (buf fs) j <> NL) ->
     2 * (k + 1) <= cap fs ->
     exists fs1,
       reclaim_step E queue fs = Ret fs1 /\
       reclaim E (S fuel) queue sn fs = reclaim E fuel queue sn fs1 /\
       stream fs1 = stream fs ++ taken E (Mem.slice (buf fs) 0 k)
                      ++ taken E [NL] /\
       p fs1 = p fs - (k + 1) /\
       point_offs fs1 = point_offs fs - (k + 1) /\
       same_frame fs fs1) /\
  ((forall j, 0 <= j < point_offs fs -> Mem.get (buf fs) j <> NL) ->
   queue = Mach.ptr (point_offs fs) ->
   1 <= point_offs fs ->
   2 * point_offs fs <= cap fs ->
   exists fs1,
     reclaim_step E queue fs = Ret fs1 /\
     reclaim E (S fuel) queue sn fs = reclaim E fuel queue sn fs1 /\
     stream fs1 = stream fs
                    ++ taken E (Mem.slice (buf fs) 0 (point_offs fs - 1))
                    ++ taken E [NL] /\
     p fs1 = p fs - point_offs fs /\
     point_offs fs1 = point_offs fs - point_offs fs /\
     same_frame fs fs1).
Proof.
  intros Hlack Hp Hcap Hpo. split.
  - intros k. apply reclaim_turn_found; assumption.
  - intros Hnone Hq Hq1 Hfit.
    rewrite ptr_small in Hq by lia.
    destruct (reclaim_turn_forced fuel queue sn fs Hlack Hp Hcap Hpo Hnone)
      as (fs1 & Hrun & Hgo & Hs & Hp1 & Hpo1 & Hfr); [lia | lia | lia |].
    exists fs1. subst queue.
    split; [exact Hrun |]. split; [exact Hgo |].
    split; [exact Hs |]. split; [exact Hp1 |]. split; [| exact Hfr].
    rewrite Hpo1. rewrite Z.sub_diag. reflexivity.
Qed.

End Reclaim.

(** C4, counterexample.  Two terminators stand before [point_offs] in
    a full buffer of eight bytes, at offsets 1 and 3, and there is no
    room for a suffix of one byte.  The turn sends
    ["a\n"] to the sink, the bytes up to the first of them, and lowers
    [p] and [point_offs] by 2; the pending bytes are then ["b\nb\ncd"],
    where ["b\n"] stands twice and ["ef"] is gone.

    In a second full buffer, ["a\nbcdefg"] with the point at offset 4
    and three bytes missing, the first turn sends ["a\n"] and leaves
    [point_offs] at 2 with no terminator before it.  The second turn
    does not touch the byte just before [point_offs], at offset 1: it
    stores the terminator at offset 3, one byte before the point at
    which the splicer was entered, sends the four bytes ["bcb\n"],
    lowers [p] by 4 and takes [point_offs] from 2 to 2^64 - 2. *)
Lemma reclaim_takes_first_terminator :
  (exists fs1,
     Mach.ptr (p crowded_state + 1) > cap crowded_state /\
     Mem.get (buf crowded_state) 3 = NL /\
     reclaim_step plain_env 4 crowded_state = Ret fs1 /\
     stream fs1 = bytes_of "a" ++ [NL] /\
     p fs1 = 6 /\ point_offs fs1 = 2 /\
     pending crowded_state
       = bytes_of "a" ++ [NL] ++ bytes_of "b" ++ [NL] ++ bytes_of "cdef" /\
     pending fs1
       = bytes_of "b" ++ [NL] ++ bytes_of "b" ++ [NL] ++ bytes_of "cd") /\
  (exists fs1 fs2,
     Mach.ptr (point_offs lone_terminator_state) = 4 /\
     Mach.ptr (p lone_terminator_state + 3) > cap lone_terminator_state /\
     reclaim_step plain_env 4 lone_terminator_state = Ret fs1 /\
     stream fs1 = bytes_of "a" ++ [NL] /\
     p fs1 = 6 /\ point_offs fs1 = 2 /\
     Mem.slice (buf fs1) 0 2 = bytes_of "bc" /\
     Mach.ptr (p fs1 + 3) > cap fs1 /\
     reclaim_step plain_env 4 fs1 = Ret fs2 /\
     stream fs2 = bytes_of "a" ++ [NL] ++ bytes_of "bcb" ++ [NL] /\
     p fs2 = p fs1 - 4 /\
     point_offs fs2 = 2 ^ 64 - 2 /\
     reclaim plain_env 2 4 3 lone_terminator_state = Ret fs2).
Proof.
  split.
  - eexists. split; [vm_compute; reflexivity |].
    split; [reflexivity |].
    split; [vm_compute; reflexivity |]. repeat split.
  - eexists. eexists.
    split; [vm_compute; reflexivity |].
    split; [vm_compute; reflexivity |].
    split; [vm_compute; reflexivity |].
    split; [reflexivity |]. split; [reflexivity |]. split; [reflexivity |].
    split; [reflexivity |].
    split; [vm_compute; reflexivity |].
    split; [vm_compute; reflexivity |].
    split; [reflexivity |]. split; [reflexivity |].
    split; vm_compute; reflexivity.
Qed.

(** The hypotheses of [reclaim_turn] hold on the first of these
    buffers, which lacks room for one more byte, with the first
    terminator at offset 1; and on a full buffer without terminator
    entered with the point at offset 4, where the turn sends ["abc\n"]
    and lowers [p] and [point_offs] by 4. *)
Lemma reclaim_turn_witness :
  (exists fs1,
     reclaim_step plain_env 4 crowded_state = Ret fs1 /\
     stream fs1 = bytes_of "a" ++ [NL] /\
     p fs1 = 6 /\ point_offs fs1 = 2) /\
  (exists fs1,
     reclaim_step plain_env 4 unbroken_state = Ret fs1 /\
     stream fs1 = bytes_of "abc" ++ [NL] /\
     p fs1 = 4 /\ point_offs fs1 = 0).
Proof.
  split.
  - destruct (reclaim_turn plain_env 0 4 1 crowded_state) as [Hfound _].
    + vm_compute. reflexivity.
    + vm_compute. split; discriminate.
    + vm_compute. reflexivity.
    + vm_compute. split; [discriminate | reflexivity].
    + destruct (Hfound 1) as (fs1 & Hrun & _ & Hs & Hp & Hpo & _).
      * vm_compute. split; [discriminate | reflexivity].
      * vm_compute. reflexivity.
      * intros j Hj. assert (j = 0) by lia. subst j. vm_compute. discriminate.
      * vm_compute. discriminate.
      * exists fs1. split; [exact Hrun |]. split; [exact Hs |].
        split; [exact Hp | exact Hpo].
  - destruct (reclaim_turn plain_env 0 4 1 unbroken_state) as [_ Hnone].
    + vm_compute. reflexivity.
    + vm_compute. split; discriminate.
    + vm_compute. reflexivity.
    + vm_compute. split; [discriminate | reflexivity].
    + destruct Hnone as (fs1 & Hrun & _ & Hs & Hp & Hpo & _).
      * intros j Hj.
        assert (Hj' : j = 0 \/ j = 1 \/ j = 2 \/ j = 3)
          by (change (point_offs unbroken_state) with 4 in Hj; lia).
        destruct Hj' as [-> | [-> | [-> | ->]]]; vm_compute; discriminate.
      * vm_compute. reflexivity.
      * vm_compute. discriminate.
      * vm_compute. discriminate.
      * exists fs1. split; [exact Hrun |].
        assert (Hrun' := Hrun). vm_compute in Hrun'. injection Hrun' as <-.
        vm_compute. auto.
Defined.

(** ** The point after a rewrite pass *)

Ltac mach_lia :=
  unfold Mach.ptr, Mach.sgn, Mach.wrap, Mach.size_mod, Mach.half_mod in *; lia.

Section Cursors.

Variable E : env.

Lemma reclaim_step_cursors (queue : Z) (fs fs' : fmtstream) :
  reclaim_step E queue fs = Ret fs' ->
  0 <= point_offs fs ->
  exists k, 1 <= k <= cap fs /\
            p fs' = Mach.ptr (p fs - k) /\
            point_offs fs' = Mach.wrap (point_offs fs - k).
Proof.
  unfold reclaim_step. intros H Hpo.
  bind_inv H. bind_inv H. destruct a0 as [nl b1]. simpl in H.
  bind_inv H. destruct a0 as [w fs1]. simpl in H.
  bind_inv H. injection H as <-. simpl.
  assert (Hnl : 0 <= nl < cap fs).
  { destruct a as [k |].
    - injection Ha0 as <- <-.
      apply memchr_found in Ha; [| exact Hpo]. unfold cap. lia.
    - bind_inv Ha0. injection Ha0 as <- <-.
      apply store_inv in Ha3. unfold cap. lia. }
  assert (Hfs1 : p fs1 = p fs /\ point_offs fs1 = point_offs fs).
  { destruct (nl >? 0).
    - apply fwrite_frame in Ha1. simpl in Ha1. intuition congruence.
    - injection Ha1 as <- <-. simpl. auto. }
  destruct Hfs1 as [-> ->].
  exists (nl + 1). repeat split; lia.
Qed.

Lemma reclaim_cursors (fuel : nat) (queue s : Z) (fs fs' : fmtstream) :
  reclaim E fuel queue (Mach.wrap s) fs = Ret fs' ->
  in_bounds fs ->
  Mach.ptr (point_offs fs) <= 2 ^ 62 ->
  - 2 ^ 60 <= s <= 2 ^ 60 + 2 ->
  in_bounds fs' /\ point_ahead fs' = point_ahead fs /\
  Mach.ptr (point_offs fs') <= Mach.ptr (point_offs fs).
Proof.
  revert fs. induction fuel as [| fuel IH]; simpl; intros fs H Hin Ho Hs.
  - destruct (Mach.ptr (p fs + Mach.wrap s) >? cap fs); [discriminate |].
    injection H as <-. repeat split; (apply Hin || lia).
  - destruct (Mach.ptr (p fs + Mach.wrap s) >? cap fs) eqn:Hc.
    2: { injection H as <-. repeat split; (apply Hin || lia). }
    bind_inv H. rename a into fs1.
    destruct Hin as (Hcap & Hwm & Hp & Hd & Hpo).
    pose proof (reclaim_step_frame _ _ _ _ Ha) as (Hfr & _).
    destruct (reclaim_step_cursors _ _ _ Ha Hpo) as (k & Hk & Hp1 & Hpo1).
    assert (Hcap0 : 0 <= cap fs) by apply blen_nonneg.
    assert (Hlack : p fs + s > cap fs).
    { rewrite ptr_wrap_sum in Hc. rewrite ptr_small in Hc by lia. lia. }
    unfold point_ahead in *.
    assert (Hp1' : p fs1 = p fs - k) by (rewrite Hp1; apply ptr_small; lia).
    assert (Ho1 : Mach.ptr (point_offs fs1) = Mach.ptr (point_offs fs) - k).
    { rewrite Hpo1. clear - Hk Hcap Hd Hp Ho Hlack Hs Hcap0. mach_lia. }
    assert (Hin1 : in_bounds fs1).
    { unfold in_bounds, point_ahead. rewrite Ho1, Hp1'.
      destruct Hfr as (-> & _ & _ & ->).
      repeat split; try lia. rewrite Hpo1. apply wrap_range. }
    destruct (IH fs1 H Hin1) as (Hin' & Hd' & Ho'); [lia | lia |].
    split; [exact Hin' |]. unfold point_ahead in *. split; lia.
Qed.

Lemma margin_loop_cursors (n : nat) (fs fs' : fmtstream) :
  margin_loop n fs = Ret fs' ->
  cap fs < 2 ^ 60 ->
  0 <= point_offs fs ->
  Mach.ptr (point_offs fs) <= Mach.ptr (point_offs fs') /\
  Mach.ptr (point_offs fs') <= Z.max (Mach.ptr (point_offs fs)) (cap fs) /\
  0 <= point_offs fs'.
Proof.
  revert fs. induction n as [| n IH]; simpl; intros fs H Hcap Hpo.
  - injection H as <-. lia.
  - destruct (point_col fs =? -1).
    + injection H as <-. lia.
    + bind_inv H. apply store_inv in Ha. destruct Ha as (Hi & _ & Hlen).
      apply IH in H.
      * simpl in H. unfold cap in *. simpl in H. rewrite Hlen in H.
        assert (Hnext : Mach.ptr (Mach.wrap (point_offs fs + 1))
                        = Mach.ptr (point_offs fs) + 1).
        { clear - Hi Hcap. mach_lia. }
        rewrite Hnext in H. lia.
      * unfold cap in *. simpl. lia.
      * simpl. apply wrap_range.
Qed.

(** The splicer moves the point ahead of [p] by the length of the
    suffix at least. *)
Lemma line_at_point_cursors (fuel : nat) (fs fs' : fmtstream)
    (suffix : option (list byte)) (m : Z) :
  line_at_point E fuel fs suffix = Ret fs' ->
  in_bounds fs ->
  Mach.ptr (point_offs fs) <= m -> cap fs <= m -> m <= 2 ^ 62 - 2 ->
  suffix_len suffix <= 2 ->
  in_bounds fs' /\
  point_ahead fs + suffix_len suffix <= point_ahead fs' /\
  Mach.ptr (point_offs fs') <= m + suffix_len suffix.
Proof.
  unfold line_at_point. intros H Hin Ho Hcm Hm Hlen.
  assert (Hsl : 0 <= suffix_len suffix).
  { destruct suffix; simpl; [apply blen_nonneg | lia]. }
  rewrite wrap_wrap_sum in H.
  bind_inv H. rename a into fs1. bind_inv H. rename a into b.
  bind_inv H. rename a into fs2. bind_inv H. rename a into fs3.
  injection H as <-.
  pose proof Hin as (Hcap & Hwm & _).
  pose proof (reclaim_frame _ _ _ _ _ _ Ha) as ((Hcap10 & _) & _).
  apply reclaim_cursors in Ha; [| exact Hin | lia | lia].
  destruct Ha as (Hin1 & Hd1 & Ho1).
  destruct Hin1 as (Hcap1 & Hwm1 & Hp1 & Hd1' & Hpo1).
  apply memmove_blen in Ha0; [| apply wrap_range].
  assert (H2 : cap fs2 = cap fs1 /\ p fs2 = p fs1 /\ wmargin fs2 = wmargin fs1 /\
               0 <= point_offs fs2 /\
               Mach.ptr (point_offs fs2)
               = Mach.ptr (point_offs fs1) + suffix_len suffix).
  { destruct suffix as [s |]; simpl in *.
    - bind_inv Ha1. injection Ha1 as <-. apply memcpy_blen in Ha.
      unfold cap. simpl. repeat split; try congruence; [apply wrap_range |].
      unfold point_ahead in *. clear - Ho1 Ho Hm Hd1' Hp1 Hsl Hlen. mach_lia.
    - injection Ha1 as <-. unfold cap. simpl.
      repeat split; try congruence; lia. }
  destruct H2 as (Hcap2 & Hp2 & Hwm2 & Hpo2 & Ho2).
  pose proof (margin_loop_frame _ _ _ Ha2) as (Hfr3 & Hp3 & _).
  apply margin_loop_cursors in Ha2; [| lia | exact Hpo2].
  destruct Ha2 as (Hlo3 & Hhi3 & Hpo3).
  destruct Hfr3 as (Hc3 & _ & _ & Hw3).
  unfold in_bounds, point_ahead in *.
  change (cap (set_point_col fs3 (Mach.sgn (lmargin fs3)))) with (cap fs3).
  simpl.
  rewrite Hc3, Hw3, Hp3, Hcap2, Hwm2, Hp2.
  repeat split; lia.
Qed.

Lemma wrap_step_cursors (fuel : nat) (l : brk) (fs fs' : fmtstream) (m : Z) :
  wrap_step E fuel l fs = Ret fs' ->
  in_bounds fs ->
  Mach.ptr (point_offs fs) <= m -> cap fs <= m -> m <= 2 ^ 62 - 4 ->
  in_bounds fs' /\
  point_ahead fs + 1 <= point_ahead fs' /\
  Mach.ptr (point_offs fs') <= m + 2.
Proof.
  intros H Hin Ho Hcm Hm.
  assert (Hstep : in_bounds (set_point_offs fs (Mach.wrap (point_offs fs + 1))) /\
                  point_ahead (set_point_offs fs (Mach.wrap (point_offs fs + 1)))
                  = point_ahead fs + 1 /\
                  Mach.ptr (Mach.wrap (point_offs fs + 1))
                  = Mach.ptr (point_offs fs) + 1).
  { destruct Hin as (Hcap & Hwm & Hp & Hd & Hpo).
    assert (Hnext : Mach.ptr (Mach.wrap (point_offs fs + 1))
                    = Mach.ptr (point_offs fs) + 1).
    { unfold point_ahead in Hd. clear - Hd Hp Ho Hm. mach_lia. }
    unfold in_bounds, point_ahead, cap in *. simpl. rewrite Hnext.
    repeat split; try lia. apply wrap_range. }
  destruct Hstep as (Hin1 & Hd1 & Ho1).
  destruct l; simpl in H.
  - injection H as <-. simpl. split; [exact Hin1 | split; lia].
  - apply (line_at_point_cursors _ _ _ _ m) in H;
      [| exact Hin | lia | lia | lia | simpl; unfold Mem.blen; simpl; lia].
    change (suffix_len (Some [NL])) with 1 in H.
    destruct H as (H1 & H2 & H3). split; [exact H1 | split; lia].
  - apply (line_at_point_cursors _ _ _ _ m) in H;
      [| exact Hin | lia | lia | lia | simpl; unfold Mem.blen; simpl; lia].
    change (suffix_len (Some [HYPHEN; NL])) with 2 in H.
    destruct H as (H1 & H2 & H3). split; [exact H1 | split; lia].
  - apply (line_at_point_cursors _ _ _ _ (m + 1)) in H;
      [| exact Hin1 | simpl; lia
       | change (cap fs <= m + 1); lia | lia | simpl; lia].
    change (suffix_len None) with 0 in H.
    destruct H as (H1 & H2 & H3). split; [exact H1 | split; lia].
Qed.

Lemma wrap_loop_cursors (fuel : nat) (lns : list brk) (fs fs' : fmtstream)
    (m : Z) :
  wrap_loop E fuel lns fs = Ret fs' ->
  in_bounds fs ->
  Mach.ptr (point_offs fs) <= m -> cap fs <= m ->
  m + 2 * Z.of_nat (length lns) <= 2 ^ 62 - 4 ->
  in_bounds fs' /\
  point_ahead fs + Z.of_nat (length lns) <= point_ahead fs'.
Proof.
  revert fs m. induction lns as [| l lns IH]; simpl length; intros fs m H Hin Ho Hcm Hm.
  - simpl in H. injection H as <-. split; [exact Hin | lia].
  - simpl in H. bind_inv H. rename a into fs1.
    pose proof (wrap_step_frame _ _ _ _ _ Ha) as (Hc1 & _).
    apply (wrap_step_cursors _ _ _ _ m) in Ha; [| exact Hin | lia | lia | lia].
    destruct Ha as (Hin1 & Hd1 & Ho1).
    apply (IH fs1 (m + 2)) in H; [| exact Hin1 | lia | lia | lia].
    destruct H as (Hin' & Hd'). split; [exact Hin' | lia].
Qed.

(** The turn that ends the truncating loop at the last line leaves the
    point at or ahead of [p]. *)
Lemma truncate_step_last (fuel : nat) (queue : Z) (fs fs' : fmtstream) :
  truncate_step E fuel queue fs = Ret (false, fs') ->
  cap fs < 2 ^ 60 ->
  wmargin fs = -1 ->
  p fs' <= Mach.ptr (point_offs fs').
Proof.
  unfold truncate_step. intros H Hcap Hwm. bind_inv H.
  destruct a as [nl |].
  { bind_inv H. discriminate. }
  bind_inv H. bind_inv H. rename a0 into b.
  destruct a as [nl |].
  { bind_inv H. bind_inv H. discriminate. }
  bind_inv H. injection H as <-. rename a into fs1.
  apply store_inv in Ha1. simpl in Ha1. destruct Ha1 as (Hi & _ & Hlen).
  set (po1 := Mach.wrap (point_offs fs + search_limit fs)) in *.
  assert (Hnext : Mach.ptr (Mach.wrap (po1 + 1)) = Mach.ptr po1 + 1).
  { unfold cap in Hcap. clear - Hi Hcap. mach_lia. }
  apply (line_at_point_cursors _ _ _ _ (2 ^ 60)) in Ha2.
  - destruct Ha2 as (_ & Hd & _). unfold point_ahead in Hd. simpl in Hd.
    rewrite Hnext in Hd. lia.
  - unfold in_bounds, point_ahead, cap in *. simpl. rewrite Hnext, Hlen, Hwm.
    repeat split; try lia. apply wrap_range.
  - simpl. rewrite Hnext. unfold cap in Hcap. lia.
  - unfold cap in *. simpl. lia.
  - lia.
  - simpl. lia.
Qed.

Lemma truncate_loop_reaches (fuel n : nat) (queue : Z) (fs fs' : fmtstream) :
  truncate_loop E fuel n queue fs = Ret fs' ->
  cap fs < 2 ^ 60 ->
  wmargin fs = -1 ->
  p fs' <= Mach.ptr (point_offs fs').
Proof.
  revert fs. induction n as [| n IH]; simpl; intros fs H Hcap Hwm.
  - destruct (Mach.ptr (point_offs fs) <? p fs) eqn:Hc; [discriminate |].
    injection H as <-. lia.
  - destruct (Mach.ptr (point_offs fs) <? p fs) eqn:Hc.
    2: { injection H as <-. lia. }
    bind_inv H. destruct a as [go fs1]. simpl in H.
    destruct go.
    + pose proof (truncate_step_frame _ _ _ _ _ _ Ha) as (Hc1 & _ & _ & Hw1).
      apply IH in H; [exact H | lia | congruence].
    + injection H as <-. eapply truncate_step_last; eauto.
Qed.

(** A rewrite pass that returns without having given up for lack of
    memory leaves the point at [p] or ahead of it. *)
Lemma update_reaches (fuel : nat) (fs fs1 : fmtstream) :
  sane fs ->
  scratch_granted E fs ->
  __argp_fmtstream_update E fuel fs = Ret fs1 ->
  p fs1 <= Mach.ptr (point_offs fs1).
Proof.
  intros ((Hpo0 & Hpop & Hpc) & Hcap & Hwm) Hmem H.
  unfold __argp_fmtstream_update in H.
  destruct (Mach.ptr (point_offs fs) >=? p fs) eqn:Hearly.
  { injection H as <-. lia. }
  destruct (wmargin fs =? -1) eqn:Htrunc.
  { eapply truncate_loop_reaches; eauto. lia. }
  rewrite Hmem in H by lia. simpl negb in H. cbv iota in H.
  destruct (negb (Mem.in_range _ _ _)); [discriminate |].
  bind_inv H. rename a into fs2. injection H as <-. simpl.
  assert (Hptr : Mach.ptr (point_offs fs) = point_offs fs)
    by (apply ptr_small; lia).
  rewrite Hptr in *.
  assert (Hlen : Mach.wrap (p fs - point_offs fs) = p fs - point_offs fs)
    by (apply wrap_small; lia).
  rewrite Hlen in Ha.
  apply (wrap_loop_cursors _ _ _ _ (2 ^ 60)) in Ha.
  - destruct Ha as (_ & Hd). unfold labels in Hd.
    rewrite length_map, length_seq in Hd.
    unfold point_ahead in Hd. rewrite Hptr in Hd. lia.
  - unfold in_bounds, point_ahead. rewrite Hptr. repeat split; lia.
  - rewrite Hptr. lia.
  - lia.
  - unfold labels. rewrite length_map, length_seq. lia.
Qed.

(** With the point at [p] or ahead of it the rewrite pass returns at
    once, in every world. *)
Lemma update_nothing_left (E2 : env) (fuel : nat) (fs : fmtstream) :
  p fs <= Mach.ptr (point_offs fs) ->
  __argp_fmtstream_update E2 fuel fs = Ret fs.
Proof.
  intros Hle. unfold __argp_fmtstream_update.
  destruct (Mach.ptr (point_offs fs) >=? p fs) eqn:Hc; [reflexivity | lia].
Qed.

(** C9, as amended.  The rewrite pass is idempotent unless it gives up
    for lack of memory.  From a state with ordered cursors, and with
    the scratch array of the first call granted, two calls in
    succession with no append in between have the outcome of the
    first call alone: when the first call returns, the second returns
    at once with the very same state (the sink, the buffer, [p],
    [point_offs] and [point_col] are those the first call left),
    whatever the world of the second call; when the first call does
    not return, neither does the pair. *)
Theorem update_idempotent (E2 : env) (fuel1 fuel2 : nat) (fs : fmtstream) :
  sane fs ->
  scratch_granted E fs ->
  update_twice E E2 fuel1 fuel2 fs = __argp_fmtstream_update E fuel1 fs.
Proof.
  intros Hsane Hmem. unfold update_twice.
  destruct (__argp_fmtstream_update E fuel1 fs) as [fs1 | |] eqn:H;
    [| reflexivity | reflexivity].
  simpl. apply update_nothing_left. eapply update_reaches; eauto.
Qed.

End Cursors.

(** The hypotheses of [update_idempotent] hold on the stream of the
    truncating session: a second rewrite pass changes nothing, also in
    a world without scratch memory. *)
Lemma update_idempotent_witness :
  exists fs fs1,
    truncate_demo = Ret fs /\ sane fs /\
    __argp_fmtstream_update plain_env 20 fs = Ret fs1 /\
    point_offs fs1 = 6 /\ p fs1 = 6 /\
    update_twice plain_env starved_env 20 20 fs = Ret fs1.
Proof.
  set (fs := match truncate_demo with Ret x => x | _ => fresh_stream zero_heap 0 5 (-1) end).
  set (fs1 := match __argp_fmtstream_update plain_env 20 fs with
              | Ret x => x | _ => fs end).
  assert (Hfs : truncate_demo = Ret fs) by (vm_compute; reflexivity).
  assert (Hsane : sane fs).
  { unfold sane, cursors_ordered. vm_compute.
    repeat split; discriminate. }
  assert (Hmem : scratch_granted plain_env fs) by (intros _ _; reflexivity).
  assert (Hrun : __argp_fmtstream_update plain_env 20 fs = Ret fs1)
    by (vm_compute; reflexivity).
  exists fs, fs1. split; [exact Hfs |]. split; [exact Hsane |].
  split; [exact Hrun |]. split; [vm_compute; reflexivity |].
  split; [vm_compute; reflexivity |].
  rewrite (update_idempotent plain_env starved_env 20 20 fs Hsane Hmem).
  exact Hrun.
Defined.

(** C9, counterexample.  Six bytes are pending and none is processed.
    A rewrite pass whose scratch allocation fails returns with the
    state as it was, [point_offs] at 0; a second pass, whose allocation
    succeeds, moves [point_offs] to 6.  Two calls do not leave the
    state one call leaves. *)
Lemma second_pass_after_failed_malloc :
  exists fs2,
    sane marginless_state /\
    __argp_fmtstream_update starved_env 1 marginless_state
      = Ret marginless_state /\
    point_offs marginless_state = 0 /\
    update_twice starved_env newline_env 1 1 marginless_state = Ret fs2 /\
    point_offs fs2 = 6 /\
    update_twice starved_env newline_env 1 1 marginless_state
      <> __argp_fmtstream_update starved_env 1 marginless_state.
Proof.
  eexists.
  split.
  { unfold sane, cursors_ordered. vm_compute. repeat split; discriminate. }
  split; [vm_compute; reflexivity |]. split; [reflexivity |].
  split; [vm_compute; reflexivity |]. split; [reflexivity |].
  vm_compute. discriminate.
Qed.

(** * Further properties *)

(** ** Appending *)

Section Printf.

Variable E : env.

Lemma to_int_small (x : Z) : - 2 ^ 31 <= x < 2 ^ 31 -> Mach.to_int x = x.
Proof. unfold Mach.to_int. intros H. lia. Qed.

Lemma next_guess_small (out : Z) :
  0 <= out < 2 ^ 31 - 1 -> next_guess out = out + 1.
Proof. unfold next_guess, Mach.to_int, Mach.wrap, Mach.size_mod. lia. Qed.

(** At [INT_MAX] the sum wraps to [INT_MIN], a huge [size_t]. *)
Lemma next_guess_range (out : Z) :
  0 <= out < 2 ^ 31 -> out < next_guess out <= 2 ^ 64 - 2 ^ 31.
Proof. unfold next_guess, Mach.to_int, Mach.wrap, Mach.size_mod. lia. Qed.

Lemma ensure_with_room (fuel : nat) (fs : fmtstream) (amount : Z) :
  amount <= Mach.wrap (cap fs - p fs) ->
  __argp_fmtstream_ensure E fuel fs amount = Ret (EnsureOk, fs).
Proof.
  intros H. unfold __argp_fmtstream_ensure.
  destruct (Mach.wrap (cap fs - p fs) <? amount) eqn:Hc; [lia | reflexivity].
Qed.

Lemma memcpy_nonempty (b t : list byte) (dst : Z) :
  t <> [] -> 0 <= dst -> dst + Mem.blen t <= Mem.blen b ->
  Mem.memcpy b dst t = Ret (Mem.splice b dst t).
Proof.
  intros Ht Hd Hfit. unfold Mem.memcpy. destruct t as [| c t]; [congruence |].
  assert (Hr : Mem.in_range b dst (Mem.blen (c :: t)) = true)
    by (apply in_range_true; lia).
  rewrite Hr. reflexivity.
Qed.

Lemma blen_app (a b : list byte) : Mem.blen (a ++ b) = Mem.blen a + Mem.blen b.
Proof. unfold Mem.blen. rewrite length_app. lia. Qed.

(** The pending bytes after [t] has been written at [p] and [p] moved
    [n] bytes on. *)
Lemma slice_splice_prefix (b t : list byte) (q n : Z) :
  0 <= q <= Mem.blen b -> 0 <= n <= Mem.blen t ->
  Mem.slice (Mem.splice b q t) 0 (q + n) = Mem.slice b 0 q ++ firstn (Z.to_nat n) t.
Proof.
  unfold Mem.slice, Mem.splice, Mem.blen. intros Hq Hn. simpl skipn.
  rewrite firstn_app, firstn_firstn, length_firstn.
  replace (Nat.min (Z.to_nat (q + n)) (Z.to_nat q)) with (Z.to_nat q) by lia.
  replace (Z.to_nat (q + n) - Nat.min (Z.to_nat q) (length b))%nat
    with (Z.to_nat n) by lia.
  f_equal. rewrite firstn_app.
  replace (Z.to_nat n - length t)%nat with O by lia.
  simpl. apply app_nil_r.
Qed.

Lemma vsnprintf_whole (fs : fmtstream) (avail : Z) (s : list byte) :
  0 <= p fs -> Mem.blen s < avail -> p fs + avail <= cap fs ->
  vsnprintf fs avail s = Ret (set_buf fs (Mem.splice (buf fs) (p fs) (s ++ [NUL]))).
Proof.
  intros Hp Hs Hav. unfold vsnprintf.
  pose proof (blen_nonneg s) as Hs0.
  destruct (avail =? 0) eqn:Ha; [lia |].
  rewrite firstn_all2 by (unfold Mem.blen in *; lia).
  rewrite memcpy_nonempty.
  - reflexivity.
  - destruct s; discriminate.
  - exact Hp.
  - rewrite blen_app. unfold cap in Hav. change (Mem.blen [NUL]) with 1. lia.
Qed.

(** The formatted text cut to the [avail - 1] bytes that fit. *)
Lemma vsnprintf_cut (fs : fmtstream) (avail : Z) (s : list byte) :
  0 <= p fs -> 0 < avail <= Mem.blen s -> p fs + avail <= cap fs ->
  exists b,
    vsnprintf fs avail s = Ret (set_buf fs b) /\ Mem.blen b = cap fs.
Proof.
  intros Hp Hav Hfit. unfold vsnprintf.
  destruct (avail =? 0) eqn:Ha; [lia |].
  assert (Hlen : Mem.blen (firstn (Z.to_nat (avail - 1)) s ++ [NUL]) = avail).
  { rewrite blen_app. unfold Mem.blen in *. rewrite length_firstn. simpl. lia. }
  rewrite memcpy_nonempty.
  - eexists. split; [reflexivity |]. unfold cap in *.
    apply splice_blen; lia.
  - destruct (firstn _ s); discriminate.
  - exact Hp.
  - unfold cap in Hfit. lia.
Qed.

(** [__argp_fmtstream_ensure] on a stream with nothing pending and a
    buffer smaller than [amount]. *)
Lemma ensure_empty_grows (fuel : nat) (fs : fmtstream) (amount : Z) :
  p fs = 0 -> point_offs fs = 0 ->
  cap fs < amount -> cap fs + amount < 2 ^ 64 ->
  match realloc_tail E (cap fs + amount) with
  | None =>
      __argp_fmtstream_ensure E fuel fs amount = Ret (EnsureNoMem, fs)
  | Some _ =>
      exists fs',
        __argp_fmtstream_ensure E fuel fs amount = Ret (EnsureOk, fs') /\
        p fs' = 0 /\ point_offs fs' = 0 /\ cap fs' = cap fs + amount /\
        stream fs' = stream fs /\ point_col fs' = point_col fs /\
        lmargin fs' = lmargin fs /\ rmargin fs' = rmargin fs /\
        wmargin fs' = wmargin fs
  end.
Proof.
  intros Hp Hpo Hlt Hov.
  pose proof (blen_nonneg (buf fs)) as Hc0. fold (cap fs) in Hc0.
  assert (Hsame : set_point_offs (set_p fs 0) 0 = fs).
  { destruct fs. simpl in *. subst. reflexivity. }
  unfold __argp_fmtstream_ensure.
  rewrite Hp. rewrite Z.sub_0_r. rewrite (wrap_small (cap fs)) by lia.
  destruct (cap fs <? amount) eqn:Hc; [| lia].
  unfold __argp_fmtstream_update. rewrite Hpo, Hp.
  change (Mach.ptr 0 >=? 0) with true. simpl bind.
  unfold fwrite_unlocked. rewrite Hp. change (Mach.wrap 0 =? 0) with true.
  simpl. rewrite Hp. change (Mach.sgn 0 =? 0) with true. cbv iota.
  rewrite Hsame. rewrite (wrap_small (cap fs)) by lia. rewrite Hc.
  rewrite (wrap_small (cap fs + amount)) by lia.
  destruct (cap fs + amount <? cap fs) eqn:Hc2; [lia |].
  destruct (realloc_tail E (cap fs + amount)) as [h |]; [| reflexivity].
  eexists. split; [reflexivity |]. simpl.
  repeat split; try assumption.
  unfold cap, Mem.blen in *. simpl.
  rewrite length_app, length_firstn, length_map, length_seq. lia.
Qed.

(** A turn of the loop of the append whose text fits after [ensure]:
    the last turn. *)
Lemma printf_loop_last (fuel n : nat) (fs fs1 : fmtstream) (s : list byte)
    (guess : Z) :
  __argp_fmtstream_ensure E fuel fs guess = Ret (EnsureOk, fs1) ->
  0 <= p fs1 <= cap fs1 -> cap fs1 < 2 ^ 62 ->
  Mem.blen s < cap fs1 - p fs1 -> Mem.blen s < 2 ^ 31 ->
  printf_loop E fuel (S n) guess fs s
  = Ret (Mem.blen s,
         set_p (set_buf fs1 (Mem.splice (buf fs1) (p fs1) (s ++ [NUL])))
           (p fs1 + Mem.blen s)).
Proof.
  intros Hens Hp Hcap Hfit Hint.
  pose proof (blen_nonneg s) as Hs0.
  simpl. rewrite Hens.
  simpl. rewrite (wrap_small (cap fs1 - p fs1)) by lia.
  rewrite (to_int_small (Mem.blen s)) by lia.
  rewrite vsnprintf_whole by lia. simpl.
  rewrite (wrap_small (Mem.blen s)) by lia.
  destruct (Mem.blen s >=? cap fs1 - p fs1) eqn:Hc; [lia |].
  rewrite (ptr_small (p fs1 + Mem.blen s)) by lia. reflexivity.
Qed.

(** A turn whose text does not fit: the loop goes on with the exact
    size. *)
Lemma printf_loop_retry (fuel n : nat) (fs fs1 : fmtstream) (s : list byte)
    (guess : Z) :
  __argp_fmtstream_ensure E fuel fs guess = Ret (EnsureOk, fs1) ->
  0 <= p fs1 < cap fs1 -> cap fs1 < 2 ^ 62 ->
  cap fs1 - p fs1 <= Mem.blen s -> Mem.blen s < 2 ^ 31 ->
  exists b,
    Mem.blen b = cap fs1 /\
    printf_loop E fuel (S n) guess fs s
    = printf_loop E fuel n (next_guess (Mem.blen s)) (set_buf fs1 b) s.
Proof.
  intros Hens Hp Hcap Hfit Hint.
  simpl. rewrite Hens.
  simpl. rewrite (wrap_small (cap fs1 - p fs1)) by lia.
  rewrite (to_int_small (Mem.blen s)) by lia.
  destruct (vsnprintf_cut fs1 (cap fs1 - p fs1) s) as (b & Hb & Hlen);
    [lia | lia | lia |].
  rewrite Hb. simpl.
  rewrite (wrap_small (Mem.blen s)) by lia.
  destruct (Mem.blen s >=? cap fs1 - p fs1) eqn:Hc; [| lia].
  exists b. split; [exact Hlen | reflexivity].
Qed.

Lemma pending_after_append (fs1 : fmtstream) (s : list byte) :
  0 <= p fs1 <= cap fs1 ->
  pending (set_p (set_buf fs1 (Mem.splice (buf fs1) (p fs1) (s ++ [NUL])))
             (p fs1 + Mem.blen s))
  = pending fs1 ++ s.
Proof.
  intros Hp. unfold pending. simpl.
  rewrite slice_splice_prefix.
  - f_equal. unfold Mem.blen. rewrite Nat2Z.id.
    rewrite firstn_app, firstn_all, Nat.sub_diag. simpl. apply app_nil_r.
  - exact Hp.
  - rewrite blen_app. pose proof (blen_nonneg s). change (Mem.blen [NUL]) with 1. lia.
Qed.

(** X1.  An append into a buffer with room.  When at least
    [PRINTF_SIZE_GUESS] bytes are free after [p] and the text [s] with
    its null byte fits there, [__argp_fmtstream_printf] returns the
    length of [s], the pending bytes are the former ones followed by
    [s], a null byte stands after them, [p] has moved by the length of
    [s], and the sink, the point, the column, the margins and the size
    of the buffer are as before. *)
Theorem printf_with_room (n : nat) (fs : fmtstream) (s : list byte) :
  0 <= p fs ->
  PRINTF_SIZE_GUESS <= cap fs - p fs ->
  cap fs < 2 ^ 62 ->
  Mem.blen s < cap fs - p fs ->
  Mem.blen s < 2 ^ 31 ->
  exists fs',
    __argp_fmtstream_printf E (S n) fs s = Ret (Mem.blen s, fs') /\
    pending fs' = pending fs ++ s /\
    Mem.get (buf fs') (p fs + Mem.blen s) = NUL /\
    p fs' = p fs + Mem.blen s /\
    stream fs' = stream fs /\
    point_offs fs' = point_offs fs /\
    point_col fs' = point_col fs /\
    same_frame fs fs'.
Proof.
  intros Hp Hroom Hcap Hfit Hint.
  pose proof (blen_nonneg s) as Hs0.
  unfold PRINTF_SIZE_GUESS in Hroom.
  unfold __argp_fmtstream_printf.
  rewrite (printf_loop_last (S n) n fs fs s PRINTF_SIZE_GUESS).
  - eexists. split; [reflexivity |].
    split; [apply pending_after_append; lia |].
    split.
    { simpl. rewrite get_splice.
      - destruct ((p fs <=? p fs + Mem.blen s) &&
                  (p fs + Mem.blen s <? p fs + Mem.blen (s ++ [NUL]))) eqn:Hc.
        + replace (p fs + Mem.blen s - p fs) with (Mem.blen s) by lia.
          unfold Mem.get, Mem.blen. rewrite Nat2Z.id.
          rewrite app_nth2 by lia. rewrite Nat.sub_diag. reflexivity.
        + rewrite blen_app in Hc. change (Mem.blen [NUL]) with 1 in Hc. lia.
      - lia.
      - rewrite blen_app. unfold cap in *. change (Mem.blen [NUL]) with 1. lia.
      - lia. }
    simpl. repeat split.
    unfold cap in *. simpl. apply splice_blen; [lia |].
    rewrite blen_app. change (Mem.blen [NUL]) with 1. lia.
  - apply ensure_with_room. rewrite wrap_small by lia.
    unfold PRINTF_SIZE_GUESS. lia.
  - lia.
  - lia.
  - lia.
  - lia.
Qed.

(** The run of an append on a stream with nothing pending. *)
Lemma printf_empty_run (n : nat) (fs : fmtstream) (s : list byte) :
  p fs = 0 -> point_offs fs = 0 ->
  PRINTF_SIZE_GUESS <= cap fs -> cap fs < 2 ^ 60 ->
  Mem.blen s < 2 ^ 31 - 1 ->
  (cap fs <= Mem.blen s ->
   realloc_tail E (cap fs + (Mem.blen s + 1)) <> None) ->
  exists fs',
    __argp_fmtstream_printf E (S (S n)) fs s = Ret (Mem.blen s, fs') /\
    pending fs' = s /\
    p fs' = Mem.blen s /\
    point_offs fs' = 0 /\
    stream fs' = stream fs /\
    cap fs' = (if Mem.blen s <? cap fs then cap fs
               else cap fs + (Mem.blen s + 1)) /\
    lmargin fs' = lmargin fs /\ rmargin fs' = rmargin fs /\
    wmargin fs' = wmargin fs /\ point_col fs' = point_col fs.
Proof.
  intros Hp Hpo Hroom Hcap Hint Hre.
  pose proof (blen_nonneg s) as Hs0.
  unfold PRINTF_SIZE_GUESS in Hroom.
  assert (Hens : __argp_fmtstream_ensure E (S (S n)) fs PRINTF_SIZE_GUESS
                 = Ret (EnsureOk, fs)).
  { apply ensure_with_room. rewrite Hp, Z.sub_0_r, wrap_small by lia.
    unfold PRINTF_SIZE_GUESS. lia. }
  unfold __argp_fmtstream_printf.
  destruct (Mem.blen s <? cap fs) eqn:Hfit.
  - rewrite (printf_loop_last _ _ _ fs) by (try exact Hens; lia).
    eexists. split; [reflexivity |].
    split.
    { rewrite pending_after_append by lia.
      unfold pending. rewrite Hp. reflexivity. }
    simpl. rewrite Hp, Hpo. repeat split.
    unfold cap in *. simpl. apply splice_blen; [lia |].
    rewrite blen_app. change (Mem.blen [NUL]) with 1. lia.
  - destruct (printf_loop_retry (S (S n)) (S n) fs fs s PRINTF_SIZE_GUESS)
      as (b & Hb & ->); try exact Hens; try lia.
    rewrite next_guess_small by lia.
    pose proof (ensure_empty_grows (S (S n)) (set_buf fs b) (Mem.blen s + 1))
      as Hgrow.
    unfold cap in Hgrow. simpl in Hgrow. rewrite Hb in Hgrow.
    specialize (Hgrow Hp Hpo ltac:(lia) ltac:(lia)).
    destruct (realloc_tail E (cap fs + (Mem.blen s + 1))) as [h |] eqn:Hh;
      [| exfalso; apply Hre; [lia | reflexivity]].
    destruct Hgrow as (fs1 & Hens1 & Hp1 & Hpo1 & Hc1 & Hs1 & Hcol1 & Hl1
                       & Hr1 & Hw1).
    fold (cap fs1) in Hc1.
    rewrite (printf_loop_last _ _ _ fs1) by (try exact Hens1; lia).
    eexists. split; [reflexivity |].
    split.
    { rewrite pending_after_append by lia.
      unfold pending. rewrite Hp1. reflexivity. }
    simpl. rewrite Hp1. repeat split; try assumption.
    unfold cap in *. simpl. rewrite splice_blen; [lia | lia |].
    rewrite blen_app. change (Mem.blen [NUL]) with 1. lia.
Qed.


(** X2.  An append to a stream with nothing pending takes a text
    longer than the buffer.  When [p] and [point_offs] are 0, whatever
    the size of the buffer (at least [PRINTF_SIZE_GUESS]) and the
    length of [s] below [INT_MAX] (so that [out + 1] does not overflow
    [int]), and provided [realloc] succeeds when [s] does not fit,
    [__argp_fmtstream_printf] returns the length of [s] and the pending
    bytes are exactly [s]; the sink receives nothing, and the buffer
    keeps its size when [s] fits and grows by the length of [s] plus 1
    otherwise. *)
Theorem printf_on_empty_stream (n : nat) (fs : fmtstream) (s : list byte) :
  p fs = 0 -> point_offs fs = 0 ->
  PRINTF_SIZE_GUESS <= cap fs -> cap fs < 2 ^ 60 ->
  Mem.blen s < 2 ^ 31 - 1 ->
  (cap fs <= Mem.blen s ->
   realloc_tail E (cap fs + (Mem.blen s + 1)) <> None) ->
  exists fs',
    __argp_fmtstream_printf E (S (S n)) fs s = Ret (Mem.blen s, fs') /\
    pending fs' = s /\
    p fs' = Mem.blen s /\
    stream fs' = stream fs /\
    cap fs' = (if Mem.blen s <? cap fs then cap fs
               else cap fs + (Mem.blen s + 1)).
Proof.
  intros Hp Hpo Hroom Hcap Hint Hre.
  destruct (printf_empty_run n fs s Hp Hpo Hroom Hcap Hint Hre)
    as (fs' & Hrun & Hpend & Hp' & _ & Hs' & Hc' & _).
  exists fs'. split; [exact Hrun |]. split; [exact Hpend |].
  split; [exact Hp' |]. split; [exact Hs' | exact Hc'].
Qed.

(** X3.  An append that cannot grow the buffer fails and appends
    nothing.  When nothing is pending, [s] does not fit in the buffer
    and [realloc] fails for the size the retry asks for, the size of
    the buffer plus [out + 1] (the length of [s] plus 1, and
    2^64 - 2^31 when [s] is [INT_MAX] bytes long and the sum overflows
    [int]), [__argp_fmtstream_printf] returns -1; [p] and [point_offs]
    are still 0, and the sink and the size of the buffer are as
    before. *)
Theorem printf_out_of_memory (n : nat) (fs : fmtstream) (s : list byte) :
  p fs = 0 -> point_offs fs = 0 ->
  PRINTF_SIZE_GUESS <= cap fs -> cap fs < 2 ^ 60 ->
  cap fs <= Mem.blen s < 2 ^ 31 ->
  realloc_tail E (cap fs + next_guess (Mem.blen s)) = None ->
  exists fs',
    __argp_fmtstream_printf E (S (S n)) fs s = Ret (-1, fs') /\
    p fs' = 0 /\ point_offs fs' = 0 /\ pending fs' = [] /\
    stream fs' = stream fs /\ same_frame fs fs'.
Proof.
  intros Hp Hpo Hroom Hcap Hlen Hre.
  unfold PRINTF_SIZE_GUESS in Hroom.
  assert (Hens : __argp_fmtstream_ensure E (S (S n)) fs PRINTF_SIZE_GUESS
                 = Ret (EnsureOk, fs)).
  { apply ensure_with_room. rewrite Hp, Z.sub_0_r, wrap_small by lia.
    unfold PRINTF_SIZE_GUESS. lia. }
  unfold __argp_fmtstream_printf.
  destruct (printf_loop_retry (S (S n)) (S n) fs fs s PRINTF_SIZE_GUESS)
    as (b & Hb & ->); try exact Hens; try lia.
  pose proof (blen_nonneg s) as Hs0.
  pose proof (next_guess_range (Mem.blen s) ltac:(lia)) as Hg.
  pose proof (ensure_empty_grows (S (S n)) (set_buf fs b)
                (next_guess (Mem.blen s))) as Hgrow.
  unfold cap in Hgrow. simpl in Hgrow. rewrite Hb in Hgrow.
  specialize (Hgrow Hp Hpo ltac:(lia) ltac:(lia)).
  rewrite Hre in Hgrow.
  simpl. rewrite Hgrow. simpl.
  eexists. split; [reflexivity |]. simpl.
  split; [exact Hp |]. split; [exact Hpo |].
  split; [unfold pending; simpl; rewrite Hp; reflexivity |].
  split; [reflexivity |].
  unfold same_frame, cap. simpl. rewrite Hb. unfold cap. auto.
Qed.

End Printf.

(** The hypotheses of [printf_with_room] hold on a fresh stream and a
    text of five bytes. *)
Lemma printf_with_room_witness :
  exists fs',
    __argp_fmtstream_printf plain_env 1 (fresh_stream zero_heap 0 79 0)
      (bytes_of "hello") = Ret (5, fs') /\
    pending fs' = bytes_of "hello" /\ p fs' = 5.
Proof.
  destruct (printf_with_room plain_env 0 (fresh_stream zero_heap 0 79 0)
              (bytes_of "hello"))
    as (fs' & Hrun & Hpend & _ & Hp & _).
  - vm_compute. discriminate.
  - vm_compute. discriminate.
  - vm_compute. reflexivity.
  - vm_compute. reflexivity.
  - vm_compute. reflexivity.
  - exists fs'. split; [exact Hrun |]. split; [exact Hpend | exact Hp].
Defined.

(** The hypotheses of [printf_on_empty_stream] hold on a fresh stream
    and a text of 250 bytes: the buffer grows from 200 to 451 bytes. *)
Lemma printf_on_empty_stream_witness :
  exists fs',
    __argp_fmtstream_printf plain_env 2 (fresh_stream zero_heap 0 79 0)
      long_text = Ret (250, fs') /\
    pending fs' = long_text /\ cap fs' = 451.
Proof.
  destruct (printf_on_empty_stream plain_env 0 (fresh_stream zero_heap 0 79 0)
              long_text)
    as (fs' & Hrun & Hpend & _ & _ & Hcap).
  - reflexivity.
  - reflexivity.
  - vm_compute. discriminate.
  - vm_compute. reflexivity.
  - vm_compute. reflexivity.
  - intros _. discriminate.
  - exists fs'. split; [exact Hrun |]. split; [exact Hpend | exact Hcap].
Defined.

(** The hypotheses of [printf_out_of_memory] hold on a fresh stream
    and a text of 250 bytes in a world without memory. *)
Lemma printf_out_of_memory_witness :
  exists fs',
    __argp_fmtstream_printf no_memory_env 2 (fresh_stream zero_heap 0 79 0)
      long_text = Ret (-1, fs') /\
    p fs' = 0 /\ pending fs' = [].
Proof.
  destruct (printf_out_of_memory no_memory_env 0
              (fresh_stream zero_heap 0 79 0) long_text)
    as (fs' & Hrun & Hp & _ & Hpend & _).
  - reflexivity.
  - reflexivity.
  - vm_compute. discriminate.
  - vm_compute. reflexivity.
  - vm_compute. split; [discriminate | reflexivity].
  - reflexivity.
  - exists fs'. split; [exact Hrun |]. split; [exact Hp | exact Hpend].
Defined.

(** ** Flushing *)

Section Flush.

Variable E : env.

(** X4.  A flush that the sink takes whole empties the buffer.  When
    [__argp_fmtstream_ensure] has to flush, the rewrite pass returns
    and the sink takes all [p] pending bytes, the call does not end
    with a short write, the sink holds the pending bytes after what it
    held, and [p] and [point_offs] are 0; when the buffer is at least
    [amount] bytes large the call returns 1 and the buffer is the one
    the rewrite pass left. *)
Theorem ensure_full_flush (fuel : nat) (fs fs1 : fmtstream) (amount : Z) :
  Mach.wrap (cap fs - p fs) < amount ->
  __argp_fmtstream_update E fuel fs = Ret fs1 ->
  0 <= p fs1 <= cap fs1 ->
  cap fs1 < 2 ^ 63 ->
  accepted E (pending fs1) = p fs1 ->
  exists r fs2,
    __argp_fmtstream_ensure E fuel fs amount = Ret (r, fs2) /\
    r <> EnsureShortWrite /\
    stream fs2 = stream fs1 ++ pending fs1 /\
    p fs2 = 0 /\ point_offs fs2 = 0 /\
    (amount <= cap fs1 -> r = EnsureOk /\ buf fs2 = buf fs1).
Proof.
  intros Hflush Hup Hp Hcap Hall.
  assert (Hstep : exists fs2,
            fwrite_unlocked E fs1 0 (Mach.wrap (p fs1)) = Ret (p fs1, fs2) /\
            stream fs2 = stream fs1 ++ pending fs1 /\ buf fs2 = buf fs1 /\
            p fs2 = p fs1).
  { unfold fwrite_unlocked. rewrite (wrap_small (p fs1)) by lia.
    destruct (p fs1 =? 0) eqn:Hp0.
    - assert (Hz : p fs1 = 0) by lia. exists fs1. rewrite Hz.
      split; [reflexivity |]. unfold pending. rewrite Hz.
      change (Mem.slice (buf fs1) 0 0) with (@nil byte).
      rewrite app_nil_r. auto.
    - assert (Hin : Mem.in_range (buf fs1) 0 (p fs1) = true).
      { apply in_range_true. unfold cap in Hp. lia. }
      rewrite Hin. fold (pending fs1). rewrite Hall.
      eexists. split; [reflexivity |]. simpl.
      unfold taken. rewrite Hall.
      rewrite firstn_all2; [auto |].
      unfold pending.
      assert (Hl : Mem.blen (Mem.slice (buf fs1) 0 (p fs1)) = p fs1)
        by (apply slice_length; unfold cap in Hp; lia).
      unfold Mem.blen in Hl. lia. }
  destruct Hstep as (fs2 & Hw & Hs2 & Hb2 & Hp2).
  unfold __argp_fmtstream_ensure.
  destruct (Mach.wrap (cap fs - p fs) <? amount) eqn:Hf; [| lia].
  rewrite Hup. simpl bind. rewrite Hw. simpl bind. cbv beta iota zeta.
  simpl fst. simpl snd.
  assert (Hsgn : Mach.sgn (p fs1) = p fs1) by (apply (ptr_small (p fs1)); lia).
  rewrite Hsgn, Hp2, Z.eqb_refl.
  assert (Hc3 : cap (set_point_offs (set_p fs2 0) 0) = cap fs1).
  { unfold cap. simpl. now rewrite Hb2. }
  rewrite Hc3. pose proof (blen_nonneg (buf fs1)) as Hc0. fold (cap fs1) in Hc0.
  rewrite (wrap_small (cap fs1)) by lia.
  destruct (cap fs1 <? amount) eqn:Hgrow.
  - destruct (Mach.wrap (cap fs1 + amount) <? cap fs1).
    + eexists. eexists. split; [reflexivity |]. simpl.
      repeat split; try discriminate; try assumption; lia.
    + destruct (realloc_tail E (Mach.wrap (cap fs1 + amount))).
      * eexists. eexists. split; [reflexivity |]. simpl.
        repeat split; try discriminate; try assumption; lia.
      * eexists. eexists. split; [reflexivity |]. simpl.
        repeat split; try discriminate; try assumption; lia.
  - eexists. eexists. split; [reflexivity |]. simpl.
    repeat split; try discriminate; assumption.
Qed.

End Flush.

(** The hypotheses of [ensure_full_flush] hold on a buffer of eight
    bytes with six pending and a sink that takes them all. *)
Lemma ensure_full_flush_witness :
  exists fs2,
    __argp_fmtstream_ensure plain_env 1 two_lines 5 = Ret (EnsureOk, fs2) /\
    stream fs2 = bytes_of "ab" ++ [NL] ++ bytes_of "cd" ++ [NL] /\
    p fs2 = 0 /\ point_offs fs2 = 0.
Proof.
  destruct (ensure_full_flush plain_env 1 two_lines two_lines 5)
    as (r & fs2 & Hrun & _ & Hs & Hp & Hpo & Hok).
  - vm_compute. reflexivity.
  - vm_compute. reflexivity.
  - vm_compute. split; discriminate.
  - vm_compute. reflexivity.
  - vm_compute. reflexivity.
  - destruct Hok as [-> _]; [vm_compute; discriminate |].
    exists fs2. split; [exact Hrun |]. split; [exact Hs |].
    split; [exact Hp | exact Hpo].
Defined.

(** ** The loop that frees space *)

Section ReclaimEnds.

Variable E : env.

Lemma memchr_no_fuel (b : list byte) (start n : Z) (c : byte) :
  Mem.memchr b start c n <> OutOfFuel.
Proof.
  unfold Mem.memchr. destruct (n =? 0); [discriminate |].
  destruct ((start <? 0) || (Mem.blen b <=? start)); [discriminate |].
  destruct (Mem.index_of c (Mem.window b start n)); [discriminate |].
  destruct (start + n <=? Mem.blen b); discriminate.
Qed.

Lemma reclaim_step_no_fuel (queue : Z) (fs : fmtstream) :
  reclaim_step E queue fs <> OutOfFuel.
Proof.
  unfold reclaim_step.
  destruct (Mem.memchr (buf fs) 0 NL (point_offs fs)) as [found | |] eqn:Hm;
    [| discriminate | exfalso; exact (memchr_no_fuel _ _ _ _ Hm)].
  simpl bind.
  assert (Hmem : forall (b : list byte) dst src n,
            Mem.memmove b dst src n <> OutOfFuel).
  { intros b dst src n. unfold Mem.memmove. destruct (n =? 0); [discriminate |].
    destruct (Mem.in_range b src n && Mem.in_range b dst n); discriminate. }
  assert (Hfw : forall fs0 start n, fwrite_unlocked E fs0 start n <> OutOfFuel).
  { intros fs0 start n. unfold fwrite_unlocked. destruct (n =? 0); [discriminate |].
    destruct (Mem.in_range (buf fs0) start n); discriminate. }
  destruct found as [nl |]; simpl bind.
  - destruct (if nl >? 0 then _ else _) as [wfs | |] eqn:Hw;
      [| discriminate |].
    + simpl. destruct (Mem.memmove _ _ _ _) eqn:Hmv;
        [discriminate | discriminate | exfalso; exact (Hmem _ _ _ _ Hmv)].
    + exfalso. destruct (nl >? 0); [exact (Hfw _ _ _ Hw) | discriminate].
  - unfold Mem.store. destruct (Mem.in_range (buf fs) (Mach.ptr (queue - 1)) 1);
      [| discriminate].
    simpl.
    destruct (if Mach.ptr (queue - 1) >? 0 then _ else _) as [wfs | |] eqn:Hw;
      [| discriminate |].
    + simpl. destruct (Mem.memmove _ _ _ _) eqn:Hmv;
        [discriminate | discriminate | exfalso; exact (Hmem _ _ _ _ Hmv)].
    + exfalso. destruct (Mach.ptr (queue - 1) >? 0);
        [exact (Hfw _ _ _ Hw) | discriminate].
Qed.

(** X5.  The loop of [line_at_point] that frees space takes a bounded
    number of turns when the splicer is entered with the point inside
    the buffer and not at its start ([queue] in [1, end - buf]).  A
    turn then flushes one byte at least, the terminator it found or
    the one it stored at [queue - 1], and lowers [p] by as much, so
    the loop takes no more turns than the number of bytes that are
    missing: with that much fuel the run returns, unless it reaches an
    access outside the buffer first, and never runs out of fuel.
    With [queue] at the start of the buffer a turn that finds no
    terminator flushes nothing and the loop of the compiled program
    does not end. *)
Theorem reclaim_ends (fuel : nat) (queue s : Z) (fs : fmtstream) :
  1 <= queue <= cap fs ->
  cap fs < 2 ^ 60 ->
  - 2 ^ 62 < p fs <= 2 ^ 60 ->
  0 <= point_offs fs ->
  - 2 ^ 60 <= s <= 2 ^ 60 + 2 ->
  p fs + s - cap fs <= Z.of_nat fuel ->
  reclaim E fuel queue (Mach.wrap s) fs <> OutOfFuel.
Proof.
  intros Hq.
  revert fs Hq. induction fuel as [| fuel IH]; intros fs Hq Hcap Hp Hpo Hs Hfuel.
  - simpl. rewrite ptr_wrap_sum, ptr_small by lia.
    destruct (p fs + s >? cap fs) eqn:Hc; [lia | discriminate].
  - simpl. rewrite ptr_wrap_sum, ptr_small by lia.
    destruct (p fs + s >? cap fs) eqn:Hc; [| discriminate].
    destruct (reclaim_step E queue fs) as [fs1 | |] eqn:Hstep;
      [| discriminate | exfalso; exact (reclaim_step_no_fuel _ _ Hstep)].
    simpl bind.
    pose proof (reclaim_step_frame _ _ _ _ Hstep) as ((Hc1 & _) & _).
    destruct (reclaim_step_cursors _ _ _ _ Hstep Hpo) as (k & Hk & Hp1 & Hpo1).
    pose proof (blen_nonneg (buf fs)) as Hc0. fold (cap fs) in Hc0.
    rewrite ptr_small in Hp1 by lia.
    apply IH; try lia.
    rewrite Hpo1. apply wrap_range.
Qed.

End ReclaimEnds.

(** The hypotheses of [reclaim_ends] hold on the full buffer of eight
    bytes that lacks one byte: one turn is enough. *)
Lemma reclaim_ends_witness :
  reclaim plain_env 1 4 (Mach.wrap 1) crowded_state <> OutOfFuel /\
  exists fs', reclaim plain_env 1 4 (Mach.wrap 1) crowded_state = Ret fs'.
Proof.
  split.
  - apply (reclaim_ends plain_env 1 4 1 crowded_state).
    + vm_compute. split; discriminate.
    + vm_compute. reflexivity.
    + vm_compute. split; [reflexivity | discriminate].
    + vm_compute. discriminate.
    + vm_compute. split; discriminate.
    + vm_compute. discriminate.
  - eexists. vm_compute. reflexivity.
Defined.

(** ** The wrapping rewrite pass on text without breaks to insert *)

Section PlainText.

Variable E : env.

Lemma set_buf_same (fs : fmtstream) : set_buf fs (buf fs) = fs.
Proof. destruct fs. reflexivity. Qed.

Lemma same_text_refl (fs : fmtstream) : same_text fs fs.
Proof. unfold same_text. auto 10. Qed.

Lemma same_text_trans (a b c : fmtstream) :
  same_text a b -> same_text b c -> same_text a c.
Proof. unfold same_text. intuition congruence. Qed.

(** A state that differs from [fs] in the point and the column only. *)
Lemma same_text_passed (fs fs' : fmtstream) (col : Z) :
  same_text fs fs' -> point_offs fs' = p fs ->
  set_point_col fs' col = passed fs col.
Proof.
  unfold same_text, passed. destruct fs, fs'. simpl.
  intros (-> & -> & -> & -> & -> & ->) ->. reflexivity.
Qed.

(** The scratch array of a classifier that finds no break. *)
Lemma map_seq_const (f : nat -> brk) (l : brk) (a n : nat) :
  (forall i, (a <= i < a + n)%nat -> f i = l) ->
  map f (seq a n) = repeat l n.
Proof.
  revert a. induction n as [| n IH]; intros a H; simpl; [reflexivity |].
  rewrite H by lia. f_equal. apply IH. intros i Hi. apply H. lia.
Qed.

Lemma wrap_loop_undefined (fuel n : nat) (fs : fmtstream) :
  0 <= point_offs fs -> point_offs fs + Z.of_nat n < 2 ^ 64 ->
  wrap_loop E fuel (repeat UC_BREAK_UNDEFINED n) fs
  = Ret (set_point_offs fs (point_offs fs + Z.of_nat n)).
Proof.
  revert fs. induction n as [| n IH]; intros fs Hpo Hn.
  - simpl. rewrite Z.add_0_r. destruct fs. reflexivity.
  - simpl repeat. simpl wrap_loop. simpl bind.
    rewrite IH; simpl point_offs.
    + rewrite (wrap_small (point_offs fs + 1)) by lia.
      replace (point_offs fs + 1 + Z.of_nat n)
        with (point_offs fs + Z.of_nat (S n)) by lia.
      reflexivity.
    + apply wrap_range.
    + rewrite (wrap_small (point_offs fs + 1)) by lia. lia.
Qed.

(** The run of the wrapping pass over a span without breaks. *)
Lemma update_plain_run (fuel : nat) (fs : fmtstream) :
  wmargin fs <> -1 ->
  0 <= point_offs fs < p fs ->
  p fs <= cap fs ->
  cap fs < 2 ^ 62 ->
  malloc_ok E (p fs - point_offs fs) = true ->
  (forall i, label_at (fst (classifier_call E fs)) i = UC_BREAK_UNDEFINED) ->
  __argp_fmtstream_update E fuel fs
  = Ret (passed fs (Mach.to_int (snd (classifier_call E fs)))).
Proof.
  intros Hwm Hpo Hp Hcap Hmalloc Hlab.
  unfold __argp_fmtstream_update. unfold classifier_call in *.
  rewrite (ptr_small (point_offs fs)) in * by lia.
  rewrite (wrap_small (p fs - point_offs fs)) in * by lia.
  destruct (point_offs fs >=? p fs) eqn:Hearly; [lia |].
  destruct (wmargin fs =? -1) eqn:Htr; [lia |].
  rewrite Hmalloc. simpl negb. cbv iota.
  assert (Hin : Mem.in_range (buf fs) (point_offs fs) (p fs - point_offs fs)
                = true).
  { apply in_range_true. unfold cap in Hp. lia. }
  rewrite Hin. simpl negb. cbv iota zeta.
  unfold labels. rewrite (map_seq_const _ UC_BREAK_UNDEFINED).
  - rewrite wrap_loop_undefined by lia. simpl bind.
    rewrite Z2Nat.id by lia.
    replace (point_offs fs + (p fs - point_offs fs)) with (p fs) by lia.
    reflexivity.
  - intros i _. apply Hlab.
Qed.


(** X6.  Text in which the classifier finds no break passes the
    wrapping rewrite pass untouched.  When every byte of the
    unprocessed span is labelled [UC_BREAK_UNDEFINED] and the scratch
    array is allocated, the pass returns with the point at [p] and the
    column the classifier reported; the buffer, [p], the sink and the
    margins are as before, whatever the margins are. *)
Theorem rewrite_pass_plain_text (fuel : nat) (fs : fmtstream) :
  wmargin fs <> -1 ->
  0 <= point_offs fs < p fs ->
  p fs <= cap fs ->
  cap fs < 2 ^ 62 ->
  malloc_ok E (p fs - point_offs fs) = true ->
  (forall i, label_at (fst (classifier_call E fs)) i = UC_BREAK_UNDEFINED) ->
  exists fs',
    __argp_fmtstream_update E fuel fs = Ret fs' /\
    point_offs fs' = p fs /\
    point_col fs' = Mach.to_int (snd (classifier_call E fs)) /\
    same_text fs fs'.
Proof.
  intros Hwm Hpo Hp Hcap Hmalloc Hlab.
  exists (passed fs (Mach.to_int (snd (classifier_call E fs)))).
  split; [apply update_plain_run; assumption |].
  unfold passed, same_text. simpl. auto 10.
Qed.

(** [memmove] of a block onto itself. *)
Lemma memmove_same (b : list byte) (q n : Z) :
  0 <= q -> 0 <= n -> q + n <= Mem.blen b ->
  Mem.memmove b q q n = Ret b.
Proof.
  intros Hq Hn Hfit. unfold Mem.memmove.
  destruct (n =? 0) eqn:Hn0; [reflexivity |].
  assert (Hr : Mem.in_range b q n = true) by (apply in_range_true; lia).
  rewrite Hr. simpl. f_equal.
  unfold Mem.splice, Mem.slice.
  rewrite length_firstn, length_skipn.
  replace (Z.to_nat q + Nat.min (Z.to_nat n) (length b - Z.to_nat q))%nat
    with (Z.to_nat n + Z.to_nat q)%nat by (unfold Mem.blen in Hfit; lia).
  rewrite <- skipn_skipn.
  rewrite (firstn_skipn (Z.to_nat n) (skipn (Z.to_nat q) b)).
  apply firstn_skipn.
Qed.

(** Without margins the splicer called with no suffix changes the
    column only. *)
Lemma line_at_point_marginless (fuel : nat) (fs : fmtstream) :
  wmargin fs = 0 -> lmargin fs = 0 ->
  0 <= point_offs fs <= p fs -> p fs <= cap fs -> cap fs < 2 ^ 62 ->
  exists fs',
    line_at_point E fuel fs None = Ret fs' /\
    same_text fs fs' /\ point_offs fs' = point_offs fs.
Proof.
  intros Hwm Hlm Hpo Hp Hcap. unfold line_at_point.
  rewrite Hwm. change (Mach.wrap (Mach.wrap 0 + suffix_len None)) with 0.
  rewrite (ptr_small (point_offs fs)) by lia.
  assert (Hrec : reclaim E fuel (point_offs fs) 0 fs = Ret fs).
  { destruct fuel; simpl; rewrite Z.add_0_r;
      rewrite (ptr_small (p fs)) by lia;
      destruct (p fs >? cap fs) eqn:Hc; (lia || reflexivity). }
  rewrite Hrec. simpl bind. rewrite Z.add_0_r.
  rewrite (ptr_small (point_offs fs)) by lia.
  rewrite (wrap_small (p fs - point_offs fs)) by lia.
  rewrite memmove_same by (unfold cap in Hp; lia).
  simpl bind. rewrite set_buf_same. rewrite Hlm. simpl.
  eexists. split; [reflexivity |]. unfold same_text. simpl. auto 10.
Qed.

Lemma wrap_loop_marginless (fuel : nat) (lns : list brk) (fs : fmtstream) :
  Forall (fun l => l = UC_BREAK_UNDEFINED \/ l = UC_BREAK_MANDATORY) lns ->
  wmargin fs = 0 -> lmargin fs = 0 ->
  0 <= point_offs fs ->
  point_offs fs + Z.of_nat (length lns) <= p fs ->
  p fs <= cap fs -> cap fs < 2 ^ 62 ->
  exists fs',
    wrap_loop E fuel lns fs = Ret fs' /\
    same_text fs fs' /\
    point_offs fs' = point_offs fs + Z.of_nat (length lns).
Proof.
  revert fs. induction lns as [| l lns IH]; intros fs Hall Hwm Hlm Hpo Hfit Hp Hcap.
  - exists fs. simpl. split; [reflexivity |].
    split; [apply same_text_refl | lia].
  - inversion Hall as [| l' lns' Hl Hrest]; subst. simpl length in Hfit.
    assert (Hstep : exists fs1,
              wrap_step E fuel l fs = Ret fs1 /\ same_text fs fs1 /\
              point_offs fs1 = point_offs fs + 1).
    { destruct Hl as [-> | ->]; simpl.
      - eexists. split; [reflexivity |]. simpl.
        split; [unfold same_text; simpl; auto 10 |].
        apply wrap_small. lia.
      - destruct (line_at_point_marginless fuel
                    (set_point_offs fs (Mach.wrap (point_offs fs + 1))))
          as (fs1 & Hrun & Hsame & Hpo1); simpl;
          try assumption; try (rewrite wrap_small by lia; lia).
        exists fs1. split; [exact Hrun |]. simpl in Hpo1.
        split; [| rewrite Hpo1; apply wrap_small; lia].
        eapply same_text_trans; [| exact Hsame].
        unfold same_text. simpl. auto 10. }
    destruct Hstep as (fs1 & Hrun1 & Hsame1 & Hpo1).
    simpl wrap_loop. rewrite Hrun1. simpl bind.
    pose proof Hsame1 as (Hb1 & Hp1 & _ & Hl1 & _ & Hw1).
    destruct (IH fs1) as (fs' & Hrun & Hsame & Hpo'); try congruence;
      try lia; try (unfold cap in *; rewrite Hb1; lia).
    exists fs'. split; [exact Hrun |].
    split; [eapply same_text_trans; eauto | simpl length; lia].
Qed.

(** The run of the wrapping pass without margins over mandatory breaks. *)
Lemma update_marginless_run (fuel : nat) (fs : fmtstream) :
  wmargin fs = 0 -> lmargin fs = 0 ->
  0 <= point_offs fs < p fs ->
  p fs <= cap fs ->
  cap fs < 2 ^ 62 ->
  malloc_ok E (p fs - point_offs fs) = true ->
  (forall i, label_at (fst (classifier_call E fs)) i = UC_BREAK_UNDEFINED \/
             label_at (fst (classifier_call E fs)) i = UC_BREAK_MANDATORY) ->
  __argp_fmtstream_update E fuel fs
  = Ret (passed fs (Mach.to_int (snd (classifier_call E fs)))).
Proof.
  intros Hwm Hlm Hpo Hp Hcap Hmalloc Hlab.
  unfold __argp_fmtstream_update. unfold classifier_call in *.
  rewrite (ptr_small (point_offs fs)) in * by lia.
  rewrite (wrap_small (p fs - point_offs fs)) in * by lia.
  destruct (point_offs fs >=? p fs) eqn:Hearly; [lia |].
  destruct (wmargin fs =? -1) eqn:Htr; [lia |].
  rewrite Hmalloc. simpl negb. cbv iota.
  assert (Hin : Mem.in_range (buf fs) (point_offs fs) (p fs - point_offs fs)
                = true).
  { apply in_range_true. unfold cap in Hp. lia. }
  rewrite Hin. simpl negb. cbv iota zeta.
  match goal with
  | |- context [wrap_loop E fuel ?ls fs] =>
      destruct (wrap_loop_marginless fuel ls fs)
        as (fs' & Hrun & Hsame & Hpo')
  end; try assumption; try lia.
  - unfold labels. apply Forall_forall. intros l Hl.
    apply in_map_iff in Hl. destruct Hl as (i & <- & _). apply Hlab.
  - unfold labels. rewrite length_map, length_seq. lia.
  - rewrite Hrun. simpl bind. f_equal.
    apply same_text_passed; [exact Hsame |].
    rewrite Hpo'. unfold labels. rewrite length_map, length_seq. lia.
Qed.


(** X7.  Without margins, line terminators pass the wrapping rewrite
    pass untouched.  When [lmargin] and [wmargin] are 0 and the
    classifier labels every byte of the unprocessed span
    [UC_BREAK_UNDEFINED] or [UC_BREAK_MANDATORY], the pass returns
    with the point at [p] and the column the classifier reported; the
    buffer, [p] and the sink are as before. *)
Theorem rewrite_pass_marginless (fuel : nat) (fs : fmtstream) :
  wmargin fs = 0 -> lmargin fs = 0 ->
  0 <= point_offs fs < p fs ->
  p fs <= cap fs ->
  cap fs < 2 ^ 62 ->
  malloc_ok E (p fs - point_offs fs) = true ->
  (forall i, label_at (fst (classifier_call E fs)) i = UC_BREAK_UNDEFINED \/
             label_at (fst (classifier_call E fs)) i = UC_BREAK_MANDATORY) ->
  exists fs',
    __argp_fmtstream_update E fuel fs = Ret fs' /\
    point_offs fs' = p fs /\
    point_col fs' = Mach.to_int (snd (classifier_call E fs)) /\
    same_text fs fs'.
Proof.
  intros Hwm Hlm Hpo Hp Hcap Hmalloc Hlab.
  exists (passed fs (Mach.to_int (snd (classifier_call E fs)))).
  split; [apply update_marginless_run; assumption |].
  unfold passed, same_text. simpl. auto 10.
Qed.

End PlainText.

(** The hypotheses of [rewrite_pass_plain_text] hold on a stream with
    margins of three columns and a classifier that finds no break. *)
Lemma rewrite_pass_plain_text_witness :
  exists fs',
    __argp_fmtstream_update no_break_env 0 unprocessed_state = Ret fs' /\
    point_offs fs' = 6 /\ point_col fs' = 6 /\
    pending fs' = pending unprocessed_state.
Proof.
  destruct (rewrite_pass_plain_text no_break_env 0 unprocessed_state)
    as (fs' & Hrun & Hpo & Hcol & Hb & Hp & _);
    [| | | | | | exists fs'; split; [exact Hrun |]; split; [exact Hpo |];
               split; [exact Hcol |]; unfold pending; rewrite Hb, Hp;
               reflexivity].
  - vm_compute. discriminate.
  - vm_compute. split; [discriminate | reflexivity].
  - vm_compute. discriminate.
  - vm_compute. reflexivity.
  - reflexivity.
  - intros i. unfold label_at.
    destruct (Nat.lt_ge_cases i 6) as [Hi | Hi].
    + do 6 (destruct i as [| i]; [reflexivity |]). lia.
    + apply nth_overflow. vm_compute. lia.
Defined.

(** The hypotheses of [rewrite_pass_marginless] hold on a stream
    without margins whose two line terminators are labelled
    mandatory. *)
Lemma rewrite_pass_marginless_witness :
  exists fs',
    __argp_fmtstream_update newline_env 0 marginless_state = Ret fs' /\
    point_offs fs' = 6 /\
    pending fs' = pending marginless_state.
Proof.
  destruct (rewrite_pass_marginless newline_env 0 marginless_state)
    as (fs' & Hrun & Hpo & _ & Hb & Hp & _);
    [| | | | | | | exists fs'; split; [exact Hrun |]; split; [exact Hpo |];
                 unfold pending; rewrite Hb, Hp; reflexivity].
  - reflexivity.
  - reflexivity.
  - vm_compute. split; [discriminate | reflexivity].
  - vm_compute. discriminate.
  - vm_compute. reflexivity.
  - reflexivity.
  - intros i. unfold label_at.
    destruct (Nat.lt_ge_cases i 6) as [Hi | Hi].
    + do 6 (destruct i as [| i]; [vm_compute; auto |]). lia.
    + left. apply nth_overflow. vm_compute. lia.
Defined.

(** ** What the rewrite pass leaves alone *)

Ltac fields :=
  unfold cap in *;
  cbn [stream lmargin rmargin wmargin point_offs point_col buf p
       set_stream set_point_offs set_point_col set_buf set_p] in *.

Section Quiet.

Variable E : env.

(** With room after [p] the splicer sends nothing to the sink. *)
Lemma line_at_point_quiet (fuel : nat) (fs fs' : fmtstream)
    (suffix : option (list byte)) :
  Mach.ptr (p fs + Mach.wrap (Mach.wrap (wmargin fs) + suffix_len suffix))
    <= cap fs ->
  line_at_point E fuel fs suffix = Ret fs' ->
  p fs' = p fs /\ stream fs' = stream fs.
Proof.
  unfold line_at_point. intros Hroom H.
  assert (Hrec : forall q,
            reclaim E fuel q
              (Mach.wrap (Mach.wrap (wmargin fs) + suffix_len suffix)) fs
            = Ret fs).
  { intros q. destruct fuel; simpl;
      destruct (Mach.ptr (p fs + _) >? cap fs) eqn:Hc; (lia || reflexivity). }
  rewrite Hrec in H. simpl in H.
  bind_inv H. bind_inv H. bind_inv H. injection H as <-. simpl.
  apply margin_loop_frame in Ha1. destruct Ha1 as (_ & -> & ->).
  destruct suffix as [s |].
  - bind_inv Ha0. injection Ha0 as <-. auto.
  - injection Ha0 as <-. auto.
Qed.

Lemma wrap_loop_quiet (fuel : nat) (lns : list brk) (fs fs' : fmtstream) :
  0 <= wmargin fs -> - 2 ^ 62 <= p fs ->
  p fs + wmargin fs + 2 <= cap fs -> cap fs < 2 ^ 62 ->
  wrap_loop E fuel lns fs = Ret fs' ->
  p fs' = p fs /\ stream fs' = stream fs.
Proof.
  revert fs. induction lns as [| l lns IH]; intros fs Hwm Hp Hroom Hcap H.
  - simpl in H. injection H as <-. auto.
  - simpl in H. bind_inv H. rename a into fs1.
    pose proof (wrap_step_frame _ _ _ _ _ Ha) as (Hc1 & _ & _ & Hw1).
    assert (Hroom' : forall len, 0 <= len <= 2 ->
              Mach.ptr (p fs + Mach.wrap (Mach.wrap (wmargin fs) + len))
              <= cap fs).
    { intros len Hlen. rewrite (wrap_small (wmargin fs)) by lia.
      rewrite (wrap_small (wmargin fs + len)) by lia.
      rewrite ptr_small by lia. lia. }
    assert (Hstep : p fs1 = p fs /\ stream fs1 = stream fs).
    { destruct l; simpl in Ha.
      - injection Ha as <-. auto.
      - apply line_at_point_quiet in Ha; [exact Ha |].
        apply Hroom'. simpl. unfold Mem.blen. simpl. lia.
      - apply line_at_point_quiet in Ha; [exact Ha |].
        apply Hroom'. simpl. unfold Mem.blen. simpl. lia.
      - apply line_at_point_quiet in Ha; [exact Ha |].
        apply (Hroom' 0). lia. }
    destruct Hstep as [Hp1 Hs1].
    apply IH in H; try lia.
    destruct H as [-> ->]. auto.
Qed.

(** In a truncating stream the splicer has room whenever [p] is inside
    the buffer. *)
Lemma truncate_room (fs : fmtstream) :
  wmargin fs = -1 -> - 2 ^ 62 <= p fs <= cap fs -> cap fs < 2 ^ 62 ->
  Mach.ptr (p fs + Mach.wrap (Mach.wrap (wmargin fs) + suffix_len None))
    <= cap fs.
Proof.
  intros Hwm Hp Hcap. rewrite Hwm.
  change (Mach.wrap (Mach.wrap (-1) + suffix_len None)) with (2 ^ 64 - 1).
  clear Hwm. mach_lia.
Qed.

Lemma truncate_step_quiet (fuel : nat) (queue : Z) (fs fs' : fmtstream)
    (go : bool) :
  wmargin fs = -1 -> - 2 ^ 62 <= p fs <= cap fs -> cap fs < 2 ^ 62 ->
  truncate_step E fuel queue fs = Ret (go, fs') ->
  stream fs' = stream fs /\ - 2 ^ 62 <= p fs' <= cap fs'.
Proof.
  intros Hwm Hp Hcap H.
  pose proof (truncate_step_frame _ _ _ _ _ _ H) as (Hc' & _).
  rewrite Hc'. unfold truncate_step in H. bind_inv H.
  destruct a as [nl |].
  - bind_inv H. injection H as _ <-.
    apply line_at_point_quiet in Ha0.
    + simpl in Ha0. destruct Ha0 as [-> ->]. auto.
    + apply truncate_room; assumption.
  - bind_inv H. bind_inv H. rename a0 into b.
    apply store_inv in Ha1. simpl in Ha1. destruct Ha1 as (Hi & _ & Hlen).
    set (po1 := Mach.wrap (point_offs fs + search_limit fs)) in *.
    destruct a as [nl |].
    + bind_inv H. bind_inv H. injection H as _ <-.
      apply memmove_blen in Ha1; [| apply wrap_range]. simpl in Ha1.
      apply line_at_point_quiet in Ha2.
      * simpl in Ha2. destruct Ha2 as [-> ->]. auto.
      * apply truncate_room; fields; try assumption;
          rewrite Ha1, Hlen; lia.
    + bind_inv H. injection H as _ <-.
      assert (Hnext : Mach.ptr (Mach.wrap (po1 + 1)) = Mach.ptr po1 + 1).
      { unfold cap in Hcap. clear - Hi Hcap. mach_lia. }
      apply line_at_point_quiet in Ha1.
      * simpl in Ha1. destruct Ha1 as [-> ->]. rewrite Hnext.
        unfold cap in *. split; [reflexivity | lia].
      * apply truncate_room; fields; try assumption;
          rewrite ?Hnext, Hlen; lia.
Qed.

Lemma truncate_loop_quiet (fuel n : nat) (queue : Z) (fs fs' : fmtstream) :
  wmargin fs = -1 -> - 2 ^ 62 <= p fs <= cap fs -> cap fs < 2 ^ 62 ->
  truncate_loop E fuel n queue fs = Ret fs' ->
  stream fs' = stream fs /\ - 2 ^ 62 <= p fs' <= cap fs'.
Proof.
  revert fs. induction n as [| n IH]; simpl; intros fs Hwm Hp Hcap H.
  - destruct (Mach.ptr (point_offs fs) <? p fs); [discriminate |].
    injection H as <-. auto.
  - destruct (Mach.ptr (point_offs fs) <? p fs).
    2: { injection H as <-. auto. }
    bind_inv H. destruct a as [go fs1]. simpl in H.
    pose proof (truncate_step_frame _ _ _ _ _ _ Ha) as (Hc1 & _ & _ & Hw1).
    apply truncate_step_quiet in Ha; try assumption.
    destruct Ha as [Hs1 Hp1].
    destruct go.
    + apply IH in H; try congruence; try lia.
      destruct H as [-> H]. auto.
    + injection H as <-. auto.
Qed.

(** X8.  The rewrite pass sends nothing to the sink when the splicer
    has room: in a truncating stream always, in a wrapping stream when
    [wmargin + 2] bytes are free after [p].  The pass then returns with
    the sink as it was and with [p] inside the buffer. *)
Theorem rewrite_pass_sends_nothing (fuel : nat) (fs fs' : fmtstream) :
  - 2 ^ 62 <= p fs <= cap fs ->
  cap fs < 2 ^ 62 ->
  wmargin fs = -1 \/ (0 <= wmargin fs /\ p fs + wmargin fs + 2 <= cap fs) ->
  __argp_fmtstream_update E fuel fs = Ret fs' ->
  stream fs' = stream fs /\ p fs' <= cap fs'.
Proof.
  intros Hp Hcap Hmode H.
  pose proof (update_frame _ _ _ _ H) as (Hc' & _).
  unfold __argp_fmtstream_update in H.
  destruct (Mach.ptr (point_offs fs) >=? p fs).
  { injection H as <-. split; [reflexivity | lia]. }
  destruct (wmargin fs =? -1) eqn:Htr.
  { apply truncate_loop_quiet in H; try lia.
    destruct H as [Hs Hp']. split; [exact Hs | lia]. }
  destruct Hmode as [Hm | [Hwm Hroom]]; [lia |].
  destruct (negb (malloc_ok E _)).
  { injection H as <-. split; [reflexivity | lia]. }
  destruct (negb (Mem.in_range _ _ _)); [discriminate |].
  bind_inv H. injection H as <-.
  apply wrap_loop_quiet in Ha; try lia.
  destruct Ha as [Hp1 Hs1]. simpl. split; [exact Hs1 |].
  rewrite Hp1. change (p fs <= cap (set_point_col a
    (Mach.to_int (snd (linebreaks E
       (Mem.slice (buf fs) (Mach.ptr (point_offs fs))
          (Mach.wrap (p fs - Mach.ptr (point_offs fs))))
       (Mach.to_int (Mach.wrap (rmargin fs - wmargin fs)))
       (Mach.to_int (if point_col fs =? -1 then 0 else point_col fs))))))).
  rewrite Hc'. lia.
Qed.

(** X11.  The rewrite pass never resizes the buffer and never changes
    a margin: when it returns, [end - buf], [lmargin], [rmargin] and
    [wmargin] are what they were. *)
Theorem rewrite_pass_keeps_frame (fuel : nat) (fs fs' : fmtstream) :
  __argp_fmtstream_update E fuel fs = Ret fs' ->
  cap fs' = cap fs /\ lmargin fs' = lmargin fs /\
  rmargin fs' = rmargin fs /\ wmargin fs' = wmargin fs.
Proof.
  unfold __argp_fmtstream_update. intros H.
  destruct (Mach.ptr (point_offs fs) >=? p fs).
  { injection H as <-. auto. }
  destruct (wmargin fs =? -1).
  { exact (truncate_loop_frame E _ _ _ _ _ H). }
  destruct (negb (malloc_ok E _)).
  { injection H as <-. auto. }
  destruct (negb (Mem.in_range _ _ _)); [discriminate |].
  bind_inv H. injection H as <-.
  exact (wrap_loop_frame E _ _ _ _ Ha).
Qed.

End Quiet.

(** The hypotheses of [rewrite_pass_sends_nothing] hold on a
    truncating stream with a pending line of eight bytes. *)
Lemma rewrite_pass_sends_nothing_witness :
  exists fs',
    __argp_fmtstream_update plain_env 1 overlong_state = Ret fs' /\
    stream fs' = [] /\ p fs' <= cap fs'.
Proof.
  set (out := __argp_fmtstream_update plain_env 1 overlong_state).
  set (fs' := match out with Ret x => x | _ => overlong_state end).
  assert (Hrun : out = Ret fs') by (vm_compute; reflexivity).
  exists fs'. split; [exact Hrun |].
  apply (rewrite_pass_sends_nothing plain_env 1 overlong_state fs').
  - vm_compute. split; discriminate.
  - vm_compute. reflexivity.
  - left. reflexivity.
  - exact Hrun.
Defined.

(** The hypothesis of [rewrite_pass_keeps_frame] holds on a truncating
    stream of sixteen bytes. *)
Lemma rewrite_pass_keeps_frame_witness :
  exists fs',
    __argp_fmtstream_update plain_env 1 overlong_state = Ret fs' /\
    cap fs' = 16 /\ lmargin fs' = 2 /\ rmargin fs' = 5 /\ wmargin fs' = -1.
Proof.
  set (out := __argp_fmtstream_update plain_env 1 overlong_state).
  set (fs' := match out with Ret x => x | _ => overlong_state end).
  assert (Hrun : out = Ret fs') by (vm_compute; reflexivity).
  exists fs'. split; [exact Hrun |].
  exact (rewrite_pass_keeps_frame plain_env 1 overlong_state fs' Hrun).
Defined.

(** ** The truncating rewrite pass at the last line *)

Section LastLine.

Variable E : env.

(** In a truncating stream the splicer called at [p] writes the
    padding after [p] and nothing else. *)
Lemma line_at_point_at_end (fuel : nat) (fs : fmtstream) :
  wmargin fs = -1 ->
  point_offs fs = p fs ->
  1 <= p fs ->
  p fs + padding fs <= cap fs ->
  cap fs < 2 ^ 62 ->
  0 <= lmargin fs < 2 ^ 63 ->
  exists fs',
    line_at_point E fuel fs None = Ret fs' /\
    p fs' = p fs /\ stream fs' = stream fs /\
    point_offs fs' = p fs + padding fs /\
    point_col fs' = lmargin fs /\
    forall j, 0 <= j < p fs -> Mem.get (buf fs') j = Mem.get (buf fs) j.
Proof.
  intros Hwm Hpo Hp Hfit Hcap Hlm.
  assert (Hpad : 0 <= padding fs).
  { unfold padding. destruct (point_col fs =? -1); lia. }
  unfold line_at_point. rewrite Hwm, Hpo.
  change (Mach.wrap (Mach.wrap (-1) + suffix_len None)) with (2 ^ 64 - 1).
  remember (2 ^ 64 - 1) as sn eqn:Hsn.
  rewrite (ptr_small (p fs)) by lia.
  assert (Hback : Mach.ptr (p fs + sn) = p fs - 1).
  { subst sn. clear - Hp Hfit Hcap Hpad. mach_lia. }
  assert (Hrec : reclaim E fuel (p fs) sn fs = Ret fs).
  { destruct fuel; simpl; rewrite Hback;
      destruct (p fs - 1 >? cap fs) eqn:Hc; (lia || reflexivity). }
  rewrite Hrec. simpl bind. rewrite Hback, Z.sub_diag.
  change (Mach.wrap 0) with 0. unfold Mem.memmove. simpl bind.
  rewrite set_buf_same.
  assert (Hmar : exists fs3,
    margin_loop (Z.to_nat (lmargin fs)) fs = Ret fs3 /\
    point_offs fs3 = p fs + padding fs /\ p fs3 = p fs /\
    stream fs3 = stream fs /\ lmargin fs3 = lmargin fs /\
    (forall j, 0 <= j < p fs -> Mem.get (buf fs3) j = Mem.get (buf fs) j)).
  { unfold padding in *. destruct (point_col fs =? -1) eqn:Hc.
    - exists fs. split.
      + destruct (Z.to_nat (lmargin fs)); simpl; [reflexivity |].
        rewrite Hc. reflexivity.
      + repeat split; intros; (lia || reflexivity).
    - destruct (margin_loop_pads (Z.to_nat (lmargin fs)) fs)
        as (fs3 & Hrun3 & Hpo3 & _ & Hrest3 & _); try lia.
      pose proof (margin_loop_frame _ _ _ Hrun3) as ((_ & Hl3 & _) & Hp3 & Hs3).
      exists fs3. split; [exact Hrun3 |].
      rewrite Z2Nat.id in * by lia.
      repeat split; try assumption; try lia.
      intros j Hj. apply Hrest3; lia. }
  destruct Hmar as (fs3 & Hrun3 & Hpo3 & Hp3 & Hs3 & Hl3 & Hget3).
  rewrite Hrun3. simpl bind. eexists. split; [reflexivity |].
  cbn [p stream point_offs point_col buf set_point_col].
  rewrite Hl3. repeat split; try assumption.
  apply (ptr_small (lmargin fs)). lia.
Qed.

(** Two lists of [n] bytes that agree byte by byte are equal. *)
Lemma bytes_ext (l1 l2 : list byte) (n : Z) :
  Mem.blen l1 = n -> Mem.blen l2 = n ->
  (forall j, 0 <= j < n -> Mem.get l1 j = Mem.get l2 j) ->
  l1 = l2.
Proof.
  unfold Mem.blen, Mem.get. intros H1 H2 H.
  apply (nth_ext l1 l2 NUL NUL); [lia |].
  intros i Hi. specialize (H (Z.of_nat i)).
  rewrite Nat2Z.id in H. apply H. lia.
Qed.

(** X9.  The truncating rewrite pass cuts an overlong last line at the
    margin.  When no line terminator stands among the first
    [rmargin - point_col] bytes of the unprocessed span, nor among the
    bytes the second search examines (those from
    [point_offs + 2 * (rmargin - point_col)] up to
    [p + (rmargin - point_col)]), the pass returns with the pending
    bytes cut after the first [rmargin - point_col] bytes of the span
    and closed by a terminator; what followed is dropped.  The point
    stands after the terminator and the padding, the column is
    [lmargin], and the sink has received nothing. *)
Theorem rewrite_pass_cuts_last_line (n : nat) (fs : fmtstream) :
  wmargin fs = -1 ->
  0 <= point_offs fs < p fs ->
  0 <= rmargin fs - point_col fs <= p fs - point_offs fs ->
  p fs + (rmargin fs - point_col fs) <= cap fs ->
  cap fs < 2 ^ 62 ->
  0 <= lmargin fs < 2 ^ 63 ->
  point_offs fs + (rmargin fs - point_col fs) + 1 + padding fs <= cap fs ->
  (forall j, point_offs fs <= j < point_offs fs + (rmargin fs - point_col fs) ->
             Mem.get (buf fs) j <> NL) ->
  (forall j, point_offs fs + 2 * (rmargin fs - point_col fs) <= j
             < p fs + (rmargin fs - point_col fs) ->
             Mem.get (buf fs) j <> NL) ->
  exists fs',
    __argp_fmtstream_update E (S n) fs = Ret fs' /\
    pending fs'
    = Mem.slice (buf fs) 0 (point_offs fs + (rmargin fs - point_col fs))
      ++ [NL] /\
    p fs' = point_offs fs + (rmargin fs - point_col fs) + 1 /\
    point_offs fs' = p fs' + padding fs /\
    point_col fs' = lmargin fs /\
    stream fs' = stream fs.
Proof.
  intros Hwm Hpo Hd Hspare Hcap Hlm Hfit Hno1 Hno2.
  set (d := rmargin fs - point_col fs) in *.
  assert (Hpad : 0 <= padding fs).
  { unfold padding. destruct (point_col fs =? -1); lia. }
  unfold __argp_fmtstream_update.
  rewrite (ptr_small (point_offs fs)) by lia.
  destruct (point_offs fs >=? p fs) eqn:Hearly; [lia |].
  rewrite Hwm. change (-1 =? -1) with true. cbv iota.
  cbn [truncate_loop].
  rewrite (ptr_small (point_offs fs)) by lia.
  destruct (point_offs fs <? p fs) eqn:Hlt; [| lia].
  unfold truncate_step.
  rewrite (ptr_small (point_offs fs)) by lia.
  assert (Hlim : search_limit fs = d).
  { unfold search_limit. fold d. apply wrap_small. lia. }
  rewrite Hlim.
  rewrite (memchr_absent (buf fs) (point_offs fs) d NL);
    [| lia | lia | unfold cap in *; lia | exact Hno1].
  cbn [bind]. rewrite (wrap_small (point_offs fs + d)) by lia.
  unfold second_search_start, second_search_len.
  cbn [point_offs rmargin point_col p buf set_point_offs set_buf].
  replace (point_offs fs + d + rmargin fs - point_col fs)
    with (point_offs fs + 2 * d) by (unfold d; lia).
  rewrite (ptr_small (point_offs fs + 2 * d)) by lia.
  rewrite (wrap_small (p fs - (point_offs fs + d))) by lia.
  rewrite (memchr_absent (buf fs) (point_offs fs + 2 * d)
             (p fs - (point_offs fs + d)) NL);
    [| lia | lia | unfold cap in *; lia
     | intros j Hj; apply Hno2; lia].
  cbn [bind]. rewrite (ptr_small (point_offs fs + d)) by lia.
  destruct (store_returns (buf fs) (point_offs fs + d) NL) as [b Hb].
  { unfold cap in *. lia. }
  rewrite Hb. cbn [bind].
  pose proof (store_inv _ _ _ _ Hb) as (_ & _ & Hlen).
  rewrite (wrap_small (point_offs fs + d + 1)) by lia.
  rewrite (ptr_small (point_offs fs + d + 1)) by lia.
  destruct (line_at_point_at_end (S n)
              (set_p (set_point_offs (set_buf (set_point_offs fs
                 (point_offs fs + d)) b) (point_offs fs + d + 1))
                 (point_offs fs + d + 1)))
    as (fs' & Hrun & Hp' & Hs' & Hpo' & Hcol' & Hget');
    try (cbn [wmargin point_offs p lmargin set_p set_point_offs set_buf];
         (assumption || lia || reflexivity)).
  { unfold padding, cap in *.
    cbn [point_col lmargin p buf set_p set_point_offs set_buf].
    rewrite Hlen. lia. }
  { unfold cap in *. cbn [buf set_p set_point_offs set_buf].
    rewrite Hlen. exact Hcap. }
  rewrite Hrun. cbn [bind fst snd].
  cbn [p stream lmargin set_p set_point_offs set_buf] in Hp', Hs', Hcol', Hget'.
  assert (Hpadeq : padding (set_p (set_point_offs (set_buf (set_point_offs fs
                 (point_offs fs + d)) b) (point_offs fs + d + 1))
                 (point_offs fs + d + 1)) = padding fs) by reflexivity.
  rewrite Hpadeq in Hpo'.
  cbn [p set_p set_point_offs set_buf] in Hpo'.
  exists fs'. split; [reflexivity |].
  split; [| rewrite Hp'; repeat split; assumption].
  pose proof (line_at_point_frame _ _ _ _ _ Hrun) as (Hc' & _).
  unfold cap in Hc'. cbn [buf set_p set_point_offs set_buf] in Hc'.
  assert (Hl1 : Mem.blen (Mem.slice (buf fs) 0 (point_offs fs + d))
                = point_offs fs + d).
  { apply slice_length; unfold cap in *; lia. }
  unfold pending. rewrite Hp'.
  apply (bytes_ext _ _ (point_offs fs + d + 1)).
  - apply slice_length; unfold cap in *; lia.
  - rewrite blen_app, Hl1. reflexivity.
  - intros j Hj. rewrite get_slice by lia. rewrite Z.add_0_l.
    rewrite Hget' by lia. cbn [buf set_p set_point_offs set_buf].
    rewrite (get_store _ _ _ _ _ Hb) by lia.
    unfold Mem.get at 2.
    destruct (j =? point_offs fs + d) eqn:Hj'.
    + rewrite app_nth2 by (unfold Mem.blen in Hl1; lia).
      replace (Z.to_nat j - length (Mem.slice (buf fs) 0 (point_offs fs + d)))%nat
        with O by (unfold Mem.blen in Hl1; lia).
      reflexivity.
    + rewrite app_nth1 by (unfold Mem.blen in Hl1; lia).
      change (Mem.get (buf fs) j
              = Mem.get (Mem.slice (buf fs) 0 (point_offs fs + d)) j).
      rewrite get_slice by lia. reflexivity.
Qed.

End LastLine.

(** The hypotheses of [rewrite_pass_cuts_last_line] hold on a
    truncating stream with a pending line of eight bytes and a right
    margin of five columns: the pending bytes become ["abcde\n"]. *)
Lemma rewrite_pass_cuts_last_line_witness :
  exists fs',
    __argp_fmtstream_update plain_env 1 overlong_state = Ret fs' /\
    pending fs' = bytes_of "abcde" ++ [NL] /\
    p fs' = 6 /\ point_offs fs' = 8.
Proof.
  destruct (rewrite_pass_cuts_last_line plain_env 0 overlong_state)
    as (fs' & Hrun & Hpend & Hp & Hpo & _).
  - reflexivity.
  - vm_compute. split; [discriminate | reflexivity].
  - vm_compute. split; discriminate.
  - vm_compute. discriminate.
  - vm_compute. reflexivity.
  - vm_compute. split; [discriminate | reflexivity].
  - vm_compute. discriminate.
  - intros j Hj. change (0 <= j < 5) in Hj.
    assert (Hj' : j = 0 \/ j = 1 \/ j = 2 \/ j = 3 \/ j = 4) by lia.
    destruct Hj' as [-> | [-> | [-> | [-> | ->]]]]; vm_compute; discriminate.
  - intros j Hj. change (10 <= j < 13) in Hj.
    assert (Hj' : j = 10 \/ j = 11 \/ j = 12) by lia.
    destruct Hj' as [-> | [-> | ->]]; vm_compute; discriminate.
  - exists fs'. split; [exact Hrun |]. split; [exact Hpend |].
    split; [exact Hp |]. rewrite Hpo, Hp. reflexivity.
Defined.

(** ** A whole session on text without breaks *)

Section RoundTrip.

Variable E : env.

Lemma fresh_stream_cap (h : nat -> byte) (lm rm wm : Z) :
  cap (fresh_stream h lm rm wm) = INIT_BUF_SIZE.
Proof.
  unfold cap, fresh_stream, Mem.blen. cbn [buf].
  rewrite length_map, length_seq. reflexivity.
Qed.

Lemma blen_zero_nil (s : list byte) : Mem.blen s = 0 -> s = [].
Proof. unfold Mem.blen. destruct s; simpl; [reflexivity | lia]. Qed.

(** The write of [__argp_fmtstream_free] into a sink that takes all. *)
Lemma fwrite_pending_all (fs : fmtstream) :
  sink_takes_all E -> 0 < p fs <= cap fs -> cap fs < 2 ^ 62 ->
  exists w fs',
    fwrite_unlocked E fs 0 (Mach.wrap (p fs)) = Ret (w, fs') /\
    stream fs' = stream fs ++ pending fs.
Proof.
  intros Hall Hp Hcap. unfold fwrite_unlocked.
  rewrite (wrap_small (p fs)) by lia.
  destruct (p fs =? 0) eqn:Hp0; [lia |].
  assert (Hin : Mem.in_range (buf fs) 0 (p fs) = true).
  { apply in_range_true. unfold cap in Hp. lia. }
  rewrite Hin. fold (pending fs).
  eexists. eexists. split; [reflexivity |]. simpl. f_equal.
  unfold taken, accepted. specialize (Hall (pending fs)).
  apply firstn_all2. unfold Mem.blen in *. lia.
Qed.

(** X10.  Text without breaks comes out of a whole session as it went
    in.  Create a wrapping stream on an empty sink that takes every
    byte, append a text [s] shorter than [INT_MAX] bytes in which the
    classifier finds no break, destroy the stream: the sink has
    received exactly [s],
    whatever the margins and the contents of the fresh buffer, also
    when the text is longer than the buffer (provided [realloc]
    succeeds) and when the scratch array of the rewrite pass cannot be
    allocated. *)
Theorem session_plain_text (n : nat) (heap : nat -> byte) (lm rm wm : Z)
    (s : list byte) :
  wm <> -1 ->
  sink_takes_all E ->
  Mem.blen s < 2 ^ 31 - 1 ->
  (INIT_BUF_SIZE <= Mem.blen s ->
   realloc_tail E (INIT_BUF_SIZE + (Mem.blen s + 1)) <> None) ->
  (forall width start i,
     label_at (fst (linebreaks E s width start)) i = UC_BREAK_UNDEFINED) ->
  session E (S (S n)) heap lm rm wm s = Ret s.
Proof.
  intros Hwm Hall Hint Hre Hlab.
  pose proof (blen_nonneg s) as Hs0.
  unfold session, appended. rewrite make_fmtstream_fresh.
  set (fs0 := fresh_stream heap lm rm wm).
  pose proof (fresh_stream_cap heap lm rm wm) as Hc0. fold fs0 in Hc0.
  unfold INIT_BUF_SIZE in *.
  destruct (printf_empty_run E n fs0 s)
    as (fs & Hrun & Hpend & Hp & Hpo & Hst & Hcap & _ & _ & Hw & Hcol);
    try reflexivity; try (unfold PRINTF_SIZE_GUESS; lia).
  { rewrite Hc0. exact Hre. }
  rewrite Hrun. cbn [bind snd].
  assert (Hcapfs : Mem.blen s <= cap fs /\ cap fs < 2 ^ 62).
  { rewrite Hcap, Hc0. destruct (Mem.blen s <? 200) eqn:Hlt; lia. }
  change (stream fs0) with (@nil byte) in Hst.
  change (wmargin fs0) with wm in Hw.
  change (point_col fs0) with 0 in Hcol.
  unfold __argp_fmtstream_free.
  destruct (Z.eq_dec (Mem.blen s) 0) as [Hz | Hnz].
  - (* nothing was appended *)
    unfold __argp_fmtstream_update. rewrite Hpo, Hp, Hz.
    change (Mach.ptr 0 >=? 0) with true. cbn [bind]. rewrite Hp, Hz.
    change (0 >? 0) with false. cbv iota.
    rewrite Hst. rewrite (blen_zero_nil s Hz). reflexivity.
  - assert (Hup : exists fs1,
              __argp_fmtstream_update E (S (S n)) fs = Ret fs1 /\
              p fs1 = p fs /\ buf fs1 = buf fs /\ stream fs1 = stream fs).
    { destruct (malloc_ok E (p fs - point_offs fs)) eqn:Hmalloc.
      - eexists. split.
        + apply update_plain_run; try lia.
          * exact Hmalloc.
          * intros i. unfold classifier_call. rewrite Hpo, Hp.
            rewrite (ptr_small 0) by lia. rewrite Z.sub_0_r.
            rewrite (wrap_small (Mem.blen s)) by lia.
            rewrite <- Hp. fold (pending fs). rewrite Hpend. apply Hlab.
        + unfold passed. simpl. auto.
      - exists fs. split; [| auto].
        unfold __argp_fmtstream_update. rewrite Hpo, Hp.
        rewrite (ptr_small 0) by lia. rewrite Z.sub_0_r.
        destruct (0 >=? Mem.blen s) eqn:He; [lia |].
        destruct (wmargin fs =? -1) eqn:Htr; [lia |].
        rewrite (wrap_small (Mem.blen s)) by lia.
        rewrite Hpo, Hp, Z.sub_0_r in Hmalloc. rewrite Hmalloc. reflexivity. }
    destruct Hup as (fs1 & Hrun1 & Hp1 & Hb1 & Hs1).
    rewrite Hrun1. cbn [bind].
    destruct (p fs1 >? 0) eqn:Hpos; [| lia].
    destruct (fwrite_pending_all fs1) as (w & fs2 & Hw2 & Hs2);
      try assumption.
    + unfold cap. rewrite Hb1. fold (cap fs). lia.
    + unfold cap. rewrite Hb1. fold (cap fs). lia.
    + rewrite Hw2. cbn [bind snd]. rewrite Hs2, Hs1, Hst.
      unfold pending. rewrite Hb1, Hp1. fold (pending fs). rewrite Hpend.
      reflexivity.
Qed.

End RoundTrip.

Lemma no_breaks_undefined (span : list byte) (width start : Z) (i : nat) :
  label_at (fst (no_breaks span width start)) i = UC_BREAK_UNDEFINED.
Proof.
  unfold label_at, no_breaks. cbn [fst]. revert i.
  induction span as [| c span IH]; intros [| i]; simpl; auto.
Qed.

Lemma no_break_env_takes_all : sink_takes_all no_break_env.
Proof. intros data. simpl. unfold full_sink. lia. Qed.

(** The hypotheses of [session_plain_text] hold for a text of 250
    bytes, longer than the fresh buffer, and margins of 2, 79 and 4
    columns. *)
Lemma session_plain_text_witness :
  session no_break_env 2 stale_heap 2 79 4 long_text = Ret long_text.
Proof.
  apply (session_plain_text no_break_env 0 stale_heap 2 79 4 long_text).
  - discriminate.
  - exact no_break_env_takes_all.
  - vm_compute. reflexivity.
  - intros _. discriminate.
  - intros width start i. apply no_breaks_undefined.
Defined.

(** ** The truncating rewrite pass on a line within the margin *)

Section ShortLine.

Variable E : env.

(** A turn of the truncating loop on such a line leaves another such
    line, with the point on the terminator. *)
Lemma short_line_turn (fuel : nat) (k : Z) (fs : fmtstream) :
  line_within_margin k fs ->
  exists fs',
    truncate_step E fuel 0 fs = Ret (true, fs') /\
    line_within_margin k fs'.
Proof.
  intros (Hwm & Hlm & Hpo & Hk & Hcol & Hlim & Hrm & Hp & Hfit & Hcap & Hnl
          & Hfirst).
  unfold truncate_step, search_limit.
  rewrite (ptr_small (point_offs fs)) by lia.
  rewrite (wrap_small (rmargin fs - point_col fs)) by lia.
  rewrite (memchr_first _ _ _ k); [| lia | lia | unfold cap in *; lia
                                   | exact Hnl | exact Hfirst].
  cbn [bind]. rewrite Z.sub_0_r. rewrite (wrap_small k) by lia.
  unfold line_at_point.
  cbn [wmargin point_offs set_point_offs p buf lmargin].
  rewrite Hwm.
  change (Mach.wrap (Mach.wrap (-1) + suffix_len None)) with (2 ^ 64 - 1).
  remember (2 ^ 64 - 1) as sn eqn:Hsn.
  rewrite (ptr_small k) by lia.
  assert (Hback : Mach.ptr (p fs + sn) = p fs - 1).
  { subst sn. clear - Hp Hk Hfit Hcap. mach_lia. }
  assert (Hrec : reclaim E fuel k sn (set_point_offs fs k)
                 = Ret (set_point_offs fs k)).
  { destruct fuel; cbn [reclaim p set_point_offs]; rewrite Hback;
      change (cap (set_point_offs fs k)) with (cap fs);
      destruct (p fs - 1 >? cap fs) eqn:Hc; (lia || reflexivity). }
  rewrite Hrec. cbn [bind p buf set_point_offs].
  assert (Hdst : Mach.ptr (k + sn) = k - 1).
  { subst sn. clear - Hk Hp Hfit Hcap. mach_lia. }
  rewrite Hdst, Hp.
  replace (k + 1 - k) with 1 by lia. change (Mach.wrap 1) with 1.
  destruct (memmove_returns (buf fs) (k - 1) k 1) as [b Hb].
  { right. unfold cap in *. lia. }
  rewrite Hb. cbn [bind lmargin set_buf set_point_offs]. rewrite Hlm.
  cbn [Z.to_nat margin_loop bind].
  eexists. split; [reflexivity |].
  assert (Hlen : Mem.blen b = Mem.blen (buf fs))
    by (eapply memmove_blen; [| exact Hb]; lia).
  unfold line_within_margin, cap.
  cbn [wmargin lmargin rmargin point_offs point_col p buf
       set_point_col set_buf set_point_offs].
  rewrite Hlm. change (Mach.sgn 0) with 0. rewrite Hlen.
  unfold cap in *.
  repeat split; try lia.
  rewrite (get_memmove _ _ _ _ _ _ Hb) by lia.
  destruct ((k - 1 <=? k) && (k <? k - 1 + 1)) eqn:Hc; [lia | exact Hnl].
Qed.

Lemma short_line_loop (fuel n : nat) (k : Z) (fs : fmtstream) :
  line_within_margin k fs ->
  truncate_loop E fuel n 0 fs = OutOfFuel.
Proof.
  revert fs. induction n as [| n IH]; intros fs Hin.
  - pose proof Hin as (_ & _ & Hpo & _ & _ & _ & _ & Hp & Hfit & Hcap & _).
    simpl. rewrite (ptr_small (point_offs fs)) by lia.
    destruct (point_offs fs <? p fs) eqn:Hc; [reflexivity | lia].
  - pose proof Hin as (_ & _ & Hpo & _ & _ & _ & _ & Hp & Hfit & Hcap & _).
    simpl. rewrite (ptr_small (point_offs fs)) by lia.
    destruct (point_offs fs <? p fs) eqn:Hc; [| lia].
    destruct (short_line_turn fuel k fs Hin) as (fs' & -> & Hin').
    cbn [bind fst snd]. apply IH. exact Hin'.
Qed.

(** X13.  The truncating rewrite pass never returns on a line that
    ends within the right margin.  The stream truncates and has no
    left margin, the pass is entered with the point at the start of
    the buffer, and the pending bytes are one line of [k] bytes,
    fewer than the columns left, and its terminator.  The first search
    finds the terminator and the pass sets [point_offs] to [nl - queue],
    the offset of the terminator itself and not of the byte after it;
    the splicer moves the terminator one byte back and leaves another
    at offset [k].  The point stays before [p], every further turn
    finds that terminator and does the same, and the loop runs out of
    whatever fuel it is given. *)
Theorem truncate_pass_never_ends (fuel : nat) (k : Z) (fs : fmtstream) :
  wmargin fs = -1 -> lmargin fs = 0 ->
  point_offs fs = 0 -> 0 <= point_col fs ->
  1 <= k -> k < rmargin fs - point_col fs -> rmargin fs < 2 ^ 64 ->
  p fs = k + 1 -> p fs <= cap fs -> cap fs < 2 ^ 62 ->
  Mem.get (buf fs) k = NL ->
  (forall j, 0 <= j < k -> Mem.get (buf fs) j <> NL) ->
  __argp_fmtstream_update E fuel fs = OutOfFuel.
Proof.
  intros Hwm Hlm Hpo Hcol Hk Hlim Hrm Hp Hfit Hcap Hnl Hfirst.
  unfold __argp_fmtstream_update. rewrite Hpo, Hwm.
  change (Mach.ptr 0) with 0.
  destruct (0 >=? p fs) eqn:Hc; [lia |].
  change (-1 =? -1) with true. cbv iota.
  apply (short_line_loop fuel fuel k).
  unfold line_within_margin. rewrite Hpo.
  repeat split; try assumption; lia.
Qed.

End ShortLine.

(** The hypotheses of [truncate_pass_never_ends] hold after ["ab\n"]
    has been appended to a fresh truncating stream of ten columns:
    neither the rewrite pass nor the session returns. *)
Lemma truncate_pass_never_ends_witness :
  exists fs,
    appended plain_env 1 zero_heap 0 10 (-1) (bytes_of "ab" ++ [NL]) = Ret fs /\
    __argp_fmtstream_update plain_env 50 fs = OutOfFuel /\
    session plain_env 50 zero_heap 0 10 (-1) (bytes_of "ab" ++ [NL]) = OutOfFuel.
Proof.
  set (out := appended plain_env 1 zero_heap 0 10 (-1) (bytes_of "ab" ++ [NL])).
  set (fs := match out with Ret x => x | _ => fresh_stream zero_heap 0 10 (-1) end).
  assert (Hrun : out = Ret fs) by (vm_compute; reflexivity).
  assert (Hup : __argp_fmtstream_update plain_env 50 fs = OutOfFuel).
  { apply (truncate_pass_never_ends plain_env 50 2 fs).
    - reflexivity.
    - reflexivity.
    - reflexivity.
    - vm_compute. discriminate.
    - lia.
    - vm_compute. reflexivity.
    - vm_compute. reflexivity.
    - reflexivity.
    - vm_compute. discriminate.
    - vm_compute. reflexivity.
    - vm_compute. reflexivity.
    - intros j Hj.
      assert (Hj' : j = 0 \/ j = 1) by lia.
      destruct Hj' as [-> | ->]; vm_compute; discriminate. }
  exists fs. split; [exact Hrun |]. split; [exact Hup |].
  vm_compute. reflexivity.
Defined.
